(** * scoreboard: the frame-generation pipeline of [scoreboard.py]

    A shallow embedding of [ScoreBoard] (scoreboard.py; creator.py holds an
    older copy of the same pipeline): the timeline scan of the frame loop,
    [fill_template], the render/copy decision on [last_params],
    [crop_transparent_borders], [encode_video] and [generate_overlay].

    Conventions of the embedding.
    - A Python [str] is a [string]; a Python [int] is a [Z].
    - A Python [float] is a [pyfloat]: the rational number the double
      stands for, together with the text [str()] prints for it.  Comparisons
      of floats are comparisons of these numbers; the result of [+], [*]
      and [/] is the exact result rounded to the nearest double, ties to
      even ([round64]), and an operation whose result is beyond the largest
      double overflows ([to_double]).  [nan] and [inf] are not values of
      the model.
    - A [dict] is an association list in insertion order with one entry per
      key, as [dict.items()] enumerates it.
    - Files are a store from path to decoded image; the browser and ffmpeg
      are oracles handed to the pipeline, every call to them is logged. *)

From Stdlib Require Import List String Ascii Bool Arith PeanoNat ZArith NArith.
From Stdlib Require Import QArith Qround Qabs Qpower Lia Lqa Sorted.
From Stdlib Require Import DecimalString SpecFloat.
Import ListNotations.

Local Open Scope string_scope.
Local Open Scope list_scope.

(** ** Python values *)

Record pyfloat : Type := mkfloat { fval : Q; frepr : string }.

(** The values of a row: the cells [csv.DictReader] yields are strings, or
    [None] where a line is shorter than the header; line 76 puts a float
    under [timestamp]. *)
Inductive value : Type :=
| VStr (s : string)
| VFloat (f : pyfloat)
| VNone.

(** [str(value)] *)
Definition py_str (v : value) : string :=
  match v with
  | VStr s => s
  | VFloat f => frepr f
  | VNone => "None"
  end.

(** [v1 == v2]: strings by content, floats by number, [None] with itself,
    never across types. *)
Definition value_eqb (v1 v2 : value) : bool :=
  match v1, v2 with
  | VStr a, VStr b => String.eqb a b
  | VFloat a, VFloat b => Qeq_bool (fval a) (fval b)
  | VNone, VNone => true
  | _, _ => false
  end.

(** ** Dictionaries *)

Definition dict : Type := list (string * value).

(** [d.get(k)] *)
Fixpoint dict_get (k : string) (d : dict) : option value :=
  match d with
  | [] => None
  | (k', v) :: r => if String.eqb k' k then Some v else dict_get k r
  end.

(** [d[k] = v]: an existing key keeps its position, a new key goes last. *)
Fixpoint dict_set (k : string) (v : value) (d : dict) : dict :=
  match d with
  | [] => [(k, v)]
  | (k', v') :: r =>
      if String.eqb k' k then (k', v) :: r else (k', v') :: dict_set k v r
  end.

(** [d.update(other)] *)
Definition dict_update (d other : dict) : dict :=
  fold_left (fun acc kv => dict_set (fst kv) (snd kv) acc) other d.

Definition dict_keys (d : dict) : list string := map fst d.

(** [d1 == d2]: same number of keys, and every key of [d1] is in [d2] with
    an equal value. *)
Definition dict_eqb (d1 d2 : dict) : bool :=
  Nat.eqb (List.length d1) (List.length d2)
  && forallb (fun kv => match dict_get (fst kv) d2 with
                        | Some v' => value_eqb (snd kv) v'
                        | None => false
                        end) d1.

(** [a != b] where [b] may be [None]: a dict never equals [None]. *)
Definition dict_neq_opt (a : dict) (b : option dict) : bool :=
  match b with
  | None => true
  | Some d => negb (dict_eqb a d)
  end.

(** ** Timeline: [read_csv_data] and the scan of the frame loop *)

(** [row['timestamp']].  [read_csv_data] stores a float under this key in
    every row it returns (line 76), so the last branch is not reached on
    the rows of a timeline. *)
Definition timestamp_of (row : dict) : Q :=
  match dict_get "timestamp" row with
  | Some (VFloat f) => fval f
  | _ => 0%Q
  end.

(** [data.sort(key=lambda x: x['timestamp'])]: [list.sort] is stable, and a
    stable ascending sort has one result; it is computed here by insertion
    from the right, a row going before the rows of equal key already
    placed. *)
Fixpoint insert_row (x : dict) (l : list dict) : list dict :=
  match l with
  | [] => [x]
  | y :: r =>
      if Qle_bool (timestamp_of x) (timestamp_of y) then x :: y :: r
      else y :: insert_row x r
  end.

(** [read_csv_data], from the rows as line 76 leaves them (the timestamp
    column already converted) to the sorted list it returns. *)
Definition read_csv_data (rows : list dict) : list dict :=
  fold_right insert_row [] rows.

(** [data[i]] for an index the loop guard has checked. *)
Definition row_at (data : list dict) (i : nat) : dict := nth i data [].

(** The [while] loop of lines 158-161, on the pair
    [(current_data_idx, current_params)].  Every iteration increments the
    index, which the guard keeps below [len(data) - 1], so [len(data)]
    iterations always suffice ([scan_exit] below). *)
Fixpoint scan (fuel : nat) (data : list dict) (t : Q)
         (idx : nat) (cur : dict) : nat * dict :=
  match fuel with
  | O => (idx, cur)
  | S fuel' =>
      if (idx <? List.length data - 1)%nat
         && Qle_bool (timestamp_of (row_at data (idx + 1))) t
      then scan fuel' data t (idx + 1) (row_at data (idx + 1))
      else (idx, cur)
  end.

Definition advance (data : list dict) (t : Q) (idx : nat) (cur : dict)
  : nat * dict :=
  scan (List.length data) data t idx cur.

(** The index the scan reaches from [idx] at clock time [t]. *)
Definition advance_idx (data : list dict) (idx : nat) (t : Q) : nat :=
  fst (advance data t idx (row_at data idx)).

(** The indices resolved for a sequence of clock times queried in order,
    starting as the loop does at index 0. *)
Definition resolve_from (data : list dict) (idx : nat) (clock : list Q) : nat :=
  fold_left (advance_idx data) clock idx.

(** ** Specification vocabulary for the timeline *)

Definition timeline_sorted (data : list dict) : Prop :=
  forall i j, (i <= j)%nat -> (j < List.length data)%nat ->
    (timestamp_of (row_at data i) <= timestamp_of (row_at data j))%Q.

Definition nondecreasing (clock : list Q) : Prop :=
  forall i j, (i <= j)%nat -> (j < List.length clock)%nat ->
    (nth i clock 0 <= nth j clock 0)%Q.

(** [i] is the index of the last event whose timestamp is at most [t], or 0
    when every event is later than [t]. *)
Definition active_index (data : list dict) (t : Q) (i : nat) : Prop :=
  (i < List.length data)%nat
  /\ (forall j, (i < j)%nat -> (j < List.length data)%nat ->
        (t < timestamp_of (row_at data j))%Q)
  /\ ((timestamp_of (row_at data i) <= t)%Q
      \/ (i = 0%nat /\ forall j, (j < List.length data)%nat ->
                         (t < timestamp_of (row_at data j))%Q)).

Definition by_timestamp (a b : dict) : Prop :=
  (timestamp_of a <= timestamp_of b)%Q.

(** ** Binary64 arithmetic: what [+], [*] and [/] do to Python floats *)

Definition pow2 (e : Z) : Q := Qpower 2 e.

(** [floor(log2 q)] for a positive [q]. *)
Definition ilog2 (q : Q) : Z :=
  let l := (Z.log2 (Qnum q) - Z.log2 (Zpos (Qden q)))%Z in
  if Qle_bool (pow2 l) q then l else (l - 1)%Z.

(** The nearest integer, a tie going to the even one. *)
Definition round_half_even (q : Q) : Z :=
  let f := Qfloor q in
  match Qcompare (q - inject_Z f) (1 # 2) with
  | Lt => f
  | Gt => (f + 1)%Z
  | Eq => if Z.even f then f else (f + 1)%Z
  end.

(** The exponent of the last bit of the 53-bit significand of the doubles
    next to [q]: [floor(log2 |q|) - 52], and -1074 in the subnormal
    range. *)
Definition quantum (q : Q) : Z :=
  Z.max (ilog2 (Qabs q) - 52) (-1074).

(** The double nearest to [q], ties to even, the exponent range not bounded
    above. *)
Definition round64 (q : Q) : Q :=
  if Qeq_bool q 0 then 0%Q
  else Qred (inject_Z (round_half_even (q / pow2 (quantum q)))
             * pow2 (quantum q)).

(** The result of an operation whose exact value is [q]: the nearest
    double, [None] when that is beyond the largest double (the operation
    overflows). *)
Definition to_double (q : Q) : option Q :=
  let r := round64 q in
  if Qle_bool (pow2 1024) (Qabs r) then None else Some r.

(** [float(z)] for an int, as [float * int] and [int / int] convert their
    int operand: [None] where Python raises [OverflowError]. *)
Definition int_to_float (z : Z) : option Q := to_double (inject_Z z).

(** The number a finite float of the Standard Library's IEEE 754
    specification stands for; [round64] is checked against the binary64
    operations of that specification on the numbers of the examples. *)
Definition SF2Q (x : spec_float) : Q :=
  match x with
  | S754_finite s m e =>
      (if s then - inject_Z (Zpos m) else inject_Z (Zpos m)) * pow2 e
  | _ => 0
  end.

(** The doubles 0.16, 0.3, 1.0, 10.0 and 25.0. *)
Definition sf_0_16 : spec_float := S754_finite false 5764607523034235 (-55).
Definition sf_0_3 : spec_float := S754_finite false 5404319552844595 (-54).
Definition sf_1 : spec_float := S754_finite false 4503599627370496 (-52).
Definition sf_10 : spec_float := S754_finite false 5629499534213120 (-49).
Definition sf_25 : spec_float := S754_finite false 7036874417766400 (-48).
(** ** The [ScoreBoard] object: configuration fields set by [__init__] *)

Record ScoreBoard : Type := mkScoreBoard {
  width : Z;                       (* 1920 *)
  height : Z;                      (* 1080 *)
  fps : Z;                         (* args.fps *)
  codec : string;                  (* args.codec *)
  global_params : dict;            (* from the --set NAME=VAL options *)
  args_duration : option Q;        (* args.duration, None when not given *)
  args_ffmpeg_extras : list string;(* args.ffmpeg_extras, None read as [] *)
  args_keep : bool                 (* args.keep *)
}.

(** [int(x)] on a float: truncation toward zero. *)
Definition py_int (q : Q) : Z := Z.quot (Qnum q) (Zpos (Qden q)).

(** Lines 140-143.  [if self.args.duration:] is false for [None] and for
    [0.0]; [data[-1]] is the last row; the sum of line 143 is a float
    addition. *)
Definition duration_of (sb : ScoreBoard) (data : list dict) : Q :=
  let default := round64 (timestamp_of (last data []) + 1) in
  match args_duration sb with
  | Some d => if Qeq_bool d 0 then default else d
  | None => default
  end.

(** [int(duration * fps)] for a float [duration] and an int [fps]: the int
    is converted to a float, the product is a float multiplication, and
    [int] truncates it.  [None] where Python raises [OverflowError]: the
    int is too large for a float, or the product is infinite. *)
Definition frame_count (duration : Q) (fps : Z) : option Z :=
  match int_to_float fps with
  | None => None
  | Some rate => option_map py_int (to_double (duration * rate))
  end.

(** Line 145: [total_frames = int(duration * self.fps)]. *)
Definition total_frames (sb : ScoreBoard) (data : list dict) : option Z :=
  frame_count (duration_of sb data) (fps sb).

(** Line 155: [timestamp = frame_num / self.fps], the division of two ints:
    the exact quotient rounded to the nearest double.  The loop body runs
    only when [total_frames] is positive, which a frame rate of 0 never
    gives, so that the division by zero is not reached; and a frame number
    below [total_frames] is below the largest double, so that the quotient
    does not overflow ([frames_rate_not_zero], [frame_clock_defined]). *)
Definition frame_clock (sb : ScoreBoard) (frame_num : nat) : Q :=
  round64 (inject_Z (Z.of_nat frame_num) / inject_Z (fps sb)).

(** [range(total_frames)]: empty when [total_frames] is not positive. *)
Definition frame_numbers (total_frames : Z) : list nat :=
  seq 0 (Z.to_nat total_frames).

(** ** Strings: [str.replace] and number formatting *)

(** [s.replace(old, new)] for a non-empty [old]: occurrences are found from
    left to right and do not overlap.  [skip] counts the characters of [s]
    still to drop because they belong to the occurrence just replaced. *)
Fixpoint replace_from (old new : string) (skip : nat) (s : string) : string :=
  match s with
  | EmptyString => EmptyString
  | String c s' =>
      match skip with
      | S k => replace_from old new k s'
      | O =>
          if String.prefix old s
          then new ++ replace_from old new (String.length old - 1) s'
          else String c (replace_from old new 0 s')
      end
  end.

(** With an empty [old] Python puts [new] before every character and at
    the end. *)
Fixpoint interleave (new s : string) : string :=
  match s with
  | EmptyString => new
  | String c s' => new ++ String c (interleave new s')
  end.

Definition replace (old new s : string) : string :=
  match old with
  | EmptyString => interleave new s
  | _ => replace_from old new 0 s
  end.

(** [str(n)] for an [int]. *)
Definition py_str_int (n : Z) : string := NilZero.string_of_int (Z.to_int n).

Fixpoint zeros (n : nat) : string :=
  match n with
  | O => EmptyString
  | S k => String "0" (zeros k)
  end.

(** [f'{n:06d}'] for [n >= 0]: decimal digits, padded with zeros on the left
    to a width of 6. *)
Definition format_06d (n : nat) : string :=
  let digits := NilZero.string_of_uint (Nat.to_uint n) in
  zeros (6 - String.length digits) ++ digits.

(** [os.path.join(dir, name)] for a directory name that does not end in a
    separator and a relative [name]. *)
Definition path_join (dir name : string) : string := dir ++ "/" ++ name.

(** ** Template engine: [fill_template] (lines 103-116) *)

Definition placeholder (key : string) : string := "{{" ++ key ++ "}}".

(** The body of the [for] loop over [allparams.items()]. *)
Definition fill_step (result : string) (item : string * value) : string :=
  let (key, v) := item in
  if negb (String.eqb key "timestamp")
  then replace (placeholder key) (py_str v) result
  else result.

Definition fill_template (template_content : string)
           (global_params params : dict) : string :=
  let allparams := dict_update params global_params in
  fold_left fill_step allparams template_content.

(** ** Images and [crop_transparent_borders] (lines 210-251) *)

Record pixel : Type := mkpixel { red : N; green : N; blue : N; alpha : N }.

(** A decoded image: its PIL mode and its pixels, row by row.  An image has
    positive width and height and rows of one length ([well_formed]). *)
Record image : Type := mkimage { mode : string; pixels : list (list pixel) }.

Definition transparent : pixel := mkpixel 0 0 0 0.

Definition img_height (img : image) : nat := List.length (pixels img).

Definition img_width (img : image) : nat :=
  match pixels img with
  | [] => 0%nat
  | r :: _ => List.length r
  end.

Definition well_formed (img : image) : bool :=
  (0 <? img_height img)%nat && (0 <? img_width img)%nat
  && forallb (fun r => Nat.eqb (List.length r) (img_width img)) (pixels img).

(** [img_array[r, c]] *)
Definition pixel_at (px : list (list pixel)) (r c : nat) : pixel :=
  nth c (nth r px []) transparent.

(** [alpha.max(axis=1)[r]]: the greatest alpha of row [r], a row of an
    image being non-empty. *)
Definition row_max (row : list pixel) : N :=
  fold_right N.max 0%N (map alpha row).

(** [alpha.max(axis=0)[c]]: the greatest alpha of column [c]. *)
Definition col_max (px : list (list pixel)) (c : nat) : N :=
  fold_right N.max 0%N (map (fun row => alpha (nth c row transparent)) px).

(** [np.where(v > 0)[0]]: the indices of the positive entries, ascending. *)
Definition where_positive (v : list N) : list nat :=
  map fst (filter (fun p => (0 <? snd p)%N) (combine (seq 0 (List.length v)) v)).

(** [img.crop((left, upper, right, lower))] for a box inside the image. *)
Definition crop_box (px : list (list pixel)) (left upper right lower : nat)
  : list (list pixel) :=
  map (fun row => firstn (right - left) (skipn left row))
      (firstn (lower - upper) (skipn upper px)).

(** What [crop_transparent_borders] leaves in the file that held [img]:
    [None] when it returns without saving. *)
Definition cropped_image (img : image) : option image :=
  if negb (String.eqb (mode img) "RGBA") then None
  else
    let px := pixels img in
    let non_transparent_rows := where_positive (map row_max px) in
    let non_transparent_cols :=
      where_positive (map (col_max px) (seq 0 (img_width img))) in
    match non_transparent_rows, non_transparent_cols with
    | top :: _, left_ :: _ =>
        let bottom := last non_transparent_rows top in
        let right_ := last non_transparent_cols left_ in
        Some (mkimage (mode img) (crop_box px left_ top (right_ + 1) (bottom + 1)))
    | _, _ => None
    end.

(** The content of the file after the call. *)
Definition trim (img : image) : image :=
  match cropped_image img with
  | Some cropped => cropped
  | None => img
  end.

(** ** Effects: exceptions, the call log, the object's mutable fields *)

Inductive exn : Type :=
| ValueError (msg : string)
| AttributeError (name : string)
| FileNotFoundError (path : string)
| PlaywrightError
| CalledProcessError (returncode : Z) (cmd : list string) (output err : string)
| OverflowError
| Exception (msg : string).

(** The calls the pipeline makes to its collaborators, in order. *)
Inductive event : Type :=
| Launch                          (* chromium.launch() *)
| Render (html path : string)     (* render_html_to_image *)
| Crop (path : string)            (* crop_transparent_borders *)
| Copy (src dst : string)         (* shutil.copy *)
| Encode (cmd : list string)      (* subprocess.run *)
| RemoveDir (dir : string)        (* TemporaryDirectory cleanup *)
| Close.                          (* driver.close() *)

Record completed_process : Type :=
  mkproc { returncode : Z; stdout : string; stderr : string }.

(** The collaborators: whether the browser starts, the raster the browser
    produces for a document ([None] when navigation or the screenshot
    fails), and what the encoder process returns for a command line. *)
Record environment : Type := mkenv {
  chromium_launches : bool;
  screenshot : string -> option image;
  ffmpeg : list string -> completed_process
}.

Definition store : Type := string -> option image.

Definition write_file (path : string) (img : image) (fs : store) : store :=
  fun p => if String.eqb p path then Some img else fs p.

Definition remove_tree (dir : string) (fs : store) : store :=
  fun p => if String.prefix (dir ++ "/") p then None else fs p.

(** [self.driver] (set or [None]), [self.last_params] ([None] at first),
    [self.last_frame_path] (no such attribute at first), the files, and the
    log of calls. *)
Record state : Type := mkstate {
  driver : bool;
  last_params : option dict;
  last_frame_path : option string;
  files : store;
  log : list event
}.

Definition initial_state (fs : store) : state :=
  mkstate false None None fs [].

Inductive result (A : Type) : Type :=
| Ok (a : A)
| Raised (e : exn).
Arguments Ok {A} a.
Arguments Raised {A} e.

(** A computation runs on a state and leaves a state, also when it raises. *)
Definition M (A : Type) : Type := state -> state * result A.

Definition ret {A} (a : A) : M A := fun st => (st, Ok a).

Definition raise {A} (e : exn) : M A := fun st => (st, Raised e).

Definition bind {A B} (c : M A) (k : A -> M B) : M B :=
  fun st =>
    match c st with
    | (st', Ok a) => k a st'
    | (st', Raised e) => (st', Raised e)
    end.

Declare Scope pipeline_scope.
Delimit Scope pipeline_scope with pipeline.
Notation "x <- c ;; k" := (bind c (fun x => k))
  (at level 61, c at next level, right associativity) : pipeline_scope.
Notation "c ;; k" := (bind c (fun _ => k))
  (at level 61, right associativity) : pipeline_scope.
Local Open Scope pipeline_scope.

Definition get : M state := fun st => (st, Ok st).

Definition emit (e : event) : M unit :=
  fun st => (mkstate (driver st) (last_params st) (last_frame_path st)
                     (files st) (log st ++ [e]), Ok tt).

Definition set_files (fs : store) : M unit :=
  fun st => (mkstate (driver st) (last_params st) (last_frame_path st)
                     fs (log st), Ok tt).

Definition set_driver (d : bool) : M unit :=
  fun st => (mkstate d (last_params st) (last_frame_path st)
                     (files st) (log st), Ok tt).

Definition set_last (path : string) (params : dict) : M unit :=
  fun st => (mkstate (driver st) (Some params) (Some path)
                     (files st) (log st), Ok tt).

(** [Image.open(path)] / reading a file. *)
Definition read_file (path : string) : M image :=
  st <- get ;;
  match files st path with
  | Some img => ret img
  | None => raise (FileNotFoundError path)
  end.

Definition save_file (path : string) (img : image) : M unit :=
  st <- get ;; set_files (write_file path img (files st)).

(** ** The methods of [ScoreBoard] *)

Section Pipeline.

Variable sb : ScoreBoard.
Variable env : environment.

(** Lines 45-52. *)
Definition setup_browser : M unit :=
  emit Launch ;;
  if chromium_launches env then set_driver true else raise PlaywrightError.

(** Lines 54-57. *)
Definition cleanup_browser : M unit :=
  st <- get ;;
  if driver st then emit Close else ret tt.

(** Lines 83-101: the document is loaded and the screenshot written to
    [output_path]. *)
Definition render_html_to_image (html_content output_path : string) : M unit :=
  emit (Render html_content output_path) ;;
  match screenshot env html_content with
  | Some img => save_file output_path img
  | None => raise PlaywrightError
  end.

(** Lines 210-251, on the file at [image_path]. *)
Definition crop_transparent_borders (image_path : string) : M unit :=
  emit (Crop image_path) ;;
  img <- read_file image_path ;;
  match cropped_image img with
  | Some cropped => save_file image_path cropped
  | None => ret tt
  end.

(** [shutil.copy(src, dst)] *)
Definition shutil_copy (src dst : string) : M unit :=
  emit (Copy src dst) ;;
  content <- read_file src ;;
  save_file dst content.

(** [subprocess.run(cmd, check=check, capture_output=True, text=True)] *)
Definition subprocess_run (cmd : list string) (check : bool)
  : M completed_process :=
  emit (Encode cmd) ;;
  let proc := ffmpeg env cmd in
  if check && negb (Z.eqb (returncode proc) 0)
  then raise (CalledProcessError (returncode proc) cmd (stdout proc) (stderr proc))
  else ret proc.

(** Lines 189-203. *)
Definition ffmpeg_command (frames_dir output_path : string) : list string :=
  [ "ffmpeg"; "-y";
    "-framerate"; py_str_int (fps sb);
    "-i"; path_join frames_dir "frame_%06d.png";
    "-c:v"; codec sb;
    "-preset"; "medium";
    "-crf"; "23";
    "-vf"; "pad=ceil(iw/2)*2:ceil(ih/2)*2";
    "-pix_fmt"; "yuva420p";
    "-movflags"; "+faststart" ]
  ++ args_ffmpeg_extras sb
  ++ [ output_path ].

(** Lines 187-208. *)
Definition encode_video (frames_dir output_path : string) : M unit :=
  let cmd := ffmpeg_command frames_dir output_path in
  proc <- subprocess_run cmd true ;;
  if negb (Z.eqb (returncode proc) 0)
  then raise (Exception (stderr proc))
  else ret tt.

Variable template : string.
Variable data : list dict.
Variable temp_dir : string.

Definition frame_path_of (frame_num : nat) : string :=
  path_join temp_dir ("frame_" ++ format_06d frame_num ++ ".png").

(** Lines 155-176: one iteration of the frame loop.  The local variables
    [current_data_idx] and [current_params] are passed in and returned. *)
Definition frame_body (frame_num : nat) (loc : nat * dict) : M (nat * dict) :=
  let timestamp := frame_clock sb frame_num in
  let loc' := advance data timestamp (fst loc) (snd loc) in
  let current_params := snd loc' in
  let html_content := fill_template template (global_params sb) current_params in
  let frame_path := frame_path_of frame_num in
  st <- get ;;
  (if dict_neq_opt current_params (last_params st)
   then render_html_to_image html_content frame_path ;;
        crop_transparent_borders frame_path
   else match last_frame_path st with
        | Some previous => shutil_copy previous frame_path
        | None => raise (AttributeError "last_frame_path")
        end) ;;
  set_last frame_path current_params ;;
  ret loc'.

(** Lines 154-179: [for frame_num in range(total_frames)]. *)
Fixpoint frame_loop (frames : list nat) (loc : nat * dict) : M (nat * dict) :=
  match frames with
  | [] => ret loc
  | frame_num :: rest =>
      loc' <- frame_body frame_num loc ;;
      frame_loop rest loc'
  end.

End Pipeline.

(** [with tempfile.TemporaryDirectory(delete=...) as temp_dir]: the
    directory is removed when the block is left, by return or by
    exception. *)
Definition with_temporary_directory {A} (delete : bool) (temp_dir : string)
           (body : M A) : M A :=
  fun st =>
    let (st', r) := body st in
    if delete
    then (mkstate (driver st') (last_params st') (last_frame_path st')
                  (remove_tree temp_dir (files st'))
                  (log st' ++ [RemoveDir temp_dir]), r)
    else (st', r).

(** Lines 130-185: the method from the test for an empty table on.
    [rows] are the rows of the CSV file as line 76 leaves them, [template]
    the text of the template file (lines 128-135 read the two files),
    [temp_dir] the name the temporary directory receives. *)
Definition generate_overlay (sb : ScoreBoard) (env : environment)
           (rows : list dict) (template temp_dir output_path : string) : M unit :=
  let data := read_csv_data rows in
  match data with
  | [] => raise (ValueError "CSV file is empty or invalid")
  | _ =>
      setup_browser env ;;
      match total_frames sb data with
      | None => raise OverflowError
      | Some total_frames =>
          with_temporary_directory (negb (args_keep sb)) temp_dir
            (frame_loop sb env template data temp_dir
                        (frame_numbers total_frames) (0%nat, row_at data 0) ;;
             encode_video sb env temp_dir output_path) ;;
          cleanup_browser
      end
  end.

(** ** Specification vocabulary for templates *)

(** [sub in s] *)
Definition occurs (sub s : string) : Prop :=
  exists a b, s = (a ++ sub ++ b)%string.

Definition is_open (c : ascii) : bool := Ascii.eqb c "{".
Definition is_close (c : ascii) : bool := Ascii.eqb c "}".

(** The text holds neither an opening nor a closing brace. *)
Fixpoint brace_free (s : string) : bool :=
  match s with
  | EmptyString => true
  | String c s' => negb (is_open c) && negb (is_close c) && brace_free s'
  end.

(** The text holds no two opening braces in a row and does not end with an
    opening brace: no placeholder can begin inside it, whatever follows. *)
Fixpoint plain (s : string) : bool :=
  match s with
  | EmptyString => true
  | String c s' =>
      if is_open c
      then match s' with
           | EmptyString => false
           | String c' _ => negb (is_open c') && plain s'
           end
      else plain s'
  end.

(** A template read as literal text and placeholder tokens. *)
Inductive segment : Type :=
| Lit (text : string)
| Tok (key : string).

Fixpoint render_segments (segs : list segment) : string :=
  match segs with
  | [] => EmptyString
  | Lit text :: rest => text ++ render_segments rest
  | Tok key :: rest => placeholder key ++ render_segments rest
  end.

(** What a token becomes under a parameter map: the string form of the
    value of its key, except that [timestamp] and keys the map does not
    hold stay as they are. *)
Definition substitute (items : dict) (sg : segment) : segment :=
  match sg with
  | Lit text => Lit text
  | Tok key =>
      if String.eqb key "timestamp" then Tok key
      else match dict_get key items with
           | Some v => Lit (py_str v)
           | None => Tok key
           end
  end.

Definition hygienic_items (items : dict) : Prop :=
  forall k v, In (k, v) items -> k <> "timestamp" ->
    brace_free k = true /\ plain (py_str v) = true.

Definition hygienic_segment (sg : segment) : Prop :=
  match sg with
  | Lit text => plain text = true
  | Tok key => brace_free key = true
  end.

(** A dict holds one entry per key. *)
Definition unique_keys (d : dict) : Prop := NoDup (dict_keys d).

(** One step of the substitution on a segmented template: the tokens of
    [key] become the literal [text]. *)
Definition replace_token (key text : string) (sg : segment) : segment :=
  match sg with
  | Lit s => Lit s
  | Tok k => if String.eqb k key then Lit text else Tok k
  end.

Definition hygienic_itemsb (items : dict) : bool :=
  forallb (fun kv => String.eqb (fst kv) "timestamp"
                     || (brace_free (fst kv) && plain (py_str (snd kv))))
          items.

(** ** Specification vocabulary for images *)

(** [np.where(v > 0)[0]] on a vector whose first entry has index [s]. *)
Definition positive_from (s : nat) (v : list N) : list nat :=
  map fst (filter (fun p => (0 <? snd p)%N) (combine (seq s (List.length v)) v)).

Definition alpha_at (img : image) (r c : nat) : N :=
  alpha (pixel_at (pixels img) r c).

Definition fully_transparent (img : image) : Prop :=
  forall r c, (r < img_height img)%nat -> (c < img_width img)%nat ->
    alpha_at img r c = 0%N.

Definition has_opaque (img : image) : Prop :=
  exists r c, (r < img_height img)%nat /\ (c < img_width img)%nat
              /\ (0 < alpha_at img r c)%N.

(** Rows [top..bottom] and columns [left_..right_] hold every pixel of
    positive alpha, and each of the four border lines holds one: no smaller
    box encloses them. *)
Record bounding_box (img : image) (top bottom left_ right_ : nat) : Prop := {
  box_rows : (top <= bottom < img_height img)%nat;
  box_cols : (left_ <= right_ < img_width img)%nat;
  box_encloses :
    forall r c, (r < img_height img)%nat -> (c < img_width img)%nat ->
      (0 < alpha_at img r c)%N ->
      (top <= r <= bottom)%nat /\ (left_ <= c <= right_)%nat;
  box_top : exists c, (c < img_width img)%nat /\ (0 < alpha_at img top c)%N;
  box_bottom : exists c, (c < img_width img)%nat /\ (0 < alpha_at img bottom c)%N;
  box_left : exists r, (r < img_height img)%nat /\ (0 < alpha_at img r left_)%N;
  box_right : exists r, (r < img_height img)%nat /\ (0 < alpha_at img r right_)%N
}.

(** [out] is [img] cut to the box, border lines included. *)
Definition is_crop (img out : image) (top bottom left_ right_ : nat) : Prop :=
  mode out = mode img
  /\ img_height out = (bottom - top + 1)%nat
  /\ (forall i, (i < img_height out)%nat ->
        List.length (nth i (pixels out) []) = (right_ - left_ + 1)%nat)
  /\ (forall i j, (i <= bottom - top)%nat -> (j <= right_ - left_)%nat ->
        pixel_at (pixels out) i j = pixel_at (pixels img) (top + i) (left_ + j)).

Definition trim_contract (img out : image) : Prop :=
  (mode img <> "RGBA"%string -> out = img)
  /\ (mode img = "RGBA"%string -> fully_transparent img -> out = img)
  /\ (mode img = "RGBA"%string -> has_opaque img ->
      exists top bottom left_ right_,
        bounding_box img top bottom left_ right_
        /\ is_crop img out top bottom left_ right_).

(** ** Specification vocabulary for the frame loop *)

(** What a completed iteration leaves: the calls it added to the log, the
    cache fields set to this frame, the frame's file, every other file and
    the browser handle untouched. *)
Definition frame_outcome (st st' : state) (frame_path : string)
           (params : dict) (content : image) (calls : list event) : Prop :=
  log st' = log st ++ calls
  /\ last_params st' = Some params
  /\ last_frame_path st' = Some frame_path
  /\ files st' frame_path = Some content
  /\ (forall p, p <> frame_path -> files st' p = files st p)
  /\ driver st' = driver st.

(** The entries of an event other than its timestamp, in order. *)
Definition named_params (row : dict) : dict :=
  filter (fun kv => negb (String.eqb (fst kv) "timestamp")) row.

(** A row as [read_csv_data] returns it: a float under [timestamp]. *)
Definition is_event (row : dict) : Prop :=
  exists f, dict_get "timestamp" row = Some (VFloat f).

Definition is_close_event (e : event) : bool :=
  match e with Close => true | _ => false end.

Definition is_encode_event (e : event) : bool :=
  match e with Encode _ => true | _ => false end.

(** The calls one iteration of the frame loop can make. *)
Definition is_frame_event (e : event) : Prop :=
  match e with
  | Render _ _ | Crop _ | Copy _ _ => True
  | _ => False
  end.

(** The calls made inside the [with] block of the temporary directory. *)
Definition is_block_event (e : event) : Prop :=
  match e with
  | Render _ _ | Crop _ | Copy _ _ | Encode _ => True
  | _ => False
  end.

(** A computation that only adds calls satisfying [P] to the log and leaves
    the browser handle alone, whether it returns or raises. *)
Definition extends (P : event -> Prop) {A} (c : M A) : Prop :=
  forall st, exists calls,
    log (fst (c st)) = log st ++ calls
    /\ Forall P calls
    /\ driver (fst (c st)) = driver st.

Definition not_close (e : event) : Prop := is_close_event e = false.

(** The error an encoder failure surfaces as carries the captured output. *)
Definition diagnostic_output (e : exn) : option string :=
  match e with
  | CalledProcessError _ _ _ err => Some err
  | Exception msg => Some msg
  | _ => None
  end.

(** The invariant of the cache fields: once parameters are remembered, the
    remembered path names a file that exists. *)
Definition cache_consistent (st : state) : Prop :=
  match last_params st with
  | None => True
  | Some _ => exists previous raster,
                last_frame_path st = Some previous
                /\ files st previous = Some raster
  end.

(** The three equations of a left-to-right, non-overlapping replacement of
    [old] by [new]. *)
Definition replaces_occurrences (old new : string) (f : string -> string) : Prop :=
  f EmptyString = EmptyString
  /\ (forall rest, f (old ++ rest)%string = (new ++ f rest)%string)
  /\ (forall c s, String.prefix old (String c s) = false ->
                  f (String c s) = String c (f s)).

(** ** Concrete inputs used in the examples *)

Definition float_of (q : Q) (text : string) : value := VFloat (mkfloat q text).

(** The table [(0.0, x=A), (2.0, x=B)]. *)
Definition table_AB : list dict :=
  [ [("timestamp", float_of 0 "0.0"); ("x", VStr "A")];
    [("timestamp", float_of 2 "2.0"); ("x", VStr "B")] ].

(** A table whose first event starts at 2.0: [(2.0, x=A), (3.0, x=B)]. *)
Definition table_late : list dict :=
  [ [("timestamp", float_of 2 "2.0"); ("x", VStr "A")];
    [("timestamp", float_of 3 "3.0"); ("x", VStr "B")] ].

(** A run with the defaults of [main] and the given frame rate, no
    duration override and no global parameter. *)
Definition board (rate : Z) : ScoreBoard :=
  mkScoreBoard 1920 1080 rate "prores" [] None [] false.

(** A table whose last timestamp is 9.5. *)
Definition table_9_5 : list dict :=
  [ [("timestamp", float_of (19 # 2) "9.5"); ("x", VStr "B")];
    [("timestamp", float_of 0 "0.0"); ("x", VStr "A")] ].

(** [float(text)] for the decimal number [q] the text denotes. *)
Definition double_of (q : Q) (text : string) : value :=
  VFloat (mkfloat (round64 q) text).

(** A table with one event, at 0.16. *)
Definition table_0_16 : list dict :=
  [ [("timestamp", double_of (16 # 100) "0.16"); ("x", VStr "A")] ].

(** A table with one event, at -1.5. *)
Definition table_negative : list dict :=
  [ [("timestamp", float_of (- (3 # 2)) "-1.5"); ("x", VStr "A")] ].

(** The effective map [{a: "1", b: "2"}], and an event carrying it. *)
Definition params_ab : dict := [("a", VStr "1"); ("b", VStr "2")].

Definition event_ab : dict :=
  [("timestamp", float_of (3 # 2) "1.5"); ("a", VStr "1"); ("b", VStr "2")].

(** An event and global parameters that both set [x]. *)
Definition event_x : dict :=
  [("timestamp", float_of 0 "0.0"); ("x", VStr "A"); ("y", VStr "B")].

Definition globals_x : dict := [("x", VStr "G"); ("z", VStr "H")].

Definition opaque_white : pixel := mkpixel 255 255 255 255.

(** A 100 x 100 transparent canvas with one opaque pixel at (5, 5). *)
Definition canvas_one_pixel : image :=
  mkimage "RGBA"
    (map (fun r => map (fun c => if (Nat.eqb r 5 && Nat.eqb c 5)%bool
                                 then opaque_white else transparent)
                       (seq 0 100))
         (seq 0 100)).

(** A 3 x 2 canvas without any opaque pixel, and one without alpha. *)
Definition canvas_clear : image :=
  mkimage "RGBA" [[transparent; transparent; transparent];
                  [transparent; transparent; transparent]].

Definition canvas_rgb : image :=
  mkimage "RGB" [[opaque_white; transparent]; [transparent; transparent]].

(** A stand-in browser: one row of pixels, one pixel per character of the
    document, its alpha the character code. *)
Definition toy_screenshot (html : string) : option image :=
  Some (mkimage "RGBA"
          [map (fun c => mkpixel 0 0 0 (N_of_ascii c)) (list_ascii_of_string html)]).

(** Collaborators that all work, a browser that fails on every document,
    and an encoder that exits with status 1. *)
Definition env_ok : environment :=
  mkenv true toy_screenshot (fun _ => mkproc 0 "" "").

Definition env_render_fails : environment :=
  mkenv true (fun _ => None) (fun _ => mkproc 0 "" "").

Definition env_encode_fails : environment :=
  mkenv true toy_screenshot (fun _ => mkproc 1 "" "Unknown encoder").

Definition no_files : store := fun _ => None.


(** Two events with the same parameters at different times:
    [(0.0, x=A), (2.0, x=A)]; the state after frames 0 and 1 at one frame
    per second. *)
Definition table_AA : list dict :=
  [ [("timestamp", float_of 0 "0.0"); ("x", VStr "A")];
    [("timestamp", float_of 2 "2.0"); ("x", VStr "A")] ].

Definition after_frames_0_1 : state :=
  fst (frame_loop (board 1) env_ok "<b>{{x}}</b>" table_AA "/tmp/t" [0; 1]%nat
                  (0%nat, row_at table_AA 0) (initial_state no_files)).

From Stdlib Require Import Permutation DecimalNat Lqa.

(** ** [ScoreBoard.__init__] (lines 17-43): the [--set NAME=VAL] options *)

(** [sep in s] for a one-character [sep]. *)
Fixpoint contains_char (sep : ascii) (s : string) : bool :=
  match s with
  | EmptyString => false
  | String c s' => Ascii.eqb c sep || contains_char sep s'
  end.

(** [s.split(sep)] for a one-character [sep]: the segments between the
    separators, empty segments included; never an empty list. *)
Fixpoint py_split (sep : ascii) (s : string) : list string :=
  match s with
  | EmptyString => [EmptyString]
  | String c s' =>
      if Ascii.eqb c sep then EmptyString :: py_split sep s'
      else match py_split sep s' with
           | seg :: segs => String c seg :: segs
           | [] => [String c EmptyString]
           end
  end.

(** The parsed command line ([argparse] is not modelled): [None] for an
    option list not given is read as the empty list, which the code treats
    alike. *)
Record arguments : Type := mkargs {
  csv_file : string;
  template_file : string;
  output_file : string;
  arg_duration : option Q;
  arg_fps : Z;
  arg_codec : string;
  arg_params : list string;
  arg_ffmpeg_extras : list string;
  arg_keep : bool
}.

(** Lines 37-43: the loop over [args.params], on [self.global_params].
    [sv[0]] and [sv[1]] exist because [p] holds the separator
    ([py_split_two] below). *)
Fixpoint set_global_params (params : list string) (acc : dict) : result dict :=
  match params with
  | [] => Ok acc
  | p :: rest =>
      if negb (contains_char "=" p)
      then Raised (Exception "--set value should use the format name=value")
      else
        let sv := py_split "=" p in
        set_global_params rest
          (dict_set (nth 0 sv EmptyString) (VStr (nth 1 sv EmptyString)) acc)
  end.

(** [ScoreBoard(args)] *)
Definition ScoreBoard_init (args : arguments) : result ScoreBoard :=
  match set_global_params (arg_params args) [] with
  | Ok params =>
      Ok (mkScoreBoard 1920 1080 (arg_fps args) (arg_codec args) params
                       (arg_duration args) (arg_ffmpeg_extras args)
                       (arg_keep args))
  | Raised e => Raised e
  end.

(** ** [read_csv_data], lines 72-77: the conversion of the timestamp column *)

(** The errors of line 76. *)
Inductive read_error : Type :=
| KeyError (key : string)          (* the header has no such column *)
| FloatTypeError                   (* [float(None)]: the line is too short *)
| FloatValueError (text : string). (* [float(text)] raises ValueError *)

Section ReadRows.

(** [float(text)] on a string: [None] where Python raises [ValueError]. *)
Variable py_float : string -> option pyfloat.

(** Line 76: [row['timestamp'] = float(row['timestamp'])] on a row as
    [csv.DictReader] yields it: one entry for every column of the header,
    a string, or [None] where the line ends before the column.  (A line
    longer than the header is not among the rows of the model.)  [float] of
    a float is that float. *)
Definition convert_row (row : dict) : read_error + dict :=
  match dict_get "timestamp" row with
  | None => inl (KeyError "timestamp")
  | Some VNone => inl FloatTypeError
  | Some (VStr text) =>
      match py_float text with
      | Some f => inr (dict_set "timestamp" (VFloat f) row)
      | None => inl (FloatValueError text)
      end
  | Some (VFloat f) => inr (dict_set "timestamp" (VFloat f) row)
  end.

(** Lines 74-77: the rows are converted in file order; the first failure
    is raised. *)
Fixpoint convert_rows (raw : list dict) : read_error + list dict :=
  match raw with
  | [] => inr []
  | row :: rest =>
      match convert_row row with
      | inl e => inl e
      | inr row' =>
          match convert_rows rest with
          | inl e => inl e
          | inr rest' => inr (row' :: rest')
          end
      end
  end.

(** The whole of [read_csv_data] on the rows [csv.DictReader] yields. *)
Definition read_csv_rows (raw : list dict) : read_error + list dict :=
  match convert_rows raw with
  | inl e => inl e
  | inr rows => inr (read_csv_data rows)
  end.

(** ** [main] of scoreboard.py (lines 253-283) *)

(** What [parser.parse_args()] (line 271) makes of the command line: the
    options, or the end of the process ([--help] prints the usage and
    exits with status 0, a malformed command line exits with status 2). *)
Inductive command_line : Type :=
| Parsed (args : arguments)
| ParserExit (status : Z).

(** How [main] ends: it returns, or the process is ended by [sys.exit]. *)
Inductive ending : Type :=
| Returned
| Exited (status : Z).

(** [csv] are the rows [csv.DictReader] yields for [args.csv_file] and
    [template] the text of [args.template_file], [None] when the file
    cannot be opened.  Every exception of the model is a subclass of
    [Exception] and is caught on line 281; the exit of the parser is not.
    [generate_overlay] reads and converts the rows, tests for an empty
    table and reads the template, in this order, before it launches the
    browser. *)
Definition main (cmdline : command_line) (env : environment)
           (csv : option (list dict)) (template : option string)
           (temp_dir : string) (st : state) : state * ending :=
  match cmdline with
  | ParserExit status => (st, Exited status)
  | Parsed args =>
      match ScoreBoard_init args with
      | Raised _ => (st, Exited (-1))
      | Ok generator =>
          match csv with
          | None => (st, Exited (-1))
          | Some raw =>
              match convert_rows raw with
              | inl _ => (st, Exited (-1))
              | inr [] => (st, Exited (-1))
              | inr rows =>
                  match template with
                  | None => (st, Exited (-1))
                  | Some text =>
                      let (st', r) :=
                        generate_overlay generator env rows text temp_dir
                                         (output_file args) st in
                      (st', match r with
                            | Ok _ => Returned
                            | Raised _ => Exited (-1)
                            end)
                  end
              end
          end
      end
  end.

End ReadRows.


(** ** creator.py: [VideoOverlayGenerator], the earlier entry point *)

Record VideoOverlayGenerator : Type := mkgenerator {
  gen_width : Z;
  gen_height : Z;
  gen_fps : Z
}.

(** The collaborators of both programs: the raster the browser makes of a
    document depends on the viewport [setup_browser] asks for
    (creator.py lines 81-84, scoreboard.py lines 49-51). *)
Record world : Type := mkworld {
  world_launches : bool;
  world_screenshot : Z -> Z -> string -> option image;
  world_ffmpeg : list string -> completed_process
}.

(** The collaborators as an object with the given viewport meets them. *)
Definition at_viewport (w : world) (view_width view_height : Z)
  : environment :=
  mkenv (world_launches w) (world_screenshot w view_width view_height)
        (world_ffmpeg w).

(** creator.py, lines 137-148: there are no global parameters, the loop
    runs over the items of the event. *)
Definition creator_fill_template (template_content : string) (params : dict)
  : string :=
  fold_left fill_step params template_content.

(** creator.py, lines 174-175: [if duration is None], with the float sum
    of line 175. *)
Definition creator_duration (duration : option Q) (data : list dict) : Q :=
  match duration with
  | None => round64 (timestamp_of (last data []) + 1)
  | Some d => d
  end.

(** creator.py, line 177. *)
Definition creator_total_frames (gen : VideoOverlayGenerator)
           (duration : option Q) (data : list dict) : option Z :=
  frame_count (creator_duration duration data) (gen_fps gen).

(** creator.py, lines 221-232. *)
Definition creator_ffmpeg_command (gen : VideoOverlayGenerator)
           (frames_dir output_path : string) : list string :=
  [ "ffmpeg"; "-y";
    "-framerate"; py_str_int (gen_fps gen);
    "-i"; path_join frames_dir "frame_%06d.png";
    "-c:v"; "prores";
    "-preset"; "medium";
    "-crf"; "23";
    "-pix_fmt"; "yuva420p";
    "-movflags"; "+faststart";
    output_path ].

Section Creator.

Local Open Scope pipeline_scope.

Variable gen : VideoOverlayGenerator.
Variable w : world.

(** The browser with the viewport of the generator. *)
Definition creator_env : environment :=
  at_viewport w (gen_width gen) (gen_height gen).

(** creator.py, lines 219-234. *)
Definition creator_encode_video (frames_dir output_path : string) : M unit :=
  subprocess_run creator_env
                 (creator_ffmpeg_command gen frames_dir output_path) true ;;
  ret tt.

Variable template : string.
Variable data : list dict.
Variable temp_dir : string.

(** creator.py, lines 187-208. *)
Definition creator_frame_body (frame_num : nat) (loc : nat * dict)
  : M (nat * dict) :=
  let timestamp :=
    round64 (inject_Z (Z.of_nat frame_num) / inject_Z (gen_fps gen)) in
  let loc' := advance data timestamp (fst loc) (snd loc) in
  let current_params := snd loc' in
  let html_content := creator_fill_template template current_params in
  let frame_path := frame_path_of temp_dir frame_num in
  st <- get ;;
  (if dict_neq_opt current_params (last_params st)
   then render_html_to_image creator_env html_content frame_path ;;
        crop_transparent_borders frame_path
   else match last_frame_path st with
        | Some previous => shutil_copy previous frame_path
        | None => raise (AttributeError "last_frame_path")
        end) ;;
  set_last frame_path current_params ;;
  ret loc'.

(** creator.py, lines 186-211. *)
Fixpoint creator_frame_loop (frames : list nat) (loc : nat * dict)
  : M (nat * dict) :=
  match frames with
  | [] => ret loc
  | frame_num :: rest =>
      loc' <- creator_frame_body frame_num loc ;;
      creator_frame_loop rest loc'
  end.

End Creator.

(** creator.py, lines 150-217, from the test for an empty table on. *)
Definition creator_generate_overlay (gen : VideoOverlayGenerator)
           (w : world) (rows : list dict)
           (template temp_dir output_path : string) (duration : option Q)
  : M unit :=
  (let data := read_csv_data rows in
   match data with
   | [] => raise (ValueError "CSV file is empty or invalid")
   | _ =>
       setup_browser (creator_env gen w) ;;
       match creator_total_frames gen duration data with
       | None => raise OverflowError
       | Some total_frames =>
           with_temporary_directory true temp_dir
             (creator_frame_loop gen w template data temp_dir
                                 (frame_numbers total_frames)
                                 (0%nat, row_at data 0) ;;
              creator_encode_video gen w temp_dir output_path) ;;
           cleanup_browser
       end
   end)%pipeline.

(** ** Further specification vocabulary *)

Definition is_render_event (e : event) : bool :=
  match e with Render _ _ => true | _ => false end.

(** The number of documents the browser was asked to render. *)
Definition render_count (calls : list event) : nat :=
  List.length (filter is_render_event calls).

(** The number a frame file name stands for. *)
Definition frame_number_of (text : string) : option nat :=
  option_map Nat.of_uint (NilEmpty.uint_of_string text).

(** The rows of one file carry the same columns in the same order. *)
Definition same_columns (rows : list dict) : Prop :=
  forall a b, In a rows -> In b rows -> dict_keys a = dict_keys b.

(** The index the frame loop stands on after frame [frame_num]. *)
Definition frame_index (sb : ScoreBoard) (data : list dict) (frame_num : nat)
  : nat :=
  resolve_from data 0 (map (frame_clock sb) (seq 0 (S frame_num))).

(** A path below the directory. *)
Definition under (dir path : string) : bool := String.prefix (dir ++ "/") path.

(** The ways one iteration of the frame loop can go, with the state and
    result of each. *)
Inductive frame_step_case (env : environment) (st : state) (cur : dict)
          (html path : string) (loc' : nat * dict)
  : state * result (nat * dict) -> Prop :=
| step_rendered raster :
    dict_neq_opt cur (last_params st) = true ->
    screenshot env html = Some raster ->
    frame_step_case env st cur html path loc'
      (mkstate (driver st) (Some cur) (Some path)
               (match cropped_image raster with
                | Some cropped =>
                    write_file path cropped (write_file path raster (files st))
                | None => write_file path raster (files st)
                end)
               (log st ++ [Render html path; Crop path]), Ok loc')
| step_render_failed :
    dict_neq_opt cur (last_params st) = true ->
    screenshot env html = None ->
    frame_step_case env st cur html path loc'
      (mkstate (driver st) (last_params st) (last_frame_path st) (files st)
               (log st ++ [Render html path]), Raised PlaywrightError)
| step_no_path :
    dict_neq_opt cur (last_params st) = false ->
    last_frame_path st = None ->
    frame_step_case env st cur html path loc'
      (st, Raised (AttributeError "last_frame_path"))
| step_no_file previous :
    dict_neq_opt cur (last_params st) = false ->
    last_frame_path st = Some previous ->
    files st previous = None ->
    frame_step_case env st cur html path loc'
      (mkstate (driver st) (last_params st) (last_frame_path st) (files st)
               (log st ++ [Copy previous path]),
       Raised (FileNotFoundError previous))
| step_copied previous raster :
    dict_neq_opt cur (last_params st) = false ->
    last_frame_path st = Some previous ->
    files st previous = Some raster ->
    frame_step_case env st cur html path loc'
      (mkstate (driver st) (Some cur) (Some path)
               (write_file path raster (files st))
               (log st ++ [Copy previous path]), Ok loc').

(** ** Further vocabulary: rows *)

(** The row is stamped [q]. *)
Definition at_time (q : Q) (row : dict) : bool :=
  Qeq_bool (timestamp_of row) q.

(** What follows the value of a [--set] option, if anything: a second
    separator and more text. *)
Definition option_tail (more : option string) : string :=
  match more with
  | Some rest => "=" ++ rest
  | None => ""
  end.

(** What line 76 makes of a row: the same columns in the same order, a
    float under [timestamp], every other cell as it was. *)
Definition converted (row row' : dict) : Prop :=
  dict_keys row' = dict_keys row
  /\ is_event row'
  /\ forall k, k <> "timestamp"%string -> dict_get k row' = dict_get k row.

(** The row line 76 fails on, with the error it raises. *)
Definition conversion_fails (py_float : string -> option pyfloat)
           (row : dict) (e : read_error) : Prop :=
  match e with
  | KeyError key =>
      key = "timestamp"%string /\ dict_get "timestamp" row = None
  | FloatTypeError => dict_get "timestamp" row = Some VNone
  | FloatValueError text =>
      dict_get "timestamp" row = Some (VStr text) /\ py_float text = None
  end.

(** The file a call of the frame loop creates: the screenshot of a render,
    the target of a copy.  A crop rewrites the file it is given. *)
Definition written_path (e : event) : option string :=
  match e with
  | Render _ path => Some path
  | Copy _ dst => Some dst
  | _ => None
  end.

(** The files a sequence of calls creates, in order. *)
Fixpoint written_paths (calls : list event) : list string :=
  match calls with
  | [] => []
  | e :: rest =>
      match written_path e with
      | Some path => path :: written_paths rest
      | None => written_paths rest
      end
  end.

(** A row as [csv.DictReader] yields it and line 76 leaves it: every cell
    but the timestamp is a string. *)
Definition string_cells (row : dict) : Prop :=
  forall k v, In (k, v) row -> k <> "timestamp"%string -> exists s, v = VStr s.

(** The file of frame [frame_num] holds the trimmed screenshot of the
    template filled with the event the frame stands on. *)
Definition frame_shows (sb : ScoreBoard) (env : environment)
           (template : string) (data : list dict) (temp_dir : string)
           (fs : store) (frame_num : nat) : Prop :=
  exists raster,
    screenshot env (fill_template template (global_params sb)
                      (row_at data (frame_index sb data frame_num)))
    = Some raster
    /\ fs (frame_path_of temp_dir frame_num) = Some (trim raster).

(** Every copy in a sequence of calls takes the file of one frame to the
    file of the next, and that file was created earlier in the
    sequence. *)
Definition copies_follow (dir : string) (calls : list event) : Prop :=
  forall before src dst after,
    calls = before ++ Copy src dst :: after ->
    exists n, src = frame_path_of dir n
              /\ dst = frame_path_of dir (S n)
              /\ In src (written_paths before).

(** The number is a double: rounding leaves it as it is. *)
Definition is_double (q : Q) : Prop := (round64 q == q)%Q.

(** ** Further examples *)

(** The rows [csv.DictReader] yields for the file of [table_AB]. *)
Definition raw_AB : list dict :=
  [ [("timestamp", VStr "0.0"); ("x", VStr "A")];
    [("timestamp", VStr "2.0"); ("x", VStr "B")] ].

(** [float] on the two timestamps of that file. *)
Definition float_AB (text : string) : option pyfloat :=
  if String.eqb text "0.0" then Some (mkfloat 0 "0.0")
  else if String.eqb text "2.0" then Some (mkfloat 2 "2.0")
  else None.

(** [scoreboard.py -f 1 a.csv t.html out.mov] *)
Definition args_plain : arguments :=
  mkargs "a.csv" "t.html" "out.mov" None 1 "prores" [] [] false.

(** A file whose second line ends before the timestamp column. *)
Definition raw_short : list dict :=
  [ [("x", VStr "A"); ("timestamp", VStr "0.0")];
    [("x", VStr "B"); ("timestamp", VNone)] ].


(** A browser whose raster is one opaque row as wide as the viewport. *)
Definition world_sized : world :=
  mkworld true
          (fun view_width _ _ =>
             Some (mkimage "RGBA" [repeat opaque_white (Z.to_nat view_width)]))
          (fun _ => mkproc 0 "" "").

(** * Properties *)

(** ** Powers of two *)

Lemma pow2_pos e : (0 < pow2 e)%Q.
Proof. apply Qpower_0_lt. reflexivity. Qed.

Lemma pow2_add a b : (pow2 (a + b) == pow2 a * pow2 b)%Q.
Proof. apply Qpower_plus. discriminate. Qed.

Lemma pow2_le a b : (a <= b)%Z -> (pow2 a <= pow2 b)%Q.
Proof. intros H. apply Qpower_le_compat_l; [exact H | discriminate]. Qed.

Lemma pow2_lt a b : (a < b)%Z -> (pow2 a < pow2 b)%Q.
Proof. intros H. apply Qpower_lt_compat_l; [exact H | reflexivity]. Qed.

Lemma pow2_lt_inv a b : (pow2 a < pow2 b)%Q -> (a < b)%Z.
Proof. intros H. apply (Qpower_lt_compat_l_inv 2); [exact H | reflexivity]. Qed.

Lemma pow2_Z n : (0 <= n)%Z -> (pow2 n == inject_Z (2 ^ n))%Q.
Proof. intros H. unfold pow2. now rewrite Zpower_Qpower. Qed.

Lemma pow2_S a : (pow2 (a + 1) == 2 * pow2 a)%Q.
Proof. rewrite pow2_add. change (pow2 1) with 2%Q. ring. Qed.

Lemma pow2_sub a b : (pow2 (a - b) * pow2 b == pow2 a)%Q.
Proof. rewrite <- pow2_add. now replace (a - b + b)%Z with a by lia. Qed.

(** ** The binary logarithm *)

Lemma log2_bounds (n : Z) :
  (0 < n)%Z -> (pow2 (Z.log2 n) <= inject_Z n < pow2 (Z.log2 n + 1))%Q.
Proof.
  intros Hn. destruct (Z.log2_spec n Hn) as [Hlo Hhi].
  assert (H0 := Z.log2_nonneg n).
  rewrite !pow2_Z by lia. split.
  - rewrite <- Zle_Qle. exact Hlo.
  - rewrite <- Zlt_Qlt. replace (Z.log2 n + 1)%Z with (Z.succ (Z.log2 n)) by lia.
    exact Hhi.
Qed.

Lemma ilog2_spec q :
  (0 < q)%Q -> (pow2 (ilog2 q) <= q < pow2 (ilog2 q + 1))%Q.
Proof.
  intros Hq. destruct q as [n d].
  assert (Hn : (0 < n)%Z) by (unfold Qlt in Hq; cbn in Hq; lia).
  destruct (log2_bounds n Hn) as [Hn1 Hn2].
  destruct (log2_bounds (Zpos d) ltac:(lia)) as [Hd1 Hd2].
  unfold ilog2. cbn [Qnum Qden].
  set (la := Z.log2 n) in *. set (ld := Z.log2 (Zpos d)) in *.
  assert (Hq' : (n # d == inject_Z n / inject_Z (Zpos d))%Q)
    by apply Qmake_Qdiv.
  assert (HD : (0 < inject_Z (Zpos d))%Q) by (rewrite <- (Zlt_Qlt 0); lia).
  assert (HA := pow2_pos la). assert (HB := pow2_pos ld).
  assert (Hl := pow2_sub la ld). assert (Hl1 := pow2_S la).
  assert (Hl2 := pow2_S ld). assert (Hl3 := pow2_S (la - ld)).
  assert (Hl4 := pow2_S (la - ld - 1)).
  replace (la - ld - 1 + 1)%Z with (la - ld)%Z in Hl4 by lia.
  assert (HP := pow2_pos (la - ld)). assert (HP' := pow2_pos (la - ld - 1)).
  set (N := inject_Z n) in *. set (D := inject_Z (Zpos d)) in *.
  set (A := pow2 la) in *. set (B := pow2 ld) in *.
  set (L := pow2 (la - ld)) in *. set (L' := pow2 (la - ld - 1)) in *.
  (* q * D == N *)
  assert (Hmul : (n # d) * D == N).
  { rewrite Hq'. field. intros E. rewrite E in HD. now apply Qlt_irrefl in HD. }
  set (x := n # d) in *.
  assert (Hup : x < pow2 (la - ld + 1)).
  { rewrite Hl3. apply Qnot_le_lt. intros Hc.
    assert (2 * L * D <= N) by (rewrite <- Hmul; nra). nra. }
  assert (Hlow : L' < x).
  { apply Qnot_le_lt. intros Hc.
    assert (N <= L' * D) by (rewrite <- Hmul; nra). nra. }
  destruct (Qle_bool L x) eqn:E.
  - apply Qle_bool_iff in E. split; [exact E | exact Hup].
  - split; [now apply Qlt_le_weak|].
    replace (la - ld - 1 + 1)%Z with (la - ld)%Z by lia.
    apply Qnot_le_lt. intros Hc. apply Qle_bool_iff in Hc.
    fold L in Hc. congruence.
Qed.

Lemma ilog2_unique q l :
  (pow2 l <= q < pow2 (l + 1))%Q -> ilog2 q = l.
Proof.
  intros [H1 H2].
  assert (Hq : 0 < q) by (eapply Qlt_le_trans; [apply pow2_pos | exact H1]).
  destruct (ilog2_spec q Hq) as [G1 G2].
  assert (l < ilog2 q + 1)%Z
    by (apply pow2_lt_inv; eapply Qle_lt_trans; eauto).
  assert (ilog2 q < l + 1)%Z
    by (apply pow2_lt_inv; eapply Qle_lt_trans; eauto).
  lia.
Qed.

Lemma ilog2_mono x y : (0 < x)%Q -> (x <= y)%Q -> (ilog2 x <= ilog2 y)%Z.
Proof.
  intros Hx Hxy.
  assert (Hy : 0 < y) by (eapply Qlt_le_trans; eauto).
  destruct (ilog2_spec x Hx) as [G1 _]. destruct (ilog2_spec y Hy) as [_ G2].
  assert (ilog2 x < ilog2 y + 1)%Z; [|lia].
  apply pow2_lt_inv. eapply Qle_lt_trans; [exact G1|].
  eapply Qle_lt_trans; eauto.
Qed.

Lemma ilog2_proper x y : (0 < x)%Q -> (x == y)%Q -> ilog2 x = ilog2 y.
Proof.
  intros Hx E. symmetry. apply ilog2_unique.
  destruct (ilog2_spec x Hx) as [G1 G2].
  split; [now rewrite <- E | now rewrite <- E].
Qed.

(** ** Rounding to an integer *)

Lemma round_half_even_cases q :
  let f := Qfloor q in
  (round_half_even q = f /\ (q - inject_Z f <= 1 # 2)%Q)
  \/ (round_half_even q = (f + 1)%Z /\ (1 # 2 <= q - inject_Z f)%Q).
Proof.
  intros f. unfold round_half_even. fold f.
  destruct (Qcompare (q - inject_Z f) (1 # 2)) eqn:E.
  - apply Qeq_alt in E. destruct (Z.even f).
    + left. split; [reflexivity|]. rewrite E. apply Qle_refl.
    + right. split; [reflexivity|]. rewrite E. apply Qle_refl.
  - apply Qlt_alt in E. left. split; [reflexivity | now apply Qlt_le_weak].
  - apply Qgt_alt in E. right. split; [reflexivity | now apply Qlt_le_weak].
Qed.

(** The result is within one half of the argument. *)
Lemma round_half_even_near q :
  (q - (1 # 2) <= inject_Z (round_half_even q) <= q + (1 # 2))%Q.
Proof.
  assert (H1 := Qfloor_le q). assert (H2 := Qlt_floor q).
  rewrite inject_Z_plus in H2. change (inject_Z 1) with 1%Q in H2.
  destruct (round_half_even_cases q) as [[-> H] | [-> H]].
  - split; lra.
  - rewrite inject_Z_plus. change (inject_Z 1) with 1%Q. split; lra.
Qed.

Lemma round_half_even_Z z : round_half_even (inject_Z z) = z.
Proof.
  unfold round_half_even. rewrite Qfloor_Z.
  replace (Qcompare (inject_Z z - inject_Z z) (1 # 2)) with Lt; [reflexivity|].
  symmetry. rewrite <- Qlt_alt. lra.
Qed.

Lemma round_half_even_proper x y :
  (x == y)%Q -> round_half_even x = round_half_even y.
Proof.
  intros E. unfold round_half_even.
  assert (Hf : Qfloor x = Qfloor y) by now rewrite E.
  rewrite Hf.
  assert (Hc : Qcompare (x - inject_Z (Qfloor y)) (1 # 2)
               = Qcompare (y - inject_Z (Qfloor y)) (1 # 2)) by now rewrite E.
  now rewrite Hc.
Qed.

Lemma round_half_even_mono x y :
  (x <= y)%Q -> (round_half_even x <= round_half_even y)%Z.
Proof.
  intros Hxy.
  assert (Hf := Qfloor_resp_le x y Hxy).
  assert (Hx1 := Qfloor_le x). assert (Hx2 := Qlt_floor x).
  assert (Hy1 := Qfloor_le y). assert (Hy2 := Qlt_floor y).
  rewrite inject_Z_plus in Hx2, Hy2.
  change (inject_Z 1) with 1%Q in Hx2, Hy2.
  destruct (Z.eq_dec (Qfloor x) (Qfloor y)) as [E | Hne].
  - unfold round_half_even. rewrite <- E. rewrite <- E in Hy1, Hy2.
    set (f := Qfloor x) in *.
    destruct (Qcompare_spec (x - inject_Z f) (1 # 2)) as [Cx | Cx | Cx];
      destruct (Qcompare_spec (y - inject_Z f) (1 # 2)) as [Cy | Cy | Cy];
      destruct (Z.even f); try lia; exfalso; lra.
  - destruct (round_half_even_cases x) as [[-> _] | [-> _]];
      destruct (round_half_even_cases y) as [[-> _] | [-> _]]; lia.
Qed.

(** An integer bound on the argument bounds the result. *)
Lemma round_half_even_le q k :
  (q <= inject_Z k)%Q -> (round_half_even q <= k)%Z.
Proof.
  intros H. rewrite <- (round_half_even_Z k). now apply round_half_even_mono.
Qed.

Lemma round_half_even_ge q k :
  (inject_Z k <= q)%Q -> (k <= round_half_even q)%Z.
Proof.
  intros H. rewrite <- (round_half_even_Z k). now apply round_half_even_mono.
Qed.

(** ** Rounding to a double *)

Lemma Qabs_pos_eq q : (0 < q)%Q -> Qabs q = q.
Proof.
  destruct q as [n d]. unfold Qlt. cbn. intros H.
  f_equal. lia.
Qed.

Lemma quantum_pos q :
  (0 < q)%Q -> quantum q = Z.max (ilog2 q - 52) (-1074).
Proof. intros H. unfold quantum. now rewrite Qabs_pos_eq. Qed.

Lemma round64_zero q : (q == 0)%Q -> round64 q = 0%Q.
Proof.
  intros H. unfold round64. apply Qeq_bool_iff in H. now rewrite H.
Qed.

Lemma round64_eq q :
  ~ (q == 0)%Q ->
  (round64 q
   == inject_Z (round_half_even (q / pow2 (quantum q))) * pow2 (quantum q))%Q.
Proof.
  intros H. unfold round64.
  destruct (Qeq_bool q 0) eqn:E.
  - apply Qeq_bool_iff in E. contradiction.
  - apply Qred_correct.
Qed.

(** The argument on the scale of its last bit. *)
Lemma scaled_lt q : (0 < q)%Q -> (q < pow2 (quantum q + 53))%Q.
Proof.
  intros Hq. destruct (ilog2_spec q Hq) as [_ H].
  eapply Qlt_le_trans; [exact H|]. apply pow2_le.
  rewrite (quantum_pos q Hq). lia.
Qed.

Lemma scaled_ge q :
  (0 < q)%Q -> (-1074 < quantum q)%Z -> (pow2 (quantum q + 52) <= q)%Q.
Proof.
  intros Hq Hn. destruct (ilog2_spec q Hq) as [H _].
  rewrite (quantum_pos q Hq) in *.
  replace (Z.max (ilog2 q - 52) (-1074) + 52)%Z with (ilog2 q) by lia.
  exact H.
Qed.

Lemma Qdiv_pow2 q e : (q / pow2 e * pow2 e == q)%Q.
Proof.
  field. intros E. assert (H := pow2_pos e). rewrite E in H.
  now apply Qlt_irrefl in H.
Qed.

Lemma Qdiv_pow2_le a b e : (a <= b)%Q -> (a / pow2 e <= b / pow2 e)%Q.
Proof.
  intros H. unfold Qdiv. apply Qmult_le_compat_r; [exact H|].
  apply Qlt_le_weak, Qinv_lt_0_compat, pow2_pos.
Qed.

Lemma Qdiv_pow2_add a e k : (a / pow2 e == a / pow2 (e + k) * pow2 k)%Q.
Proof.
  rewrite pow2_add. field.
  assert (H1 := pow2_pos e). assert (H2 := pow2_pos k).
  split; intros E; [rewrite E in H2 | rewrite E in H1];
    now apply Qlt_irrefl in H1 || now apply Qlt_irrefl in H2.
Qed.

Lemma round64_nonneg q : (0 <= q)%Q -> (0 <= round64 q)%Q.
Proof.
  intros H. destruct (Qeq_dec q 0) as [E | N].
  - rewrite (round64_zero q E). apply Qle_refl.
  - rewrite (round64_eq q N).
    apply Qmult_le_0_compat; [|apply Qlt_le_weak, pow2_pos].
    change 0%Q with (inject_Z 0). rewrite <- Zle_Qle.
    apply round_half_even_ge. change (inject_Z 0) with 0%Q.
    apply Qle_shift_div_l; [apply pow2_pos|]. now rewrite Qmult_0_l.
Qed.

Lemma round64_upper q :
  (0 < q)%Q -> (round64 q <= pow2 (quantum q + 53))%Q.
Proof.
  intros Hq. assert (N : ~ q == 0) by (intros E; rewrite E in Hq; discriminate).
  rewrite (round64_eq q N), pow2_add, (Qmult_comm (pow2 (quantum q))).
  apply Qmult_le_compat_r; [|apply Qlt_le_weak, pow2_pos].
  rewrite (pow2_Z 53) by lia. rewrite <- Zle_Qle.
  apply round_half_even_le. rewrite <- (pow2_Z 53) by lia.
  apply Qle_shift_div_r; [apply pow2_pos|].
  rewrite <- pow2_add, Z.add_comm. apply Qlt_le_weak. now apply scaled_lt.
Qed.

Lemma round64_lower q :
  (0 < q)%Q -> (-1074 < quantum q)%Z ->
  (pow2 (quantum q + 52) <= round64 q)%Q.
Proof.
  intros Hq Hn.
  assert (N : ~ q == 0) by (intros E; rewrite E in Hq; discriminate).
  rewrite (round64_eq q N), pow2_add, (Qmult_comm (pow2 (quantum q))).
  apply Qmult_le_compat_r; [|apply Qlt_le_weak, pow2_pos].
  rewrite (pow2_Z 52) by lia. rewrite <- Zle_Qle.
  apply round_half_even_ge. rewrite <- (pow2_Z 52) by lia.
  apply Qle_shift_div_l; [apply pow2_pos|].
  rewrite <- pow2_add, Z.add_comm. now apply scaled_ge.
Qed.

Lemma quantum_mono x y :
  (0 < x)%Q -> (x <= y)%Q -> (quantum x <= quantum y)%Z.
Proof.
  intros Hx Hxy.
  assert (Hy : 0 < y) by (eapply Qlt_le_trans; eauto).
  rewrite (quantum_pos x Hx), (quantum_pos y Hy).
  assert (H := ilog2_mono x y Hx Hxy). lia.
Qed.

(** Rounding keeps the order. *)
Lemma round64_mono x y :
  (0 <= x)%Q -> (x <= y)%Q -> (round64 x <= round64 y)%Q.
Proof.
  intros Hx Hxy.
  assert (Hy : 0 <= y) by (eapply Qle_trans; eauto).
  destruct (Qeq_dec x 0) as [Ex | Nx].
  { rewrite (round64_zero x Ex). now apply round64_nonneg. }
  assert (Px : 0 < x).
  { apply Qnot_le_lt. intros Hc. apply Nx. now apply Qle_antisym. }
  assert (Py : 0 < y) by (eapply Qlt_le_trans; eauto).
  assert (Ny : ~ y == 0) by (intros E; rewrite E in Py; discriminate).
  assert (Hq := quantum_mono x y Px Hxy).
  destruct (Z.eq_dec (quantum x) (quantum y)) as [E | Hne].
  - rewrite (round64_eq x Nx), (round64_eq y Ny), E.
    apply Qmult_le_compat_r; [|apply Qlt_le_weak, pow2_pos].
    rewrite <- Zle_Qle. apply round_half_even_mono. now apply Qdiv_pow2_le.
  - assert (Hmin : (-1074 <= quantum x)%Z) by (unfold quantum; lia).
    eapply Qle_trans; [apply (round64_upper x Px)|].
    eapply Qle_trans; [|apply (round64_lower y Py); lia].
    apply pow2_le. lia.
Qed.

Lemma round_half_even_exact q z :
  (q == inject_Z z)%Q -> round_half_even q = z.
Proof.
  intros E. rewrite (round_half_even_proper q (inject_Z z) E).
  apply round_half_even_Z.
Qed.

(** A number with a significand of at most 53 bits is a double. *)
Lemma round64_exact m e :
  (0 < m <= 2 ^ 53)%Z -> (-1074 <= e)%Z ->
  (round64 (inject_Z m * pow2 e) == inject_Z m * pow2 e)%Q.
Proof.
  intros Hm He.
  set (q := inject_Z m * pow2 e).
  assert (Hpe := pow2_pos e).
  assert (Hmq : 0 < inject_Z m) by (rewrite <- (Zlt_Qlt 0); lia).
  assert (Pq : 0 < q) by (unfold q; nra).
  assert (Nq : ~ q == 0) by (intros E; rewrite E in Pq; discriminate).
  rewrite (round64_eq q Nq).
  destruct (ilog2_spec q Pq) as [L1 L2].
  assert (Hk := quantum_pos q Pq).
  destruct (Z.eq_dec m (2 ^ 53)) as [E | Hne].
  - assert (Hq : q == pow2 (e + 53)).
    { unfold q. rewrite E, pow2_add, (pow2_Z 53) by lia. ring. }
    assert (Hl : ilog2 q = (e + 53)%Z).
    { apply ilog2_unique. rewrite Hq. split; [apply Qle_refl|].
      apply pow2_lt. lia. }
    assert (Hk' : quantum q = (e + 1)%Z) by lia.
    rewrite Hk'.
    assert (Hs : q / pow2 (e + 1) == inject_Z (2 ^ 52)).
    { rewrite Hq. replace (e + 53)%Z with ((e + 1) + 52)%Z by lia.
      rewrite pow2_add, (pow2_Z 52) by lia. field.
      intros C. assert (H := pow2_pos (e + 1)). rewrite C in H.
      now apply Qlt_irrefl in H. }
    rewrite (round_half_even_exact _ _ Hs).
    rewrite Hq. replace (e + 53)%Z with (52 + (e + 1))%Z by lia.
    rewrite (pow2_add 52), (pow2_Z 52) by lia. reflexivity.
  - assert (Hlt : q < pow2 (e + 53)).
    { unfold q. rewrite pow2_add, (pow2_Z 53) by lia.
      assert (inject_Z m < inject_Z (2 ^ 53)) by (rewrite <- Zlt_Qlt; lia).
      nra. }
    assert (Hl : (ilog2 q < e + 53)%Z).
    { apply pow2_lt_inv. eapply Qle_lt_trans; eauto. }
    set (k := quantum q) in *.
    assert (Hd : (0 <= e - k)%Z) by lia.
    assert (Hsub := pow2_sub e k). assert (Hpk := pow2_pos k).
    assert (Hs : q / pow2 k == inject_Z (m * 2 ^ (e - k))).
    { rewrite inject_Z_mult, <- (pow2_Z (e - k)) by lia.
      unfold q. rewrite <- Hsub. field.
      intros C. rewrite C in Hpk. now apply Qlt_irrefl in Hpk. }
    rewrite (round_half_even_exact _ _ Hs).
    rewrite inject_Z_mult, <- (pow2_Z (e - k)) by lia.
    unfold q. rewrite <- Hsub. ring.
Qed.

Lemma quantum_proper x y :
  ~ (x == 0)%Q -> (x == y)%Q -> quantum x = quantum y.
Proof.
  intros N E. unfold quantum. f_equal. f_equal.
  apply ilog2_proper; [|now rewrite E].
  destruct (Qlt_le_dec 0 (Qabs x)) as [H | H]; [exact H|].
  exfalso. apply N. assert (H0 := Qabs_nonneg x).
  assert (Ha : Qabs x == 0) by now apply Qle_antisym.
  destruct (Qabs_Qle_condition x 0) as [Hc _].
  destruct Hc as [H1 H2]; [now rewrite Ha|].
  apply Qle_antisym; [exact H2 | exact H1].
Qed.

(** Equal numbers round to the same double. *)
Lemma round64_proper x y : (x == y)%Q -> round64 x = round64 y.
Proof.
  intros E. destruct (Qeq_dec x 0) as [Z | N].
  - rewrite (round64_zero x Z). symmetry. apply round64_zero. now rewrite <- E.
  - assert (Ny : ~ y == 0) by now rewrite <- E.
    unfold round64.
    destruct (Qeq_bool x 0) eqn:Bx; [apply Qeq_bool_iff in Bx; contradiction|].
    destruct (Qeq_bool y 0) eqn:By; [apply Qeq_bool_iff in By; contradiction|].
    apply Qred_complete.
    rewrite <- (quantum_proper x y N E).
    rewrite (round_half_even_proper (y / pow2 (quantum x))
                                    (x / pow2 (quantum x))); [reflexivity|].
    unfold Qdiv. apply Qmult_comp; [symmetry; exact E | reflexivity].
Qed.

(** Integers of at most 53 bits are doubles. *)
Lemma round64_Z z :
  (0 <= z <= 2 ^ 53)%Z -> (round64 (inject_Z z) == inject_Z z)%Q.
Proof.
  intros Hz. destruct (Z.eq_dec z 0) as [-> | Hne]; [reflexivity|].
  assert (H := round64_exact z 0 ltac:(lia) ltac:(lia)).
  change (pow2 0) with 1%Q in H.
  rewrite (round64_proper (inject_Z z * 1) (inject_Z z)) in H by ring.
  rewrite H. ring.
Qed.

Lemma quantum_normal q : (1 <= q)%Q -> (-52 <= quantum q)%Z.
Proof.
  intros H. assert (Hq : 0 < q) by lra.
  rewrite (quantum_pos q Hq).
  assert (H1 : ilog2 1 = 0%Z) by reflexivity.
  assert (H2 := ilog2_mono 1 q ltac:(lra) H). lia.
Qed.

(** The relative error of rounding in the normal range. *)
Lemma round64_error q :
  (0 < q)%Q -> (-1074 < quantum q)%Z ->
  (q * (1 - pow2 (-53)) <= round64 q <= q * (1 + pow2 (-53)))%Q.
Proof.
  intros Hq Hn.
  assert (N : ~ q == 0) by (intros E; rewrite E in Hq; discriminate).
  rewrite (round64_eq q N).
  set (k := quantum q) in *.
  assert (Hs := Qdiv_pow2 q k). assert (Hp := pow2_pos k).
  assert (Hm := round_half_even_near (q / pow2 k)).
  assert (Hg := scaled_ge q Hq Hn). fold k in Hg.
  assert (Hk : pow2 (k + 52) == pow2 k * pow2 53 * (1 # 2)).
  { replace (k + 52)%Z with (k + 53 + -1)%Z by lia.
    rewrite !pow2_add. change (pow2 (-1)) with (1 # 2). ring. }
  assert (H53 : pow2 53 * pow2 (-53) == 1) by reflexivity.
  assert (Hp53 := pow2_pos 53). assert (Hn53 := pow2_pos (-53)).
  set (s := q / pow2 k) in *. set (m := inject_Z (round_half_even s)) in *.
  set (P := pow2 k) in *. set (A := pow2 53) in *. set (B := pow2 (-53)) in *.
  rewrite Hk in Hg.
  assert (Hh : P * (1 # 2) <= q * B).
  { assert (E1 : P * (1 # 2) == P * (1 # 2) * (A * B)) by (rewrite H53; ring).
    assert (E2 : P * A * (1 # 2) * B <= q * B)
      by (apply Qmult_le_compat_r; [exact Hg | now apply Qlt_le_weak]).
    rewrite E1. eapply Qle_trans; [|exact E2].
    apply Qle_lteq. right. ring. }
  destruct Hm as [Hm1 Hm2].
  assert (G1 : (s - (1 # 2)) * P <= m * P)
    by (apply Qmult_le_compat_r; [exact Hm1 | now apply Qlt_le_weak]).
  assert (G2 : m * P <= (s + (1 # 2)) * P)
    by (apply Qmult_le_compat_r; [exact Hm2 | now apply Qlt_le_weak]).
  clearbody s m P A B. split; lra.
Qed.

(** ** [round64] against the IEEE 754 specification of the Standard Library

    The sum, the products and the quotient of the examples below, computed
    by [SFadd], [SFmul] and [SFdiv] at precision 53 and maximal exponent
    1024, are the exact results rounded by [round64]. *)

Example round64_literals :
  Qred (SF2Q sf_0_16) = round64 (16 # 100)
  /\ Qred (SF2Q sf_0_3) = round64 (3 # 10)
  /\ Qred (SF2Q sf_1) = 1%Q
  /\ Qred (SF2Q sf_10) = 10%Q
  /\ Qred (SF2Q sf_25) = 25%Q.
Proof. repeat split; vm_compute; reflexivity. Qed.

Example round64_is_SFadd :
  Qred (SF2Q (SFadd 53 1024 sf_0_16 sf_1)) = round64 (SF2Q sf_0_16 + 1).
Proof. vm_compute. reflexivity. Qed.

Example round64_is_SFmul :
  Qred (SF2Q (SFmul 53 1024 (SFadd 53 1024 sf_0_16 sf_1) sf_25))
  = round64 (round64 (SF2Q sf_0_16 + 1) * 25)
  /\ Qred (SF2Q (SFmul 53 1024 sf_0_3 sf_10)) = round64 (SF2Q sf_0_3 * 10).
Proof. split; vm_compute; reflexivity. Qed.

Example round64_is_SFdiv :
  Qred (SF2Q (SFdiv 53 1024 sf_1 sf_25)) = round64 (1 / 25)
  /\ Qred (SF2Q (SFdiv 53 1024 sf_1 sf_10)) = round64 (1 / 10).
Proof. split; vm_compute; reflexivity. Qed.

(** ** The timeline scan *)

Section Scan.

Variable data : list dict.
Variable t : Q.

Lemma scan_index_ge fuel idx cur :
  (idx <= fst (scan fuel data t idx cur))%nat.
Proof.
  revert idx cur; induction fuel as [|fuel IH]; intros idx cur; simpl.
  - apply Nat.le_refl.
  - destruct ((idx <? List.length data - 1)%nat
              && Qle_bool (timestamp_of (row_at data (idx + 1))) t); simpl.
    + specialize (IH (idx + 1)%nat (row_at data (idx + 1))). lia.
    + apply Nat.le_refl.
Qed.

Lemma scan_index_lt fuel idx cur :
  (idx < List.length data)%nat ->
  (fst (scan fuel data t idx cur) < List.length data)%nat.
Proof.
  revert idx cur; induction fuel as [|fuel IH]; intros idx cur Hlt; simpl.
  - exact Hlt.
  - destruct (idx <? List.length data - 1)%nat eqn:Hg; simpl.
    + apply Nat.ltb_lt in Hg.
      destruct (Qle_bool (timestamp_of (row_at data (idx + 1))) t); simpl.
      * apply IH. lia.
      * exact Hlt.
    + exact Hlt.
Qed.

(** With enough fuel the scan stops because the guard of the [while] is
    false, never because the fuel ran out. *)
Lemma scan_exit fuel idx cur :
  (List.length data - 1 <= idx + fuel)%nat ->
  let i := fst (scan fuel data t idx cur) in
  ((i <? List.length data - 1)%nat
   && Qle_bool (timestamp_of (row_at data (i + 1))) t) = false.
Proof.
  revert idx cur; induction fuel as [|fuel IH]; intros idx cur Hf; simpl.
  - replace (idx <? List.length data - 1)%nat with false; [reflexivity|].
    symmetry; apply Nat.ltb_ge; lia.
  - destruct ((idx <? List.length data - 1)%nat
              && Qle_bool (timestamp_of (row_at data (idx + 1))) t) eqn:Hg.
    + apply IH. lia.
    + simpl. exact Hg.
Qed.

(** The scan either stays where it was or stops on an event that has
    started. *)
Lemma scan_moved fuel idx cur :
  let i := fst (scan fuel data t idx cur) in
  i = idx \/ (timestamp_of (row_at data i) <= t)%Q.
Proof.
  revert idx cur; induction fuel as [|fuel IH]; intros idx cur; simpl.
  - now left.
  - destruct ((idx <? List.length data - 1)%nat
              && Qle_bool (timestamp_of (row_at data (idx + 1))) t) eqn:Hg.
    + apply andb_true_iff in Hg as [_ Hq]. apply Qle_bool_iff in Hq.
      destruct (IH (idx + 1)%nat (row_at data (idx + 1))) as [E | L].
      * right. simpl in E. rewrite E. exact Hq.
      * right. exact L.
    + now left.
Qed.

(** [current_params] is [data[current_data_idx]] throughout. *)
Lemma scan_params fuel idx cur :
  cur = row_at data idx ->
  snd (scan fuel data t idx cur) = row_at data (fst (scan fuel data t idx cur)).
Proof.
  revert idx cur; induction fuel as [|fuel IH]; intros idx cur Hc; simpl.
  - exact Hc.
  - destruct ((idx <? List.length data - 1)%nat
              && Qle_bool (timestamp_of (row_at data (idx + 1))) t).
    + now apply IH.
    + exact Hc.
Qed.

End Scan.

Lemma advance_pair data t idx :
  advance data t idx (row_at data idx)
  = (advance_idx data idx t, row_at data (advance_idx data idx t)).
Proof.
  unfold advance_idx, advance.
  rewrite (surjective_pairing (scan _ data t idx (row_at data idx))) at 1.
  f_equal. now apply scan_params.
Qed.

Lemma advance_idx_ge data idx t : (idx <= advance_idx data idx t)%nat.
Proof. apply scan_index_ge. Qed.

Lemma advance_idx_lt data idx t :
  (idx < List.length data)%nat -> (advance_idx data idx t < List.length data)%nat.
Proof. apply scan_index_lt. Qed.

Lemma advance_idx_exit data idx t :
  let i := advance_idx data idx t in
  (i = List.length data - 1)%nat \/ (idx >= List.length data)%nat
  \/ (t < timestamp_of (row_at data (i + 1)))%Q.
Proof.
  intros i.
  assert (Hx := scan_exit data t (List.length data) idx (row_at data idx)).
  assert (Hge := advance_idx_ge data idx t).
  destruct (Nat.lt_ge_cases idx (List.length data)) as [Hlt | Hge'];
    [|right; left; exact Hge'].
  assert (Hlt' := advance_idx_lt data idx t Hlt).
  fold i in Hge, Hlt'.
  specialize (Hx ltac:(lia)). cbv zeta in Hx.
  change (fst (scan (List.length data) data t idx (row_at data idx))) with i in Hx.
  apply andb_false_iff in Hx as [Hx | Hx].
  - left. apply Nat.ltb_ge in Hx. lia.
  - right; right. apply Qnot_le_lt. intros Hle.
    apply Qle_bool_iff in Hle. congruence.
Qed.

(** What one query establishes, from a state in which the current event
    has started or is still the first one. *)
Lemma advance_idx_active data idx t0 t :
  timeline_sorted data ->
  (idx < List.length data)%nat ->
  (t0 <= t)%Q ->
  (idx = 0%nat \/ (timestamp_of (row_at data idx) <= t0)%Q) ->
  active_index data t (advance_idx data idx t).
Proof.
  intros Hs Hlt Ht Hinv.
  set (i := advance_idx data idx t).
  assert (Hi : (i < List.length data)%nat) by now apply advance_idx_lt.
  assert (Hafter : forall j, (i < j)%nat -> (j < List.length data)%nat ->
                             (t < timestamp_of (row_at data j))%Q).
  { intros j Hij Hj.
    destruct (advance_idx_exit data idx t) as [E | [E | E]]; fold i in E; try lia.
    eapply Qlt_le_trans; [exact E|]. apply Hs; lia. }
  split; [exact Hi|]. split; [exact Hafter|].
  destruct (scan_moved data t (List.length data) idx (row_at data idx)) as [E | L].
  - change (i = idx) in E.
    destruct Hinv as [Z | L].
    + destruct (Qlt_le_dec t (timestamp_of (row_at data 0))) as [Hb | Hb].
      * right. split; [lia|]. intros j Hj.
        eapply Qlt_le_trans; [exact Hb|]. apply Hs; lia.
      * left. rewrite E, Z. exact Hb.
    + left. rewrite E. eapply Qle_trans; eauto.
  - left. exact L.
Qed.

Lemma nondecreasing_tail q clock :
  nondecreasing (q :: clock) -> nondecreasing clock.
Proof.
  intros H i j Hij Hj. apply (H (S i) (S j)); simpl; lia.
Qed.

Lemma nondecreasing_head q clock x :
  nondecreasing (q :: clock) -> In x clock -> (q <= x)%Q.
Proof.
  intros H Hin. apply (In_nth _ _ 0%Q) in Hin as (n & Hn & <-).
  apply (H 0%nat (S n)); simpl; lia.
Qed.

Lemma last_nonempty_default (l : list Q) (a b : Q) :
  l <> [] -> last l a = last l b.
Proof.
  induction l as [|x r IH]; intros Hne; [congruence|].
  destruct r as [|y r']; [reflexivity|].
  change (last (y :: r') a = last (y :: r') b). apply IH. discriminate.
Qed.

(** The loop invariant of the scan over a whole sequence of clock times. *)
Lemma resolve_from_invariant data :
  timeline_sorted data ->
  forall clock idx t0,
    (idx < List.length data)%nat ->
    (idx = 0%nat \/ (timestamp_of (row_at data idx) <= t0)%Q) ->
    nondecreasing (t0 :: clock) ->
    let i := resolve_from data idx clock in
    (idx <= i)%nat /\ (i < List.length data)%nat
    /\ (i = 0%nat \/ (timestamp_of (row_at data i) <= last clock t0)%Q).
Proof.
  intros Hs clock; induction clock as [|q clock IH]; intros idx t0 Hlt Hinv Hnd.
  - simpl. repeat split; auto.
  - unfold resolve_from; simpl fold_left.
    fold (resolve_from data (advance_idx data idx q) clock).
    assert (Hq : (t0 <= q)%Q) by (apply (nondecreasing_head t0 (q :: clock)); simpl; auto).
    assert (Ha := advance_idx_active data idx t0 q Hs Hlt Hq Hinv).
    destruct Ha as (Hi & _ & Hd).
    assert (Hinv' : advance_idx data idx q = 0%nat
                    \/ (timestamp_of (row_at data (advance_idx data idx q)) <= q)%Q).
    { destruct Hd as [L | [Z _]]; auto. }
    destruct (IH (advance_idx data idx q) q Hi Hinv' (nondecreasing_tail _ _ Hnd))
      as (H1 & H2 & H3).
    assert (Hge := advance_idx_ge data idx q).
    split; [lia|]. split; [exact H2|].
    destruct clock as [|q' clock']; [exact H3|].
    change (last (q :: q' :: clock') t0) with (last (q' :: clock') t0).
    rewrite (last_nonempty_default (q' :: clock') t0 q) by discriminate.
    exact H3.
Qed.

Lemma resolve_from_snoc data idx clock t :
  resolve_from data idx (clock ++ [t])
  = advance_idx data (resolve_from data idx clock) t.
Proof. unfold resolve_from. now rewrite fold_left_app. Qed.

Lemma nondecreasing_snoc_last clock t t0 :
  nondecreasing (t0 :: clock ++ [t]) -> (last clock t0 <= t)%Q.
Proof.
  intros H.
  assert (Hl : last clock t0 = nth (List.length clock) (t0 :: clock ++ [t]) 0%Q).
  { clear H. revert t0; induction clock as [|c clock IH]; intros t0; [reflexivity|].
    destruct clock as [|c' clock']; [reflexivity|].
    change (last (c :: c' :: clock') t0) with (last (c' :: clock') t0).
    rewrite (last_nonempty_default (c' :: clock') t0 c) by discriminate.
    rewrite (IH c). reflexivity. }
  assert (Ht : nth (S (List.length clock)) (t0 :: clock ++ [t]) 0%Q = t).
  { simpl. rewrite app_nth2, Nat.sub_diag; [reflexivity | lia]. }
  assert (Hle := H (List.length clock) (S (List.length clock))).
  rewrite Ht, <- Hl in Hle. apply Hle; [lia|].
  simpl. rewrite length_app. simpl. lia.
Qed.

Lemma nondecreasing_snoc_init clock t t0 :
  nondecreasing (t0 :: clock ++ [t]) -> nondecreasing (t0 :: clock).
Proof.
  intros H i j Hij Hj.
  assert (Hn : forall k, (k < List.length (t0 :: clock))%nat ->
               nth k (t0 :: clock) 0%Q = nth k (t0 :: clock ++ [t]) 0%Q).
  { intros k Hk. change (t0 :: clock ++ [t]) with ((t0 :: clock) ++ [t]).
    now rewrite app_nth1. }
  rewrite (Hn i), (Hn j) by lia.
  apply H; [exact Hij|]. simpl in *. rewrite length_app. simpl. lia.
Qed.

(** ** The embedding on values Python gives *)

(** ["aaa".replace("aa", "b") == "ba"]: occurrences do not overlap. *)
Example replace_no_overlap : replace "aa" "b" "aaa" = "ba"%string.
Proof. reflexivity. Qed.

(** ["a-b-c".replace("-", "--") == "a--b--c"]: the text put in is not
    scanned again. *)
Example replace_no_rescan : replace "-" "--" "a-b-c" = "a--b--c"%string.
Proof. reflexivity. Qed.

(** ["abc".replace("", "-") == "-a-b-c-"] *)
Example replace_empty_pattern : replace "" "-" "abc" = "-a-b-c-"%string.
Proof. reflexivity. Qed.

(** [f'{0:06d}' == '000000'], [f'{42:06d}' == '000042'],
    [str(30) == '30'], [str(-5) == '-5']. *)
Example format_numbers :
  format_06d 0 = "000000"%string
  /\ format_06d 42 = "000042"%string
  /\ py_str_int 30 = "30"%string
  /\ py_str_int (-5) = "-5"%string.
Proof. repeat split; reflexivity. Qed.

(** [int(2.7) == 2], [int(-2.7) == -2], [int(-0.5) == 0]. *)
Example py_int_truncates :
  py_int (27 # 10) = 2%Z /\ py_int (- (27 # 10)) = (-2)%Z
  /\ py_int (- (1 # 2)) = 0%Z.
Proof. repeat split; reflexivity. Qed.

(** [{'a': '1', 'b': '2'} == {'b': '2', 'a': '1'}], and a dict never equals
    one with a further key. *)
Example dict_eqb_unordered :
  dict_eqb [("a", VStr "1"); ("b", VStr "2")] [("b", VStr "2"); ("a", VStr "1")]
  = true
  /\ dict_eqb [("a", VStr "1")] [("a", VStr "1"); ("b", VStr "2")] = false.
Proof. split; reflexivity. Qed.

(** The sort is stable: rows of equal timestamp keep their order. *)
Example read_csv_data_stable :
  read_csv_data
    [ [("timestamp", float_of 2 "2.0"); ("x", VStr "first")];
      [("timestamp", float_of 0 "0.0"); ("x", VStr "early")];
      [("timestamp", float_of 2 "2.0"); ("x", VStr "second")] ]
  = [ [("timestamp", float_of 0 "0.0"); ("x", VStr "early")];
      [("timestamp", float_of 2 "2.0"); ("x", VStr "first")];
      [("timestamp", float_of 2 "2.0"); ("x", VStr "second")] ].
Proof. reflexivity. Qed.

Lemma nondecreasing_dup_head clock d :
  nondecreasing clock -> nondecreasing (hd d clock :: clock).
Proof.
  intros H i j Hij Hj.
  destruct clock as [|c clock].
  - simpl in Hj. assert (j = 0%nat) by lia. assert (i = 0%nat) by lia.
    subst. apply Qle_refl.
  - destruct i as [|i], j as [|j]; try lia.
    + apply Qle_refl.
    + change (nth 0 (c :: clock) 0%Q <= nth j (c :: clock) 0%Q)%Q.
      apply H; simpl in *; lia.
    + change (nth i (c :: clock) 0%Q <= nth j (c :: clock) 0%Q)%Q.
      apply H; simpl in *; lia.
Qed.

(** After any non-decreasing sequence of queries from the initial state,
    the scan stands on the first event or on one that had started by the
    last query. *)
Lemma resolve_from_start data clock t :
  data <> [] ->
  timeline_sorted data ->
  nondecreasing (clock ++ [t]) ->
  let i := resolve_from data 0 clock in
  (i < List.length data)%nat
  /\ exists t0, (t0 <= t)%Q
       /\ (i = 0%nat \/ (timestamp_of (row_at data i) <= t0)%Q).
Proof.
  intros Hne Hs Hnd i.
  assert (Hlen : (0 < List.length data)%nat)
    by (destruct data; [congruence | simpl; lia]).
  apply (nondecreasing_dup_head _ t) in Hnd.
  assert (Hhd : hd t (clock ++ [t]) = hd t clock).
  { destruct clock; reflexivity. }
  rewrite Hhd in Hnd.
  destruct (resolve_from_invariant data Hs clock 0%nat (hd t clock) Hlen
              (or_introl eq_refl) (nondecreasing_snoc_init _ _ _ Hnd))
    as (_ & H2 & H3).
  split; [exact H2|].
  exists (last clock (hd t clock)). split; [|exact H3].
  now apply nondecreasing_snoc_last.
Qed.

Lemma active_index_before_start data t i :
  timeline_sorted data ->
  (t < timestamp_of (row_at data 0))%Q ->
  active_index data t i -> i = 0%nat.
Proof.
  intros Hs Hb (Hi & _ & [L | [Z _]]); [|exact Z].
  exfalso. apply (Qlt_not_le _ _ Hb).
  eapply Qle_trans; [|exact L]. apply Hs; lia.
Qed.

(** C4. Held-before-start: on a non-empty timeline sorted by timestamp, a
    clock time [t] below the first event's timestamp, queried as the frame
    loop does after any non-decreasing sequence of earlier clock times,
    leaves the scan on index 0 and the current parameters on the first
    event. *)
Theorem held_before_start (data : list dict) (clock : list Q) (t : Q) :
  data <> [] ->
  timeline_sorted data ->
  nondecreasing (clock ++ [t]) ->
  (t < timestamp_of (row_at data 0))%Q ->
  let idx := resolve_from data 0 clock in
  advance data t idx (row_at data idx) = (0%nat, row_at data 0).
Proof.
  intros Hne Hs Hnd Hb idx.
  destruct (resolve_from_start data clock t Hne Hs Hnd) as (Hi & t0 & Ht0 & Hinv).
  fold idx in Hi, Hinv.
  assert (Ha := advance_idx_active data idx t0 t Hs Hi Ht0 Hinv).
  apply (active_index_before_start data t _ Hs Hb) in Ha.
  rewrite advance_pair, Ha. reflexivity.
Qed.

Lemma table_late_sorted : timeline_sorted table_late.
Proof.
  intros i j Hij Hj. simpl in Hj.
  destruct j as [|[|j]]; [| |lia];
    destruct i as [|[|i]]; try lia; vm_compute; discriminate.
Qed.

Lemma held_before_start_witness :
  advance table_late 1 (resolve_from table_late 0 [0; (1 # 2)])
          (row_at table_late (resolve_from table_late 0 [0; (1 # 2)]))
  = (0%nat, row_at table_late 0).
Proof.
  apply (held_before_start table_late [0; (1 # 2)] 1).
  - discriminate.
  - exact table_late_sorted.
  - intros i j Hij Hj. simpl in Hj.
    destruct j as [|[|[|j]]]; [| | |lia];
      destruct i as [|[|[|i]]]; try lia; vm_compute; discriminate.
  - vm_compute. reflexivity.
Defined.

(** C5. Monotonic resolution: on a non-empty sorted timeline, for clock
    times queried in non-decreasing order from the initial state and any
    [t1 < t2] queried one after the other, the index resolved for [t2] is
    at least the index resolved for [t1], the scan returns the event at the
    index it stops on, and that index is in both cases the last event whose
    timestamp is at most the clock time, or the first event when none is. *)
Theorem monotonic_resolution (data : list dict) (clock : list Q) (t1 t2 : Q) :
  data <> [] ->
  timeline_sorted data ->
  nondecreasing (clock ++ [t1]) ->
  (t1 < t2)%Q ->
  let i1 := resolve_from data 0 (clock ++ [t1]) in
  let i2 := advance_idx data i1 t2 in
  (i1 <= i2)%nat
  /\ advance data t2 i1 (row_at data i1) = (i2, row_at data i2)
  /\ active_index data t1 i1
  /\ active_index data t2 i2.
Proof.
  intros Hne Hs Hnd Hlt i1 i2.
  destruct (resolve_from_start data clock t1 Hne Hs Hnd) as (Hi & t0 & Ht0 & Hinv).
  assert (Ha1 : active_index data t1 i1).
  { unfold i1. rewrite resolve_from_snoc.
    exact (advance_idx_active data _ t0 t1 Hs Hi Ht0 Hinv). }
  assert (Hinv1 : i1 = 0%nat \/ (timestamp_of (row_at data i1) <= t1)%Q).
  { destruct Ha1 as (_ & _ & [L | [Z _]]); auto. }
  split; [apply advance_idx_ge|].
  split; [apply advance_pair|].
  split; [exact Ha1|].
  apply (advance_idx_active data i1 t1 t2 Hs); [apply Ha1 | now apply Qlt_le_weak | exact Hinv1].
Qed.

Lemma monotonic_resolution_witness :
  (resolve_from table_late 0 ([0%Q] ++ [2%Q]) <=
   advance_idx table_late (resolve_from table_late 0 ([0%Q] ++ [2%Q])) (7 # 2))%nat
  /\ advance table_late (7 # 2) (resolve_from table_late 0 ([0%Q] ++ [2%Q]))
       (row_at table_late (resolve_from table_late 0 ([0%Q] ++ [2%Q])))
     = (advance_idx table_late (resolve_from table_late 0 ([0%Q] ++ [2%Q])) (7 # 2),
        row_at table_late
          (advance_idx table_late (resolve_from table_late 0 ([0%Q] ++ [2%Q])) (7 # 2)))
  /\ active_index table_late 2 (resolve_from table_late 0 ([0%Q] ++ [2%Q]))
  /\ active_index table_late (7 # 2)
       (advance_idx table_late (resolve_from table_late 0 ([0%Q] ++ [2%Q])) (7 # 2)).
Proof.
  apply (monotonic_resolution table_late [0%Q] 2 (7 # 2)).
  - discriminate.
  - exact table_late_sorted.
  - intros i j Hij Hj. simpl in Hj.
    destruct j as [|[|j]]; [| |lia];
      destruct i as [|[|i]]; try lia; vm_compute; discriminate.
  - vm_compute. reflexivity.
Defined.

(** The indices the witness runs through: 0 at clock 2, 1 at clock 3.5. *)
Example monotonic_resolution_run :
  resolve_from table_late 0 [0%Q; 2%Q] = 0%nat
  /\ advance_idx table_late 0 (7 # 2) = 1%nat.
Proof. split; reflexivity. Qed.

(** ** Sorting and the frame count *)

Lemma insert_row_In x y l : In x (insert_row y l) <-> x = y \/ In x l.
Proof.
  induction l as [|z l IH]; simpl.
  - intuition.
  - destruct (Qle_bool (timestamp_of y) (timestamp_of z)); simpl.
    + intuition.
    + rewrite IH. intuition.
Qed.

Lemma read_csv_data_In x rows : In x (read_csv_data rows) <-> In x rows.
Proof.
  induction rows as [|r rows IH]; simpl; [tauto|].
  rewrite insert_row_In, IH. intuition.
Qed.

Lemma insert_row_sorted x l :
  StronglySorted by_timestamp l -> StronglySorted by_timestamp (insert_row x l).
Proof.
  induction 1 as [|y l Hs IH Hall]; simpl.
  - constructor; constructor.
  - destruct (Qle_bool (timestamp_of x) (timestamp_of y)) eqn:E.
    + apply Qle_bool_iff in E.
      constructor; [constructor; assumption|].
      constructor; [exact E|].
      eapply Forall_impl; [|exact Hall].
      intros a Ha. unfold by_timestamp in *. eapply Qle_trans; eauto.
    + constructor; [exact IH|].
      apply Forall_forall. intros a Ha. apply insert_row_In in Ha as [-> | Ha].
      * unfold by_timestamp. apply Qlt_le_weak, Qnot_le_lt.
        intros Hle. apply Qle_bool_iff in Hle. congruence.
      * rewrite Forall_forall in Hall. now apply Hall.
Qed.

Lemma read_csv_data_strongly_sorted rows :
  StronglySorted by_timestamp (read_csv_data rows).
Proof.
  induction rows as [|r rows IH]; simpl; [constructor|].
  now apply insert_row_sorted.
Qed.

Lemma strongly_sorted_timeline data :
  StronglySorted by_timestamp data -> timeline_sorted data.
Proof.
  induction 1 as [|x l Hs IH Hall]; intros i j Hij Hj; simpl in Hj; [lia|].
  destruct i as [|i], j as [|j]; try lia.
  - apply Qle_refl.
  - rewrite Forall_forall in Hall. apply (Hall (row_at l j)).
    apply nth_In. lia.
  - apply (IH i j); lia.
Qed.

(** [read_csv_data] returns a timeline sorted by timestamp. *)
Lemma read_csv_data_sorted rows : timeline_sorted (read_csv_data rows).
Proof. apply strongly_sorted_timeline, read_csv_data_strongly_sorted. Qed.

Lemma read_csv_data_nonempty rows : rows <> [] -> read_csv_data rows <> [].
Proof.
  destruct rows as [|r rows]; [congruence|]. intros _ E.
  assert (H : In r (read_csv_data (r :: rows))) by (apply read_csv_data_In; now left).
  rewrite E in H. exact H.
Qed.

Lemma last_is_nth (data : list dict) :
  data <> [] -> last data [] = row_at data (List.length data - 1).
Proof.
  induction data as [|x l IH]; [congruence|]. intros _.
  destruct l as [|y l']; [reflexivity|].
  change (last (x :: y :: l') []) with (last (y :: l') []).
  rewrite IH by discriminate. simpl. now rewrite Nat.sub_0_r.
Qed.

(** In a sorted timeline the last row carries the greatest timestamp. *)
Lemma sorted_last_greatest data r :
  timeline_sorted data -> In r data ->
  (timestamp_of r <= timestamp_of (last data []))%Q.
Proof.
  intros Hs Hin.
  assert (Hne : data <> []) by (destruct data; [destruct Hin | discriminate]).
  rewrite (last_is_nth data Hne).
  apply (In_nth _ _ ([] : dict)) in Hin as (n & Hn & <-).
  apply (Hs n); lia.
Qed.

Lemma py_int_floor q : (0 <= q)%Q -> py_int q = Qfloor q.
Proof.
  destruct q as [n d]. unfold Qle, py_int, Qfloor. simpl. intros H.
  apply Z.quot_div_nonneg; lia.
Qed.

(** ** The frame count *)

Lemma to_double_small q :
  (0 <= q)%Q -> (q <= inject_Z (2 ^ 53))%Q -> to_double q = Some (round64 q).
Proof.
  intros H0 H1. unfold to_double.
  assert (Hr := round64_nonneg q H0).
  assert (Hm := round64_mono q (inject_Z (2 ^ 53)) H0 H1).
  rewrite (round64_Z (2 ^ 53)) in Hm by lia.
  rewrite (Qabs_pos (round64 q) Hr).
  destruct (Qle_bool (pow2 1024) (round64 q)) eqn:E; [|reflexivity].
  exfalso. apply Qle_bool_iff in E.
  assert (Hlt : inject_Z (2 ^ 53) < pow2 1024)
    by (rewrite <- (pow2_Z 53) by lia; apply pow2_lt; lia).
  apply (Qlt_irrefl (pow2 1024)).
  eapply Qle_lt_trans; [exact E|]. eapply Qle_lt_trans; [exact Hm | exact Hlt].
Qed.

Lemma int_to_float_small z :
  (0 <= z <= 2 ^ 53)%Z ->
  exists rate, int_to_float z = Some rate /\ (rate == inject_Z z)%Q.
Proof.
  intros Hz. unfold int_to_float.
  rewrite to_double_small.
  - eexists. split; [reflexivity|]. now apply round64_Z.
  - change 0%Q with (inject_Z 0). rewrite <- Zle_Qle. lia.
  - rewrite <- Zle_Qle. lia.
Qed.

(** The count in the range where every integer is a double: the floor of
    the rounded product, which is the floor of the exact product or one
    more. *)
Lemma frame_count_bounds duration rate :
  (0 <= rate <= 2 ^ 53)%Z ->
  (0 <= duration)%Q ->
  (duration * inject_Z rate < inject_Z (2 ^ 53))%Q ->
  exists n,
    frame_count duration rate = Some n
    /\ n = Qfloor (round64 (duration * inject_Z rate))
    /\ (Qfloor (duration * inject_Z rate) <= n
        <= Qfloor (duration * inject_Z rate) + 1)%Z.
Proof.
  intros Hr Hd Hp.
  destruct (int_to_float_small rate Hr) as (r & Hi & Er).
  set (x := (duration * inject_Z rate)%Q) in *.
  assert (Hrq : (0 <= inject_Z rate)%Q)
    by (change 0%Q with (inject_Z 0); rewrite <- Zle_Qle; lia).
  assert (Hx : (0 <= x)%Q) by (unfold x; now apply Qmult_le_0_compat).
  assert (Ex : round64 (duration * r) = round64 x)
    by (apply round64_proper; unfold x; now rewrite Er).
  unfold frame_count. rewrite Hi.
  assert (Hdr : (duration * r == x)%Q) by (unfold x; now rewrite Er).
  rewrite to_double_small;
    [|rewrite Hdr; exact Hx | rewrite Hdr; now apply Qlt_le_weak].
  rewrite Ex. cbn [option_map].
  assert (Hrx := round64_nonneg x Hx).
  exists (py_int (round64 x)). split; [reflexivity|].
  rewrite (py_int_floor _ Hrx). split; [reflexivity|].
  assert (Hf0 : (0 <= Qfloor x)%Z)
    by (change 0%Z with (Qfloor 0); now apply Qfloor_resp_le).
  assert (Hf1 : (Qfloor x < 2 ^ 53)%Z).
  { rewrite Zlt_Qlt. eapply Qle_lt_trans; [apply Qfloor_le | exact Hp]. }
  split.
  - rewrite <- (Qfloor_Z (Qfloor x)) at 1. apply Qfloor_resp_le.
    rewrite <- (round64_Z (Qfloor x)) by lia.
    apply round64_mono.
    + change 0%Q with (inject_Z 0). now rewrite <- Zle_Qle.
    + apply Qfloor_le.
  - rewrite <- (Qfloor_Z (Qfloor x + 1)). apply Qfloor_resp_le.
    rewrite <- (round64_Z (Qfloor x + 1)) by lia.
    apply round64_mono; [exact Hx|]. apply Qlt_le_weak, Qlt_floor.
Qed.

(** C6 (amended). Frame count and default duration: the frame count is
    [int(duration * fps)] in binary64 arithmetic.  With a frame rate from 1
    to 2^53, a duration that is not negative and a product below 2^53, it
    is the floor of the product rounded to the nearest double, which is
    [floor(duration * fps)] or one more, and the loop makes that many
    frames.  Without a duration override the duration is the float sum of
    the timestamp of the last row of the sorted table and 1.0, and no row
    has a greater timestamp than that row. *)
Theorem frame_count_floor (sb : ScoreBoard) (rows : list dict) :
  (0 < fps sb <= 2 ^ 53)%Z ->
  (0 <= duration_of sb (read_csv_data rows))%Q ->
  (duration_of sb (read_csv_data rows) * inject_Z (fps sb)
   < inject_Z (2 ^ 53))%Q ->
  let data := read_csv_data rows in
  let product := (duration_of sb data * inject_Z (fps sb))%Q in
  (exists n,
      total_frames sb data = Some n
      /\ n = Qfloor (round64 product)
      /\ (Qfloor product <= n <= Qfloor product + 1)%Z
      /\ Z.of_nat (List.length (frame_numbers n)) = n)
  /\ (args_duration sb = None ->
      duration_of sb data = round64 (timestamp_of (last data []) + 1))
  /\ (forall r, In r rows ->
      (timestamp_of r <= timestamp_of (last data []))%Q).
Proof.
  intros Hfps Hd Hp data product. split; [|split].
  - destruct (frame_count_bounds (duration_of sb data) (fps sb)
                ltac:(lia) Hd Hp) as (n & Hn & En & Hb).
    exists n. split; [exact Hn|]. split; [exact En|]. split; [exact Hb|].
    unfold frame_numbers. rewrite length_seq, Z2Nat.id; [reflexivity|].
    assert (H0 : (0 <= Qfloor product)%Z).
    { change 0%Z with (Qfloor 0). apply Qfloor_resp_le.
      apply Qmult_le_0_compat; [exact Hd|].
      change 0%Q with (inject_Z 0). rewrite <- Zle_Qle. lia. }
    fold data in Hb. fold product in Hb. lia.
  - intros Hn. unfold duration_of. now rewrite Hn.
  - intros r Hr. apply sorted_last_greatest.
    + apply read_csv_data_sorted.
    + now apply read_csv_data_In.
Qed.

(** Last timestamp 9.5, 30 frames per second, no override: the duration is
    10.5 and there are 315 frames. *)
Lemma frame_count_floor_witness :
  total_frames (board 30) (read_csv_data table_9_5) = Some 315%Z
  /\ (duration_of (board 30) (read_csv_data table_9_5) == 21 # 2)%Q
  /\ exists n,
      total_frames (board 30) (read_csv_data table_9_5) = Some n
      /\ n = Qfloor (round64 (duration_of (board 30) (read_csv_data table_9_5)
                              * inject_Z 30))
      /\ (Qfloor (duration_of (board 30) (read_csv_data table_9_5)
                  * inject_Z 30) <= n
          <= Qfloor (duration_of (board 30) (read_csv_data table_9_5)
                     * inject_Z 30) + 1)%Z
      /\ Z.of_nat (List.length (frame_numbers n)) = n.
Proof.
  split; [vm_compute; reflexivity|]. split; [vm_compute; reflexivity|].
  apply (frame_count_floor (board 30) table_9_5).
  - cbn. lia.
  - vm_compute. discriminate.
  - vm_compute. reflexivity.
Defined.

(** C6 as the specification states it fails: one event at 0.16, 25 frames per
    second, no override.  The float sum 0.16 + 1.0 is just below 1.16 and
    its product with 25 just below 29: the code makes 28 frames, where
    [floor((0.16 + 1.0) * 25)] over the reals, taken of the very doubles,
    is 29. *)
Lemma frame_count_rounded :
  total_frames (board 25) (read_csv_data table_0_16) = Some 28%Z
  /\ Qfloor ((timestamp_of (last (read_csv_data table_0_16) []) + 1)
             * inject_Z 25) = 29%Z
  /\ Qfloor (((16 # 100) + 1) * inject_Z 25) = 29%Z.
Proof. repeat split; vm_compute; reflexivity. Qed.

(** [int] truncates: one event at -1.5 and one frame per second give the
    duration -0.5 and no frame, where the floor is -1. *)
Example frame_count_negative_duration :
  (duration_of (board 1) (read_csv_data table_negative) == - (1 # 2))%Q
  /\ total_frames (board 1) (read_csv_data table_negative) = Some 0%Z
  /\ Qfloor (duration_of (board 1) (read_csv_data table_negative) * inject_Z 1)
     = (-1)%Z.
Proof. repeat split; vm_compute; reflexivity. Qed.

(** A product beyond the largest double: the last timestamp 1e308 at 30
    frames per second has no frame count. *)
Example frame_count_overflow :
  frame_count (round64 (inject_Z (10 ^ 308))) 30 = None.
Proof. vm_compute. reflexivity. Qed.

(** The product can round up to an integer: [--duration 0.3] at 10 frames
    a second gives 3 frames, the double of 0.3 being below 0.3 and ten
    times it rounding to 3.0, where the floor of the exact product is
    2. *)
Example frame_count_rounded_up :
  frame_count (round64 (3 # 10)) 10 = Some 3%Z
  /\ Qfloor (round64 (3 # 10) * inject_Z 10) = 2%Z.
Proof. split; vm_compute; reflexivity. Qed.

(** ** The division of the frame loop *)

Lemma round64_nonpos q : (q <= 0)%Q -> (round64 q <= 0)%Q.
Proof.
  intros H. destruct (Qeq_dec q 0) as [E | N].
  - rewrite (round64_zero q E). apply Qle_refl.
  - rewrite (round64_eq q N).
    assert (Hp := pow2_pos (quantum q)).
    assert (Hs : (q / pow2 (quantum q) <= inject_Z 0)%Q).
    { change (inject_Z 0) with 0%Q.
      apply Qle_shift_div_r; [exact Hp | now rewrite Qmult_0_l]. }
    apply round_half_even_le in Hs. rewrite Zle_Qle in Hs.
    change (inject_Z 0) with 0%Q in Hs.
    set (m := inject_Z (round_half_even (q / pow2 (quantum q)))) in *.
    clearbody m. nra.
Qed.

(** A double rounds to itself. *)
Lemma round64_idempotent q :
  (0 <= q)%Q -> (round64 (round64 q) == round64 q)%Q.
Proof.
  intros H0. destruct (Qeq_dec q 0) as [E | N].
  - rewrite (round64_zero q E). reflexivity.
  - assert (Hq : 0 < q) by (destruct (Qle_lt_or_eq _ _ H0) as [L | L];
                            [exact L | exfalso; apply N; now symmetry]).
    assert (Hr := round64_eq q N).
    set (e := quantum q) in *.
    set (m := round_half_even (q / pow2 e)) in *.
    assert (He : (-1074 <= e)%Z) by (unfold e, quantum; lia).
    assert (Hm0 : (0 <= m)%Z).
    { apply round_half_even_ge. change (inject_Z 0) with 0%Q.
      apply Qle_shift_div_l; [apply pow2_pos | now rewrite Qmult_0_l]. }
    assert (Hm1 : (m <= 2 ^ 53)%Z).
    { apply round_half_even_le. rewrite <- (pow2_Z 53) by lia.
      assert (Hs := scaled_lt q Hq). fold e in Hs.
      rewrite (Z.add_comm e 53), pow2_add in Hs.
      apply Qle_shift_div_r; [apply pow2_pos | now apply Qlt_le_weak]. }
    destruct (Z.eq_dec m 0) as [Z0 | Nz].
    + assert (Hz : round64 q == 0) by (rewrite Hr, Z0; ring).
      rewrite (round64_zero _ Hz). now symmetry.
    + rewrite (round64_proper _ _ Hr), Hr.
      apply round64_exact; lia.
Qed.

Lemma round64_proper_to_double x y :
  (x == y)%Q -> to_double x = to_double y.
Proof. intros E. unfold to_double. now rewrite (round64_proper x y E). Qed.

Lemma py_int_le q : (0 < py_int q)%Z -> (inject_Z (py_int q) <= q)%Q.
Proof.
  intros H. destruct (Qlt_le_dec q 0) as [L | L].
  - exfalso. destruct q as [n d]. unfold py_int in H. unfold Qlt in L.
    cbn in H, L.
    assert (n < 0)%Z by lia.
    assert (Hq := Z.quot_opp_l n (Zpos d) ltac:(lia)).
    assert (Hp := Z.quot_pos (- n) (Zpos d) ltac:(lia) ltac:(lia)). lia.
  - rewrite (py_int_floor q L). apply Qfloor_le.
Qed.

(** [frame_num / self.fps] on line 155 is defined for every frame the loop
    makes at a positive frame rate: the quotient is at most the product the
    frame count was taken of, which is a double. *)
Lemma frame_clock_defined (sb : ScoreBoard) (data : list dict) (total : Z)
      (frame_num : nat) :
  (0 < fps sb)%Z ->
  total_frames sb data = Some total ->
  In frame_num (frame_numbers total) ->
  to_double (inject_Z (Z.of_nat frame_num) / inject_Z (fps sb))
  = Some (frame_clock sb frame_num).
Proof.
  intros Hf Ht Hin. unfold frame_clock.
  set (c := (inject_Z (Z.of_nat frame_num) / inject_Z (fps sb))%Q).
  unfold total_frames, frame_count in Ht.
  destruct (int_to_float (fps sb)) as [rate|]; [|discriminate].
  set (p := (duration_of sb data * rate)%Q) in *.
  unfold to_double in Ht.
  destruct (Qle_bool (pow2 1024) (Qabs (round64 p))) eqn:Eb; [discriminate|].
  cbn [option_map] in Ht. injection Ht as Ht.
  unfold frame_numbers in Hin. apply in_seq in Hin.
  assert (Hn : (Z.of_nat frame_num < total)%Z) by lia.
  assert (Hx : (inject_Z total <= round64 p)%Q)
    by (rewrite <- Ht; apply py_int_le; lia).
  assert (HF : (1 <= inject_Z (fps sb))%Q)
    by (change 1%Q with (inject_Z 1); rewrite <- Zle_Qle; lia).
  assert (HN : (0 <= inject_Z (Z.of_nat frame_num))%Q)
    by (change 0%Q with (inject_Z 0); rewrite <- Zle_Qle; lia).
  assert (Hc0 : (0 <= c)%Q).
  { unfold c. apply Qle_shift_div_l; [lra|]. lra. }
  assert (Hc1 : (c <= inject_Z (Z.of_nat frame_num))%Q).
  { unfold c. apply Qle_shift_div_r; [lra|].
    set (a := inject_Z (Z.of_nat frame_num)) in *.
    set (b := inject_Z (fps sb)) in *. clearbody a b. nra. }
  assert (Hnt : (inject_Z (Z.of_nat frame_num) <= inject_Z total)%Q)
    by (rewrite <- Zle_Qle; lia).
  assert (Hxpos : (0 < round64 p)%Q).
  { eapply Qlt_le_trans; [|exact Hx].
    change 0%Q with (inject_Z 0). rewrite <- Zlt_Qlt. lia. }
  assert (Hp : (0 <= p)%Q).
  { destruct (Qlt_le_dec p 0) as [L | L]; [|exact L].
    assert (H := round64_nonpos p (Qlt_le_weak _ _ L)). lra. }
  assert (Hcx : (round64 c <= round64 p)%Q).
  { rewrite <- (round64_idempotent p Hp).
    apply round64_mono; [exact Hc0 | lra]. }
  assert (Hrc := round64_nonneg c Hc0).
  unfold to_double. rewrite (Qabs_pos _ Hrc).
  destruct (Qle_bool (pow2 1024) (round64 c)) eqn:Ec; [|reflexivity].
  exfalso. apply Qle_bool_iff in Ec.
  rewrite (Qabs_pos _ (Qlt_le_weak _ _ Hxpos)) in Eb.
  assert (Hle : (pow2 1024 <= round64 p)%Q) by (eapply Qle_trans; eauto).
  apply Qle_bool_iff in Hle. congruence.
Qed.

(** There are frames only at a frame rate that is not 0: the division
    never raises [ZeroDivisionError]. *)
Lemma frames_rate_not_zero (sb : ScoreBoard) (data : list dict) (total : Z) :
  total_frames sb data = Some total -> (0 < total)%Z -> fps sb <> 0%Z.
Proof.
  intros Ht Hpos E. unfold total_frames in Ht. rewrite E in Ht.
  unfold frame_count in Ht.
  change (int_to_float 0) with (Some 0%Q) in Ht. cbv iota in Ht.
  rewrite (round64_proper_to_double (duration_of sb data * 0) 0) in Ht
    by ring.
  cbn in Ht. injection Ht as <-. lia.
Qed.

(** ** [str.replace] *)

Lemma append_assoc (a b c : string) : ((a ++ b) ++ c = a ++ b ++ c)%string.
Proof. induction a as [|x a IH]; simpl; [reflexivity | now rewrite IH]. Qed.

Lemma append_empty_r (a : string) : (a ++ "")%string = a.
Proof. induction a as [|x a IH]; simpl; [reflexivity | now rewrite IH]. Qed.

Lemma prefix_append (a r : string) : String.prefix a (a ++ r) = true.
Proof.
  induction a as [|x a IH]; simpl; [now destruct r|].
  destruct (ascii_dec x x); [exact IH | congruence].
Qed.

Lemma prefix_split (a s : string) :
  String.prefix a s = true -> exists r, s = (a ++ r)%string.
Proof.
  revert s; induction a as [|x a IH]; intros s H.
  - now exists s.
  - destruct s as [|y s]; simpl in H; [discriminate|].
    destruct (ascii_dec x y) as [->|]; [|discriminate].
    destruct (IH s H) as [r ->]. now exists r.
Qed.

Lemma prefix_cons (x y : ascii) (a s : string) :
  String.prefix (String x a) (String y s)
  = (Ascii.eqb x y && String.prefix a s)%bool.
Proof.
  simpl. destruct (ascii_dec x y) as [->|N].
  - now rewrite Ascii.eqb_refl.
  - apply Ascii.eqb_neq in N. now rewrite N.
Qed.

Lemma replace_from_cons (old new : string) (c : ascii) (s : string) :
  replace_from old new 0 (String c s)
  = if String.prefix old (String c s)
    then (new ++ replace_from old new (String.length old - 1) s)%string
    else String c (replace_from old new 0 s).
Proof. reflexivity. Qed.

Lemma replace_from_skip (old new a r : string) :
  replace_from old new (String.length a) (a ++ r) = replace_from old new 0 r.
Proof. induction a as [|x a IH]; simpl; [reflexivity | exact IH]. Qed.

Section Replace.

(** A non-empty pattern. *)
Variable c : ascii.
Variable o : string.
Variable new : string.

Let old := String c o.

Lemma replace_empty : replace old new "" = ""%string.
Proof. reflexivity. Qed.

(** An occurrence at the front is replaced and the scan resumes behind it. *)
Lemma replace_match (r : string) :
  replace old new (old ++ r) = (new ++ replace old new r)%string.
Proof.
  unfold replace, old.
  change (String c o ++ r)%string with (String c (o ++ r)).
  rewrite replace_from_cons.
  change (String c (o ++ r)) with (String c o ++ r)%string.
  rewrite prefix_append.
  replace (String.length (String c o) - 1)%nat with (String.length o)
    by (simpl; lia).
  now rewrite replace_from_skip.
Qed.

(** Where the pattern does not start, one character is copied. *)
Lemma replace_copy (d : ascii) (s : string) :
  String.prefix old (String d s) = false ->
  replace old new (String d s) = String d (replace old new s).
Proof.
  intros H. unfold replace, old in *.
  now rewrite replace_from_cons, H.
Qed.

Lemma replace_absent (s : string) :
  ~ occurs old s -> replace old new s = s.
Proof.
  induction s as [|d s IH]; intros Hno; [reflexivity|].
  rewrite replace_copy.
  - f_equal. apply IH. intros (a & b & ->).
    apply Hno. now exists (String d a), b.
  - destruct (String.prefix old (String d s)) eqn:E; [|reflexivity].
    exfalso. apply Hno. apply prefix_split in E as [r E].
    exists ""%string, r. exact E.
Qed.

End Replace.

(** ** Placeholders in hygienic text *)

Lemma placeholder_cons (k : string) :
  placeholder k = String "{" (String "{" (k ++ "}}")).
Proof. reflexivity. Qed.

Lemma placeholder_append (k r : string) :
  (placeholder k ++ r)%string = String "{" (String "{" (k ++ "}}" ++ r)).
Proof. rewrite placeholder_cons. simpl. now rewrite append_assoc. Qed.

Lemma brace_free_plain (s : string) : brace_free s = true -> plain s = true.
Proof.
  induction s as [|x s IH]; simpl; [reflexivity|].
  intros H. apply andb_true_iff in H as [H Hs].
  apply andb_true_iff in H as [Ho _].
  apply negb_true_iff in Ho. rewrite Ho. now apply IH.
Qed.

Lemma plain_closing (s : string) :
  brace_free s = true -> plain (s ++ "}}") = true.
Proof.
  induction s as [|x s IH]; simpl; [reflexivity|].
  intros H. apply andb_true_iff in H as [H Hs].
  apply andb_true_iff in H as [Ho _].
  apply negb_true_iff in Ho. rewrite Ho. now apply IH.
Qed.

(** No placeholder begins inside plain text. *)
Lemma replace_plain (k v s r : string) :
  plain s = true ->
  replace (placeholder k) v (s ++ r)
  = (s ++ replace (placeholder k) v r)%string.
Proof.
  rewrite placeholder_cons.
  induction s as [|x s IH]; intros Hp; [reflexivity|].
  simpl in Hp. change (String x s ++ r)%string with (String x (s ++ r)).
  destruct (is_open x) eqn:Hx.
  - destruct s as [|y s]; [discriminate|].
    apply andb_true_iff in Hp as [Hy Hp]. apply negb_true_iff in Hy.
    rewrite replace_copy.
    + simpl. f_equal. apply (IH Hp).
    + change (String y s ++ r)%string with (String y (s ++ r)).
      rewrite !prefix_cons.
      unfold is_open in Hy. rewrite (Ascii.eqb_sym "{" y), Hy.
      now rewrite andb_false_r.
  - rewrite replace_copy.
    + simpl. f_equal. apply (IH Hp).
    + rewrite prefix_cons. unfold is_open in Hx.
      now rewrite (Ascii.eqb_sym "{" x), Hx.
Qed.

(** Between brace-free keys, one placeholder starts another only when the
    keys are equal. *)
Lemma prefix_key (k k' r : string) :
  brace_free k = true -> brace_free k' = true ->
  String.prefix (k ++ "}}") (k' ++ "}}" ++ r) = true -> k = k'.
Proof.
  revert k'; induction k as [|x k IH]; intros k' Hk Hk' H.
  - destruct k' as [|y k']; [reflexivity|]. exfalso.
    simpl in Hk'. change ("" ++ "}}")%string with "}}"%string in H.
    change (String y k' ++ "}}" ++ r)%string with (String y (k' ++ "}}" ++ r)) in H.
    rewrite prefix_cons in H. apply andb_true_iff in H as [H _].
    apply andb_true_iff in Hk' as [Hk' _]. apply andb_true_iff in Hk' as [_ Hc].
    apply negb_true_iff in Hc. unfold is_close in Hc.
    rewrite Ascii.eqb_sym in H. congruence.
  - simpl in Hk. apply andb_true_iff in Hk as [Hx Hk].
    change (String x k ++ "}}")%string with (String x (k ++ "}}")) in H.
    destruct k' as [|y k'].
    + exfalso. change ("" ++ "}}" ++ r)%string with (String "}" (String "}" r)) in H.
      rewrite prefix_cons in H. apply andb_true_iff in H as [H _].
      apply andb_true_iff in Hx as [_ Hc].
      apply negb_true_iff in Hc. unfold is_close in Hc. congruence.
    + simpl in Hk'. apply andb_true_iff in Hk' as [_ Hk'].
      change (String y k' ++ "}}" ++ r)%string with (String y (k' ++ "}}" ++ r)) in H.
      rewrite prefix_cons in H. apply andb_true_iff in H as [E H].
      apply Ascii.eqb_eq in E. subst y. f_equal. now apply IH.
Qed.

Lemma replace_token_same (k v r : string) :
  replace (placeholder k) v (placeholder k ++ r)
  = (v ++ replace (placeholder k) v r)%string.
Proof. rewrite placeholder_cons. apply replace_match. Qed.

Lemma replace_token_other (k k' v r : string) :
  brace_free k = true -> brace_free k' = true -> k <> k' ->
  replace (placeholder k) v (placeholder k' ++ r)
  = (placeholder k' ++ replace (placeholder k) v r)%string.
Proof.
  intros Hk Hk' Hne.
  rewrite !placeholder_append.
  rewrite (placeholder_cons k), replace_copy.
  - f_equal. rewrite <- (placeholder_cons k).
    rewrite <- !(append_assoc k' "}}").
    change (String "{" ((k' ++ "}}") ++ r))
      with (String "{" (k' ++ "}}") ++ r)%string.
    rewrite replace_plain; [reflexivity|].
    assert (Hp := plain_closing k' Hk').
    destruct k' as [|y k']; [reflexivity|].
    simpl. simpl in Hk'. apply andb_true_iff in Hk' as [Hy _].
    apply andb_true_iff in Hy as [Hy _]. rewrite Hy. exact Hp.
  - rewrite !prefix_cons, !Ascii.eqb_refl. cbn [andb].
    destruct (String.prefix (k ++ "}}") (k' ++ "}}" ++ r)) eqn:E; [|reflexivity].
    exfalso. apply Hne. now apply (prefix_key k k' r).
Qed.

(** ** Dictionaries *)

Lemma dict_get_set_same k v d : dict_get k (dict_set k v d) = Some v.
Proof.
  induction d as [|[k' v'] d IH]; simpl.
  - now rewrite String.eqb_refl.
  - destruct (String.eqb k' k) eqn:E; simpl; rewrite E; [reflexivity | exact IH].
Qed.

Lemma dict_get_set_other k k' v d :
  k <> k' -> dict_get k' (dict_set k v d) = dict_get k' d.
Proof.
  intros Hne. induction d as [|[k0 v0] d IH]; simpl.
  - apply String.eqb_neq in Hne. now rewrite Hne.
  - destruct (String.eqb k0 k) eqn:E; simpl.
    + apply String.eqb_eq in E. subst k0.
      apply String.eqb_neq in Hne. now rewrite Hne.
    + now rewrite IH.
Qed.

Lemma dict_get_absent k d : ~ In k (dict_keys d) -> dict_get k d = None.
Proof.
  induction d as [|[k' v'] d IH]; simpl; [reflexivity|]. intros H.
  destruct (String.eqb k' k) eqn:E.
  - apply String.eqb_eq in E. tauto.
  - apply IH. tauto.
Qed.

Lemma dict_get_In k v d : dict_get k d = Some v -> In (k, v) d.
Proof.
  induction d as [|[k' v'] d IH]; simpl; [discriminate|].
  destruct (String.eqb k' k) eqn:E.
  - apply String.eqb_eq in E. intros [= ->]. subst. now left.
  - intros H. right. now apply IH.
Qed.

(** [d.update(other)]: the keys of [other] take its values, the remaining
    keys keep theirs. *)
Lemma dict_get_update k p g :
  unique_keys g ->
  dict_get k (dict_update p g)
  = match dict_get k g with Some v => Some v | None => dict_get k p end.
Proof.
  unfold dict_update, unique_keys.
  revert p; induction g as [|[k1 v1] g IH]; intros p Hu; [reflexivity|].
  simpl in Hu. apply NoDup_cons_iff in Hu as [Hnin Hu].
  simpl fold_left. rewrite (IH _ Hu). simpl dict_get.
  destruct (String.eqb k1 k) eqn:E.
  - apply String.eqb_eq in E. subst k1.
    now rewrite (dict_get_absent k g Hnin), dict_get_set_same.
  - apply String.eqb_neq in E. now rewrite (dict_get_set_other k1 k v1 p E).
Qed.

Lemma In_dict_set kv k v d : In kv (dict_set k v d) -> kv = (k, v) \/ In kv d.
Proof.
  induction d as [|[k' v'] d IH]; simpl.
  - intros [H | []]. now left.
  - destruct (String.eqb k' k) eqn:E; simpl.
    + apply String.eqb_eq in E. subst k'. intros [H | H]; auto.
    + intros [H | H]; auto. destruct (IH H); auto.
Qed.

Lemma In_dict_update kv p g : In kv (dict_update p g) -> In kv p \/ In kv g.
Proof.
  unfold dict_update. revert p; induction g as [|[k1 v1] g IH]; intros p; simpl.
  - now left.
  - intros H. destruct (IH _ H) as [H' | H']; [|now right; right].
    apply In_dict_set in H' as [-> | H']; [right; now left | now left].
Qed.

Lemma hygienic_update p g :
  hygienic_items p -> hygienic_items g -> hygienic_items (dict_update p g).
Proof.
  intros Hp Hg k v Hin. apply In_dict_update in Hin as [H | H]; auto.
Qed.

Lemma hygienic_items_check items :
  hygienic_itemsb items = true -> hygienic_items items.
Proof.
  unfold hygienic_itemsb. rewrite forallb_forall. intros H k v Hin Hne.
  specialize (H _ Hin). simpl in H.
  apply String.eqb_neq in Hne. rewrite Hne in H. simpl in H.
  now apply andb_true_iff in H.
Qed.

(** ** [fill_template] on segmented templates *)

Lemma replace_segments k v segs :
  brace_free k = true ->
  Forall hygienic_segment segs ->
  replace (placeholder k) v (render_segments segs)
  = render_segments (map (replace_token k v) segs).
Proof.
  intros Hk. induction 1 as [|sg segs Hsg Hs IH]; [reflexivity|].
  destruct sg as [text | k']; cbn [render_segments map replace_token];
    cbn [hygienic_segment] in Hsg.
  - now rewrite replace_plain, IH.
  - destruct (String.eqb k' k) eqn:E; cbn [render_segments].
    + apply String.eqb_eq in E. subst k'.
      now rewrite replace_token_same, IH.
    + apply String.eqb_neq in E.
      rewrite replace_token_other; auto. now rewrite IH.
Qed.

Lemma replace_token_hygienic k v segs :
  plain v = true ->
  Forall hygienic_segment segs ->
  Forall hygienic_segment (map (replace_token k v) segs).
Proof.
  intros Hv. induction 1 as [|sg segs Hsg Hs IH]; simpl; constructor; auto.
  destruct sg as [text | k']; simpl in *; auto.
  destruct (String.eqb k' k); simpl; auto.
Qed.

Lemma substitute_cons k v items sg :
  substitute ((k, v) :: items) sg
  = substitute items
      (if String.eqb k "timestamp" then sg else replace_token k (py_str v) sg).
Proof.
  destruct sg as [text | k'].
  - now destruct (String.eqb k "timestamp").
  - cbn [substitute dict_get replace_token].
    destruct (String.eqb k' "timestamp") eqn:Et.
    + apply String.eqb_eq in Et. subst k'.
      destruct (String.eqb k "timestamp") eqn:Ek.
      * cbn [substitute]. now rewrite String.eqb_refl.
      * rewrite (String.eqb_sym "timestamp" k), Ek.
        cbn [substitute]. now rewrite String.eqb_refl.
    + destruct (String.eqb k k') eqn:E.
      * apply String.eqb_eq in E. subst k'.
        rewrite Et, String.eqb_refl. reflexivity.
      * rewrite (String.eqb_sym k' k), E.
        destruct (String.eqb k "timestamp"); cbn [substitute]; now rewrite Et.
Qed.

Lemma fill_step_eq result k v :
  fill_step result (k, v)
  = if String.eqb k "timestamp" then result
    else replace (placeholder k) (py_str v) result.
Proof. unfold fill_step. now destruct (String.eqb k "timestamp"). Qed.

(** The loop of [fill_template] over the items of a map, on a template
    made of plain text and tokens. *)
Lemma fill_steps_segments items :
  hygienic_items items ->
  forall segs,
    Forall hygienic_segment segs ->
    fold_left fill_step items (render_segments segs)
    = render_segments (map (substitute items) segs).
Proof.
  induction items as [|[k v] items IH]; intros Hi segs Hs.
  - simpl. f_equal. induction segs as [|[t|k] segs IHs]; simpl.
    + reflexivity.
    + inversion Hs; subst. now rewrite <- IHs.
    + inversion Hs; subst. rewrite <- IHs by assumption.
      now destruct (String.eqb k "timestamp").
  - assert (Hi' : hygienic_items items).
    { intros k' v' Hin. apply Hi. now right. }
    cbn [fold_left]. rewrite fill_step_eq.
    rewrite (map_ext _ _ (substitute_cons k v items)).
    destruct (String.eqb k "timestamp") eqn:Ek; cbv iota.
    + now apply IH.
    + apply String.eqb_neq in Ek.
      destruct (Hi k v (or_introl eq_refl) Ek) as [Hk Hv].
      rewrite replace_segments by assumption.
      rewrite (IH Hi') by now apply replace_token_hygienic.
      now rewrite map_map.
Qed.

Lemma fill_template_segments segs g p :
  hygienic_items g -> hygienic_items p ->
  Forall hygienic_segment segs ->
  fill_template (render_segments segs) g p
  = render_segments (map (substitute (dict_update p g)) segs).
Proof.
  intros Hg Hp Hs. unfold fill_template.
  apply fill_steps_segments; [now apply hygienic_update | exact Hs].
Qed.

(** ** [fill_template] on a template without placeholders *)

Lemma plain_no_double_open a b : plain (a ++ "{{" ++ b) = false.
Proof.
  induction a as [|x a IH]; [reflexivity|].
  change (String x a ++ "{{" ++ b)%string with (String x (a ++ "{{" ++ b)).
  cbn [plain]. destruct (is_open x); [|exact IH].
  destruct a as [|y a]; [reflexivity|].
  change (String y a ++ "{{" ++ b)%string with (String y (a ++ "{{" ++ b)) in *.
  rewrite IH. apply andb_false_r.
Qed.

Lemma plain_no_placeholder t k : plain t = true -> ~ occurs (placeholder k) t.
Proof.
  intros Hp (a & b & E). subst t.
  rewrite placeholder_append in Hp.
  change (String "{" (String "{" (k ++ "}}" ++ b)))
    with ("{{" ++ (k ++ "}}" ++ b))%string in Hp.
  rewrite plain_no_double_open in Hp. discriminate.
Qed.

Lemma fill_steps_absent items t :
  (forall k, In k (dict_keys items) -> k <> "timestamp" ->
             ~ occurs (placeholder k) t) ->
  fold_left fill_step items t = t.
Proof.
  induction items as [|[k v] items IH]; intros H; [reflexivity|].
  cbn [fold_left]. rewrite fill_step_eq.
  destruct (String.eqb k "timestamp") eqn:Ek.
  - apply IH. intros k' Hin. apply H. now right.
  - rewrite placeholder_cons, replace_absent.
    + apply IH. intros k' Hin. apply H. now right.
    + rewrite <- placeholder_cons. apply H; [now left|].
      now apply String.eqb_neq.
Qed.

Lemma placeholder_replaces k v :
  replaces_occurrences (placeholder k) v (replace (placeholder k) v).
Proof.
  unfold replaces_occurrences. rewrite placeholder_cons.
  split; [reflexivity|]. split.
  - apply replace_match.
  - apply replace_copy.
Qed.

(** The loop of [fill_template] is a left fold over the items of the
    effective map: one replacement per key, in the order of the map, each
    on the result of the one before. *)
Lemma fill_template_fold (g p : dict) (t : string) :
  fill_template t g p
  = fold_left (fun text item =>
                 if String.eqb (fst item) "timestamp" then text
                 else replace (placeholder (fst item))
                              (py_str (snd item)) text)
              (dict_update p g) t.
Proof.
  unfold fill_template.
  generalize (dict_update p g) as items. intros items. revert t.
  induction items as [|[k v] items IH]; intros t; [reflexivity|].
  cbn [fold_left fst snd]. rewrite fill_step_eq. apply IH.
Qed.

(** C8 (amended). Template substitution.  On a template made of plain
    text and placeholder tokens, with brace-free keys and values whose
    string forms neither hold two opening braces in a row nor end with
    one, [fill_template] returns the template with
    each token whose key is in the effective map replaced by the string
    form of its value, the tokens of [timestamp] and of absent keys left as
    they are; on any template and any map, it leaves unchanged a template
    in which no placeholder of a key of the map occurs; and one replacement
    rewrites every occurrence of the placeholder, from left to right.
    [{{a}}{{b}}] with [a = 1], [b = 2] gives [12]. *)
Theorem template_substitution (g p : dict) :
  (forall segs,
      hygienic_items g -> hygienic_items p ->
      Forall hygienic_segment segs ->
      fill_template (render_segments segs) g p
      = render_segments (map (substitute (dict_update p g)) segs))
  /\ (forall t,
      (forall k, In k (dict_keys (dict_update p g)) -> k <> "timestamp" ->
                 ~ occurs (placeholder k) t) ->
      fill_template t g p = t)
  /\ (forall k v, replaces_occurrences (placeholder k) v
                                       (replace (placeholder k) v)).
Proof.
  split; [|split].
  - intros segs Hg Hp Hs. now apply fill_template_segments.
  - intros t H. unfold fill_template. now apply fill_steps_absent.
  - apply placeholder_replaces.
Qed.

Lemma template_substitution_witness :
  fill_template "{{a}}{{b}}" [] params_ab = "12"%string
  /\ fill_template "{{timestamp}}: {{a}}-{{c}}" [] event_ab
     = "{{timestamp}}: 1-{{c}}"%string
  /\ fill_template "<p style='a { b }'>score</p>" [] event_ab
     = "<p style='a { b }'>score</p>"%string.
Proof.
  split; [|split].
  - destruct (template_substitution [] params_ab) as (H & _ & _).
    apply (H [Tok "a"; Tok "b"]).
    + intros k v [].
    + apply hygienic_items_check. reflexivity.
    + repeat constructor.
  - destruct (template_substitution [] event_ab) as (H & _ & _).
    apply (H [Tok "timestamp"; Lit ": "; Tok "a"; Lit "-"; Tok "c"]).
    + intros k v [].
    + apply hygienic_items_check. reflexivity.
    + repeat constructor.
  - destruct (template_substitution [] event_ab) as (_ & H & _).
    apply H. intros k _ _. apply plain_no_placeholder. reflexivity.
Defined.

(** C8 as the specification states it, for every template and map, fails:
    the replacements follow one another, so a value that holds the
    placeholder of a later key is replaced again, and so is a token that a
    replacement completes.  With [a = {{b}}] and [b = x] the template
    [{{a}}] gives [x], not the string form [{{b}}] of the value of [a];
    with [a = b] and [b = y] the template [{{{{a}}}}] gives [y], where
    replacing the token [{{a}}] by its value gives [{{b}}]. *)
Lemma template_resubstitution :
  fill_template "{{a}}" [] [("a", VStr "{{b}}"); ("b", VStr "x")] = "x"%string
  /\ py_str (VStr "{{b}}") = "{{b}}"%string
  /\ fill_template "{{{{a}}}}" [] [("a", VStr "b"); ("b", VStr "y")]
     = "y"%string
  /\ replace (placeholder "a") (py_str (VStr "b")) "{{{{a}}}}"
     = "{{b}}"%string.
Proof. repeat split; reflexivity. Qed.

(** C2 (amended). Merge precedence: the effective map is the event's
    parameters updated with the global parameters, so a key of the global
    parameters carries the global value, whether or not the event sets it,
    and every other key carries the event's value; on a template that is the
    placeholder of a key other than [timestamp], [fill_template] returns the
    global value when there is one, the event's value otherwise. *)
Theorem merge_precedence (g p : dict) (k : string) :
  unique_keys g ->
  hygienic_items g -> hygienic_items p ->
  k <> "timestamp" -> brace_free k = true ->
  dict_get k (dict_update p g)
  = match dict_get k g with Some v => Some v | None => dict_get k p end
  /\ fill_template (placeholder k) g p
     = match dict_get k g with
       | Some vg => py_str vg
       | None => match dict_get k p with
                 | Some vp => py_str vp
                 | None => placeholder k
                 end
       end.
Proof.
  intros Hu Hg Hp Hk Hb.
  assert (Hget := dict_get_update k p g Hu).
  split; [exact Hget|].
  rewrite <- (append_empty_r (placeholder k)) at 1.
  change (placeholder k ++ "")%string with (render_segments [Tok k]).
  rewrite fill_template_segments; auto.
  cbn [map substitute render_segments].
  apply String.eqb_neq in Hk. rewrite Hk, Hget.
  destruct (dict_get k g) as [vg|]; [|destruct (dict_get k p) as [vp|]];
    cbn [render_segments]; apply append_empty_r.
Qed.

Lemma globals_x_unique : unique_keys globals_x.
Proof.
  unfold unique_keys; simpl.
  repeat constructor; simpl; intuition discriminate.
Qed.

Lemma merge_precedence_witness :
  dict_get "x" (dict_update event_x globals_x) = Some (VStr "G")
  /\ fill_template "{{x}}" globals_x event_x = "G"%string.
Proof.
  apply (merge_precedence globals_x event_x "x").
  - exact globals_x_unique.
  - apply hygienic_items_check. reflexivity.
  - apply hygienic_items_check. reflexivity.
  - discriminate.
  - reflexivity.
Defined.

(** C2 as the specification states it fails: the event sets [x] to [A], the global
    parameters set it to [G], and the value substituted is [G]. *)
Lemma global_value_wins :
  dict_get "x" event_x = Some (VStr "A")
  /\ dict_get "x" globals_x = Some (VStr "G")
  /\ dict_update event_x globals_x
     = [("timestamp", float_of 0 "0.0"); ("x", VStr "G"); ("y", VStr "B");
        ("z", VStr "H")]
  /\ fill_template "{{x}}/{{y}}/{{z}}" globals_x event_x = "G/B/H"%string.
Proof. repeat split; reflexivity. Qed.

(** ** Border trimming *)

Lemma fold_max_positive {A} (f : A -> N) (l : list A) :
  (0 < fold_right N.max 0 (map f l))%N <-> exists x, In x l /\ (0 < f x)%N.
Proof.
  induction l as [|a l IH]; simpl.
  - split; [intros H; now apply N.lt_irrefl in H | intros (x & [] & _)].
  - rewrite N.max_lt_iff, IH. split.
    + intros [H | (x & Hin & H)]; [exists a | exists x]; auto.
    + intros (x & [-> | Hin] & H); [now left | right; now exists x].
Qed.

Lemma positive_from_cons s x v :
  positive_from s (x :: v)
  = if (0 <? x)%N then s :: positive_from (S s) v else positive_from (S s) v.
Proof. unfold positive_from. simpl. now destruct (0 <? x)%N. Qed.

Lemma positive_from_In s v i :
  In i (positive_from s v)
  <-> (s <= i < s + List.length v)%nat /\ (0 < nth (i - s) v 0)%N.
Proof.
  revert s; induction v as [|x v IH]; intros s.
  - simpl. split; [intros [] | intros [H _]; lia].
  - rewrite positive_from_cons.
    assert (Hs : forall j, (S s <= j)%nat -> (j - s = S (j - S s))%nat) by (intros; lia).
    destruct (0 <? x)%N eqn:E.
    + simpl In. rewrite IH. split.
      * intros [<- | [Hr Hp]].
        -- rewrite Nat.sub_diag. simpl. split; [lia | now apply N.ltb_lt].
        -- rewrite (Hs i) by lia. simpl. split; [lia | exact Hp].
      * intros [Hr Hp]. destruct (Nat.eq_dec s i) as [-> | Hne]; [now left|right].
        rewrite (Hs i) in Hp by lia. simpl in Hp, Hr. split; [lia | exact Hp].
    + rewrite IH. split.
      * intros [Hr Hp]. rewrite (Hs i) by lia. simpl. split; [lia | exact Hp].
      * intros [Hr Hp]. destruct (Nat.eq_dec s i) as [-> | Hne].
        -- rewrite Nat.sub_diag in Hp. simpl in Hp.
           apply N.ltb_lt in Hp. congruence.
        -- rewrite (Hs i) in Hp by lia. simpl in Hp, Hr. split; [lia | exact Hp].
Qed.

Lemma positive_from_sorted s v : StronglySorted lt (positive_from s v).
Proof.
  revert s; induction v as [|x v IH]; intros s; [constructor|].
  rewrite positive_from_cons. destruct (0 <? x)%N; [|apply IH].
  constructor; [apply IH|].
  apply Forall_forall. intros i Hi. apply positive_from_In in Hi. lia.
Qed.

Lemma where_positive_In v i :
  In i (where_positive v) <-> (i < List.length v)%nat /\ (0 < nth i v 0)%N.
Proof.
  change (where_positive v) with (positive_from 0 v).
  rewrite positive_from_In, Nat.sub_0_r. intuition lia.
Qed.

Lemma last_cons_default {A} (x : A) (l : list A) (d d' : A) :
  last (x :: l) d = last (x :: l) d'.
Proof.
  revert x; induction l as [|y l IH]; intros x; [reflexivity|].
  change (last (y :: l) d = last (y :: l) d'). apply IH.
Qed.

(** In an increasing list the head is the least and the last the greatest
    element. *)
Lemma increasing_bounds (h : nat) (t : list nat) :
  StronglySorted lt (h :: t) ->
  In (last (h :: t) h) (h :: t)
  /\ forall i, In i (h :: t) -> (h <= i <= last (h :: t) h)%nat.
Proof.
  revert h; induction t as [|x t IH]; intros h Hs.
  - split; [now left|]. intros i [<- | []]. simpl. lia.
  - inversion Hs as [|? ? Hs' Hall]; subst.
    destruct (IH x Hs') as (Hin & Hb).
    change (last (h :: x :: t) h) with (last (x :: t) h).
    rewrite (last_cons_default x t h x).
    split; [now right|].
    assert (Hhx : (h < x)%nat) by (inversion Hall; assumption).
    intros i [<- | Hi].
    + specialize (Hb x (or_introl eq_refl)). lia.
    + specialize (Hb i Hi). lia.
Qed.

Section Trim.

Variable img : image.
Hypothesis Hwf : well_formed img = true.

Let px := pixels img.
Let non_transparent_rows := where_positive (map row_max px).
Let non_transparent_cols :=
  where_positive (map (col_max px) (seq 0 (img_width img))).

Lemma row_length r :
  (r < img_height img)%nat -> List.length (nth r px []) = img_width img.
Proof.
  intros Hr. unfold well_formed in Hwf.
  apply andb_true_iff in Hwf as [_ Hall].
  rewrite forallb_forall in Hall.
  apply Nat.eqb_eq, Hall, nth_In. exact Hr.
Qed.

Lemma rows_spec r :
  In r non_transparent_rows
  <-> (r < img_height img)%nat
      /\ exists c, (c < img_width img)%nat /\ (0 < alpha_at img r c)%N.
Proof.
  unfold non_transparent_rows. rewrite where_positive_In, length_map.
  assert (E : nth r (map row_max px) 0%N = row_max (nth r px []))
    by apply (map_nth row_max px [] r).
  rewrite E. unfold row_max. rewrite fold_max_positive.
  fold px. change (List.length px) with (img_height img).
  split; intros [Hr H]; (split; [exact Hr|]).
  - destruct H as (p & Hin & Hp).
    apply (In_nth _ _ transparent) in Hin as (c & Hc & <-).
    rewrite (row_length r Hr) in Hc. now exists c.
  - destruct H as (c & Hc & Hp).
    exists (nth c (nth r px []) transparent). split; [|exact Hp].
    apply nth_In. now rewrite (row_length r Hr).
Qed.

Lemma cols_spec c :
  In c non_transparent_cols
  <-> (c < img_width img)%nat
      /\ exists r, (r < img_height img)%nat /\ (0 < alpha_at img r c)%N.
Proof.
  unfold non_transparent_cols.
  rewrite where_positive_In, length_map, length_seq.
  split; intros [Hc H]; (split; [exact Hc|]).
  - rewrite (nth_indep _ 0%N (col_max px 0)) in H
      by now rewrite length_map, length_seq.
    rewrite map_nth, seq_nth in H by exact Hc. simpl in H.
    unfold col_max in H. apply fold_max_positive in H as (row & Hin & Hp).
    apply (In_nth _ _ []) in Hin as (r & Hr & <-). now exists r.
  - rewrite (nth_indep _ 0%N (col_max px 0))
      by now rewrite length_map, length_seq.
    rewrite map_nth, seq_nth by exact Hc. simpl.
    unfold col_max. apply fold_max_positive.
    destruct H as (r & Hr & Hp).
    exists (nth r px []). split; [now apply nth_In | exact Hp].
Qed.

Lemma rows_sorted : StronglySorted lt non_transparent_rows.
Proof. apply (positive_from_sorted 0). Qed.

Lemma cols_sorted : StronglySorted lt non_transparent_cols.
Proof. apply (positive_from_sorted 0). Qed.

(** The box the function computes is the bounding box. *)
Lemma computed_box top rows' left_ cols' :
  non_transparent_rows = top :: rows' ->
  non_transparent_cols = left_ :: cols' ->
  bounding_box img top (last non_transparent_rows top)
               left_ (last non_transparent_cols left_).
Proof.
  intros Er Ec.
  assert (Hrs := rows_sorted). assert (Hcs := cols_sorted).
  rewrite Er in Hrs. rewrite Ec in Hcs.
  destruct (increasing_bounds top rows' Hrs) as (Hbot & Hrb).
  destruct (increasing_bounds left_ cols' Hcs) as (Hrig & Hcb).
  rewrite <- Er in Hbot, Hrb. rewrite <- Ec in Hrig, Hcb.
  assert (Htop : In top non_transparent_rows) by (rewrite Er; now left).
  assert (Hlef : In left_ non_transparent_cols) by (rewrite Ec; now left).
  assert (Hrt := Hrb top Htop). assert (Hcl := Hcb left_ Hlef).
  apply rows_spec in Htop as (Ht1 & Ht2).
  apply rows_spec in Hbot as (Hb1 & Hb2).
  apply cols_spec in Hlef as (Hl1 & Hl2).
  apply cols_spec in Hrig as (Hr1 & Hr2).
  constructor; auto.
  - lia.
  - lia.
  - intros r c Hr Hc Hp. split.
    + apply Hrb. apply rows_spec. split; [exact Hr|]. now exists c.
    + apply Hcb. apply cols_spec. split; [exact Hc|]. now exists r.
Qed.

Lemma crop_box_is_crop top bottom left_ right_ :
  (top <= bottom < img_height img)%nat ->
  (left_ <= right_ < img_width img)%nat ->
  is_crop img (mkimage (mode img) (crop_box px left_ top (right_ + 1) (bottom + 1)))
          top bottom left_ right_.
Proof.
  intros Hr Hc.
  assert (Hh : List.length (firstn (bottom + 1 - top) (skipn top px))
               = (bottom - top + 1)%nat).
  { rewrite length_firstn, length_skipn.
    change (List.length px) with (img_height img). lia. }
  assert (Hrow : forall i, (i < bottom - top + 1)%nat ->
            nth i (crop_box px left_ top (right_ + 1) (bottom + 1)) []
            = firstn (right_ + 1 - left_) (skipn left_ (nth (top + i) px []))).
  { intros i Hi. unfold crop_box.
    set (cut := fun row : list pixel =>
                  firstn (right_ + 1 - left_) (skipn left_ row)).
    rewrite (nth_indep _ [] (cut [])) by (rewrite length_map, Hh; exact Hi).
    rewrite map_nth, nth_firstn, nth_skipn. unfold cut.
    replace (i <? bottom + 1 - top)%nat with true; [reflexivity|].
    symmetry. apply Nat.ltb_lt. lia. }
  assert (Hlen : List.length (crop_box px left_ top (right_ + 1) (bottom + 1))
                 = (bottom - top + 1)%nat).
  { unfold crop_box. now rewrite length_map, Hh. }
  unfold is_crop, img_height. cbn [pixels mode]. rewrite Hlen.
  split; [reflexivity|]. split; [reflexivity|]. split.
  - intros i Hi. rewrite (Hrow i Hi), length_firstn, length_skipn.
    rewrite (row_length (top + i)) by lia. lia.
  - intros i j Hi Hj. unfold pixel_at. rewrite (Hrow i) by lia.
    rewrite nth_firstn, nth_skipn.
    replace (j <? right_ + 1 - left_)%nat with true; [reflexivity|].
    symmetry. apply Nat.ltb_lt. lia.
Qed.

Lemma trim_meets_contract : trim_contract img (trim img).
Proof.
  unfold trim_contract, trim, cropped_image.
  fold px. fold non_transparent_rows. fold non_transparent_cols.
  split; [|split].
  - intros Hm. apply String.eqb_neq in Hm. now rewrite Hm.
  - intros Hm Ht. rewrite Hm. simpl.
    destruct non_transparent_rows as [|top rows'] eqn:Er; [reflexivity|].
    exfalso. assert (Hin : In top non_transparent_rows) by (rewrite Er; now left).
    apply rows_spec in Hin as (Hr & c & Hc & Hp).
    rewrite (Ht top c Hr Hc) in Hp. now apply N.lt_irrefl in Hp.
  - intros Hm (r & c & Hr & Hc & Hp). rewrite Hm. simpl.
    assert (Hir : In r non_transparent_rows)
      by (apply rows_spec; split; [exact Hr | now exists c]).
    assert (Hic : In c non_transparent_cols)
      by (apply cols_spec; split; [exact Hc | now exists r]).
    destruct non_transparent_rows as [|top rows'] eqn:Er; [destruct Hir|].
    destruct non_transparent_cols as [|left_ cols'] eqn:Ec; [destruct Hic|].
    rewrite <- Er, <- Ec.
    assert (Hbox := computed_box top rows' left_ cols' Er Ec).
    exists top, (last non_transparent_rows top),
           left_, (last non_transparent_cols left_).
    split; [exact Hbox|].
    rewrite <- Hm. apply crop_box_is_crop; apply Hbox.
Qed.

(** Every image is of one of the two kinds the contract tells apart. *)
Lemma transparent_or_opaque : fully_transparent img \/ has_opaque img.
Proof.
  destruct non_transparent_rows as [|top rows'] eqn:Er.
  - left. intros r c Hr Hc.
    destruct (N.eq_0_gt_0_cases (alpha_at img r c)) as [E | Hp]; [exact E|].
    exfalso. assert (Hin : In r non_transparent_rows)
      by (apply rows_spec; split; [exact Hr | now exists c]).
    rewrite Er in Hin. exact Hin.
  - right. assert (Hin : In top non_transparent_rows) by (rewrite Er; now left).
    apply rows_spec in Hin as (Hr & c & Hc & Hp). now exists top, c.
Qed.

End Trim.

Lemma write_file_same path img fs : write_file path img fs path = Some img.
Proof. unfold write_file. now rewrite String.eqb_refl. Qed.

Lemma write_file_other path img fs p :
  p <> path -> write_file path img fs p = fs p.
Proof. intros H. unfold write_file. apply String.eqb_neq in H. now rewrite H. Qed.

(** What [crop_transparent_borders] does to a state whose file holds
    [img]. *)
Lemma crop_transparent_borders_run image_path st img :
  files st image_path = Some img ->
  crop_transparent_borders image_path st
  = (mkstate (driver st) (last_params st) (last_frame_path st)
             (match cropped_image img with
              | Some cropped => write_file image_path cropped (files st)
              | None => files st
              end)
             (log st ++ [Crop image_path]), Ok tt).
Proof.
  intros Hf.
  cbv [crop_transparent_borders read_file save_file set_files emit get ret
       raise bind].
  cbn [files log driver last_params last_frame_path].
  rewrite Hf. destruct (cropped_image img); reflexivity.
Qed.

(** C7. Border trim: on a well-formed raster, [crop_transparent_borders]
    returns without error and leaves in the file the raster cut to the
    bounding box of its pixels of positive alpha, border lines included,
    when the raster is RGBA and has such a pixel; it leaves the file as it
    was when the raster has no alpha channel or is fully transparent.  No
    other file changes. *)
Theorem border_trim (img : image) (image_path : string) (st : state) :
  well_formed img = true ->
  files st image_path = Some img ->
  exists st',
    crop_transparent_borders image_path st = (st', Ok tt)
    /\ files st' image_path = Some (trim img)
    /\ (forall p, p <> image_path -> files st' p = files st p)
    /\ trim_contract img (trim img).
Proof.
  intros Hwf Hf. eexists.
  split; [exact (crop_transparent_borders_run image_path st img Hf)|].
  cbn [files]. unfold trim.
  split; [|split].
  - destruct (cropped_image img); [apply write_file_same | exact Hf].
  - intros p Hp. destruct (cropped_image img); [now apply write_file_other | reflexivity].
  - now apply trim_meets_contract.
Qed.

(** The raster with one opaque pixel at (5, 5) of a 100 x 100 canvas comes
    out 1 x 1; a clear canvas and a raster without alpha come out as they
    went in. *)
Lemma border_trim_witness :
  trim canvas_one_pixel = mkimage "RGBA" [[opaque_white]]
  /\ trim canvas_clear = canvas_clear
  /\ trim canvas_rgb = canvas_rgb
  /\ exists st',
      crop_transparent_borders "f.png"
        (initial_state (write_file "f.png" canvas_one_pixel (fun _ => None)))
      = (st', Ok tt)
      /\ files st' "f.png" = Some (trim canvas_one_pixel)
      /\ (forall p, p <> "f.png"%string ->
            files st' p
            = files (initial_state
                       (write_file "f.png" canvas_one_pixel (fun _ => None))) p)
      /\ trim_contract canvas_one_pixel (trim canvas_one_pixel).
Proof.
  split; [vm_compute; reflexivity|].
  split; [reflexivity|]. split; [reflexivity|].
  apply (border_trim canvas_one_pixel "f.png").
  - vm_compute. reflexivity.
  - reflexivity.
Defined.

(** ** The frame loop *)

Local Open Scope pipeline_scope.

Lemma render_html_to_image_run env html path st raster :
  screenshot env html = Some raster ->
  render_html_to_image env html path st
  = (mkstate (driver st) (last_params st) (last_frame_path st)
             (write_file path raster (files st))
             (log st ++ [Render html path]), Ok tt).
Proof.
  intros H.
  cbv [render_html_to_image save_file set_files emit get ret raise bind].
  rewrite H. reflexivity.
Qed.

Lemma render_html_to_image_fail env html path st :
  screenshot env html = None ->
  render_html_to_image env html path st
  = (mkstate (driver st) (last_params st) (last_frame_path st)
             (files st) (log st ++ [Render html path]), Raised PlaywrightError).
Proof.
  intros H.
  cbv [render_html_to_image save_file set_files emit get ret raise bind].
  rewrite H. reflexivity.
Qed.

Lemma shutil_copy_run src dst st content :
  files st src = Some content ->
  shutil_copy src dst st
  = (mkstate (driver st) (last_params st) (last_frame_path st)
             (write_file dst content (files st))
             (log st ++ [Copy src dst]), Ok tt).
Proof.
  intros H.
  cbv [shutil_copy read_file save_file set_files emit get ret raise bind].
  cbn [files log driver last_params last_frame_path].
  rewrite H. reflexivity.
Qed.

Section FrameBody.

Variable sb : ScoreBoard.
Variable env : environment.
Variable template : string.
Variable data : list dict.
Variable temp_dir : string.
Variable frame_num : nat.
Variable loc : nat * dict.
Variable st : state.

Let loc' := advance data (frame_clock sb frame_num) (fst loc) (snd loc).
Let current_params := snd loc'.
Let frame_path := frame_path_of temp_dir frame_num.
Let html_content := fill_template template (global_params sb) current_params.

(** Cache hit: the previous raster is copied. *)
Lemma frame_body_hit prev previous raster :
  last_params st = Some prev ->
  dict_eqb current_params prev = true ->
  last_frame_path st = Some previous ->
  files st previous = Some raster ->
  frame_body sb env template data temp_dir frame_num loc st
  = (mkstate (driver st) (Some current_params) (Some frame_path)
             (write_file frame_path raster (files st))
             (log st ++ [Copy previous frame_path]), Ok loc').
Proof.
  intros Hp He Hl Hf.
  unfold frame_body. cbv zeta. cbv [bind get].
  fold loc'. fold current_params. fold frame_path.
  rewrite Hp. cbn [dict_neq_opt]. rewrite He. cbn [negb].
  rewrite Hl, (shutil_copy_run previous frame_path st raster Hf).
  reflexivity.
Qed.

(** Cache miss: the document is rendered and the raster trimmed. *)
Lemma frame_body_miss raster :
  dict_neq_opt current_params (last_params st) = true ->
  screenshot env html_content = Some raster ->
  frame_body sb env template data temp_dir frame_num loc st
  = (mkstate (driver st) (Some current_params) (Some frame_path)
             (match cropped_image raster with
              | Some cropped =>
                  write_file frame_path cropped
                             (write_file frame_path raster (files st))
              | None => write_file frame_path raster (files st)
              end)
             (log st ++ [Render html_content frame_path; Crop frame_path]),
     Ok loc').
Proof.
  intros Hn Hs.
  unfold frame_body. cbv zeta. cbv [bind get].
  fold loc'. fold current_params. fold frame_path. fold html_content.
  rewrite Hn, (render_html_to_image_run env html_content frame_path st raster Hs).
  rewrite (crop_transparent_borders_run frame_path _ raster)
    by (cbn [files]; apply write_file_same).
  cbn [files log driver last_params last_frame_path set_last ret].
  unfold set_last, ret. cbn [files log driver last_params last_frame_path].
  now rewrite <- app_assoc.
Qed.

(** The render fails: the iteration raises and leaves the cache as it was. *)
Lemma frame_body_render_fails :
  dict_neq_opt current_params (last_params st) = true ->
  screenshot env html_content = None ->
  frame_body sb env template data temp_dir frame_num loc st
  = (mkstate (driver st) (last_params st) (last_frame_path st) (files st)
             (log st ++ [Render html_content frame_path]),
     Raised PlaywrightError).
Proof.
  intros Hn Hs.
  unfold frame_body. cbv zeta. cbv [bind get].
  fold loc'. fold current_params. fold frame_path. fold html_content.
  now rewrite Hn, (render_html_to_image_fail env html_content frame_path st Hs).
Qed.

End FrameBody.

Lemma frame_outcome_consistent st st' path params content calls :
  frame_outcome st st' path params content calls -> cache_consistent st'.
Proof.
  intros (_ & Hp & Hl & Hf & _). unfold cache_consistent. rewrite Hp.
  now exists path, content.
Qed.

(** A cache hit, with what it leaves. *)
Lemma frame_cache_hit_outcome (sb : ScoreBoard) (env : environment)
      (template : string) (data : list dict) (temp_dir : string)
      (frame_num : nat) (loc : nat * dict) (st : state) (prev : dict) :
  let loc' := advance data (frame_clock sb frame_num) (fst loc) (snd loc) in
  let current_params := snd loc' in
  let frame_path := frame_path_of temp_dir frame_num in
  cache_consistent st ->
  last_params st = Some prev ->
  dict_eqb current_params prev = true ->
  exists previous raster st',
    last_frame_path st = Some previous
    /\ files st previous = Some raster
    /\ frame_body sb env template data temp_dir frame_num loc st = (st', Ok loc')
    /\ frame_outcome st st' frame_path current_params raster
                     [Copy previous frame_path]
    /\ files st' frame_path = files st' previous.
Proof.
  intros loc' current_params frame_path Hc Hp He.
  unfold cache_consistent in Hc. rewrite Hp in Hc.
  destruct Hc as (previous & raster & Hl & Hf).
  exists previous, raster. eexists.
  split; [exact Hl|]. split; [exact Hf|].
  split; [exact (frame_body_hit sb env template data temp_dir frame_num
                                loc st prev previous raster Hp He Hl Hf)|].
  unfold frame_outcome. cbn [files log driver last_params last_frame_path].
  fold frame_path.
  assert (Hw : write_file frame_path raster (files st) frame_path = Some raster)
    by apply write_file_same.
  repeat split; auto.
  - intros p Hne. now apply write_file_other.
  - rewrite Hw. destruct (String.eqb previous frame_path) eqn:E.
    + apply String.eqb_eq in E. now rewrite E.
    + apply String.eqb_neq in E. now rewrite write_file_other.
Qed.

(** A cache miss, with what it leaves. *)
Lemma frame_cache_miss_outcome (sb : ScoreBoard) (env : environment)
      (template : string) (data : list dict) (temp_dir : string)
      (frame_num : nat) (loc : nat * dict) (st : state) (raster : image) :
  let loc' := advance data (frame_clock sb frame_num) (fst loc) (snd loc) in
  let current_params := snd loc' in
  let frame_path := frame_path_of temp_dir frame_num in
  let html_content := fill_template template (global_params sb) current_params in
  dict_neq_opt current_params (last_params st) = true ->
  screenshot env html_content = Some raster ->
  exists st',
    frame_body sb env template data temp_dir frame_num loc st = (st', Ok loc')
    /\ frame_outcome st st' frame_path current_params (trim raster)
                     [Render html_content frame_path; Crop frame_path].
Proof.
  intros loc' current_params frame_path html_content Hn Hs. eexists.
  split; [exact (frame_body_miss sb env template data temp_dir frame_num
                                 loc st raster Hn Hs)|].
  unfold frame_outcome, trim.
  cbn [files log driver last_params last_frame_path].
  fold frame_path.
  repeat split; auto.
  - destruct (cropped_image raster); apply write_file_same.
  - intros p Hne. destruct (cropped_image raster);
      rewrite ?write_file_other by assumption; reflexivity.
Qed.



(** ** What a computation may add to the log *)

Section Extends.

Variable P : event -> Prop.

Lemma extends_ret {A} (a : A) : extends P (ret a).
Proof. intros st. exists []. simpl. now rewrite app_nil_r. Qed.

Lemma extends_raise {A} (e : exn) : extends P (@raise A e).
Proof. intros st. exists []. simpl. now rewrite app_nil_r. Qed.

Lemma extends_get : extends P get.
Proof. intros st. exists []. simpl. now rewrite app_nil_r. Qed.

Lemma extends_emit (e : event) : P e -> extends P (emit e).
Proof. intros H st. exists [e]. simpl. auto. Qed.

Lemma extends_set_files fs : extends P (set_files fs).
Proof. intros st. exists []. simpl. now rewrite app_nil_r. Qed.

Lemma extends_set_last path params : extends P (set_last path params).
Proof. intros st. exists []. simpl. now rewrite app_nil_r. Qed.

Lemma extends_bind {A B} (c : M A) (k : A -> M B) :
  extends P c -> (forall a, extends P (k a)) -> extends P (bind c k).
Proof.
  intros Hc Hk st. unfold bind.
  destruct (Hc st) as (calls & Hl & Hp & Hd).
  destruct (c st) as [st1 [a | e]]; simpl in *.
  - destruct (Hk a st1) as (calls' & Hl' & Hp' & Hd').
    exists (calls ++ calls'). rewrite Hl', Hl, Hd', Hd, app_assoc.
    repeat split; auto. apply Forall_app. auto.
  - exists calls. auto.
Qed.

Lemma extends_read_file path : extends P (read_file path).
Proof.
  apply extends_bind; [apply extends_get|]. intros s.
  destruct (files s path); [apply extends_ret | apply extends_raise].
Qed.

Lemma extends_save_file path img : extends P (save_file path img).
Proof.
  apply extends_bind; [apply extends_get|]. intros s. apply extends_set_files.
Qed.

Lemma extends_with_temporary_directory {A} delete dir (body : M A) :
  P (RemoveDir dir) -> extends P body ->
  extends P (with_temporary_directory delete dir body).
Proof.
  intros Hr Hb st. unfold with_temporary_directory.
  destruct (Hb st) as (calls & Hl & Hp & Hd).
  destruct (body st) as [st1 r]; simpl in *.
  destruct delete; simpl.
  - exists (calls ++ [RemoveDir dir]). rewrite Hl, app_assoc.
    repeat split; auto. apply Forall_app. auto.
  - exists calls. auto.
Qed.

End Extends.

Lemma extends_weaken (P Q : event -> Prop) {A} (c : M A) :
  (forall e, P e -> Q e) -> extends P c -> extends Q c.
Proof.
  intros H Hc st. destruct (Hc st) as (calls & Hl & Hp & Hd).
  exists calls. repeat split; auto. eapply Forall_impl; eauto.
Qed.

Section Driver.

Variable sb : ScoreBoard.
Variable env : environment.

Lemma extends_render html path :
  extends is_frame_event (render_html_to_image env html path).
Proof.
  apply extends_bind; [apply extends_emit; exact I|]. intros _.
  destruct (screenshot env html); [apply extends_save_file | apply extends_raise].
Qed.

Lemma extends_crop path : extends is_frame_event (crop_transparent_borders path).
Proof.
  apply extends_bind; [apply extends_emit; exact I|]. intros _.
  apply extends_bind; [apply extends_read_file|]. intros img.
  destruct (cropped_image img); [apply extends_save_file | apply extends_ret].
Qed.

Lemma extends_copy src dst : extends is_frame_event (shutil_copy src dst).
Proof.
  apply extends_bind; [apply extends_emit; exact I|]. intros _.
  apply extends_bind; [apply extends_read_file|]. intros img.
  apply extends_save_file.
Qed.

Lemma extends_frame_body template data temp_dir frame_num loc :
  extends is_frame_event
          (frame_body sb env template data temp_dir frame_num loc).
Proof.
  unfold frame_body. cbv zeta.
  apply extends_bind; [apply extends_get|]. intros s.
  apply extends_bind.
  - destruct (dict_neq_opt _ (last_params s)).
    + apply extends_bind; [apply extends_render|]. intros _. apply extends_crop.
    + destruct (last_frame_path s); [apply extends_copy | apply extends_raise].
  - intros _. apply extends_bind; [apply extends_set_last|].
    intros _. apply extends_ret.
Qed.

(** The frame loop only renders, trims and copies. *)
Lemma extends_frame_loop template data temp_dir frames :
  forall loc, extends is_frame_event
                      (frame_loop sb env template data temp_dir frames loc).
Proof.
  induction frames as [|n frames IH]; intros loc; simpl.
  - apply extends_ret.
  - apply extends_bind; [apply extends_frame_body | exact IH].
Qed.

Lemma subprocess_run_checked cmd st :
  subprocess_run env cmd true st
  = (mkstate (driver st) (last_params st) (last_frame_path st) (files st)
             (log st ++ [Encode cmd]),
     if Z.eqb (returncode (ffmpeg env cmd)) 0
     then Ok (ffmpeg env cmd)
     else Raised (CalledProcessError (returncode (ffmpeg env cmd)) cmd
                                     (stdout (ffmpeg env cmd))
                                     (stderr (ffmpeg env cmd)))).
Proof.
  cbv [subprocess_run emit ret raise bind]. cbn [andb].
  now destruct (Z.eqb (returncode (ffmpeg env cmd)) 0).
Qed.

(** [encode_video] calls the encoder once; it returns when the exit status
    is 0 and raises [CalledProcessError] otherwise.  The test of line 207
    never fires. *)
Lemma encode_video_run frames_dir output_path st :
  let cmd := ffmpeg_command sb frames_dir output_path in
  encode_video sb env frames_dir output_path st
  = (mkstate (driver st) (last_params st) (last_frame_path st) (files st)
             (log st ++ [Encode cmd]),
     if Z.eqb (returncode (ffmpeg env cmd)) 0
     then Ok tt
     else Raised (CalledProcessError (returncode (ffmpeg env cmd)) cmd
                                     (stdout (ffmpeg env cmd))
                                     (stderr (ffmpeg env cmd)))).
Proof.
  intros cmd. unfold encode_video. fold cmd. unfold bind at 1.
  rewrite subprocess_run_checked.
  destruct (Z.eqb (returncode (ffmpeg env cmd)) 0) eqn:E; [|reflexivity].
  rewrite E. reflexivity.
Qed.

Lemma extends_encode_video frames_dir output_path :
  extends not_close (encode_video sb env frames_dir output_path).
Proof.
  intros st. rewrite encode_video_run. cbn [fst log driver].
  eexists. split; [reflexivity|]. split; [|reflexivity].
  constructor; [reflexivity | constructor].
Qed.

Lemma frame_event_not_close e : is_frame_event e -> not_close e.
Proof. destruct e; simpl; intros H; try contradiction; reflexivity. Qed.

End Driver.
(** ** The pipeline driver *)

(** The four ways a run goes: no rows; the browser does not start; the
    frame count overflows; the [with] block is entered. *)
Lemma generate_overlay_no_rows sb env rows template temp_dir output_path st :
  rows = [] ->
  generate_overlay sb env rows template temp_dir output_path st
  = (st, Raised (ValueError "CSV file is empty or invalid")).
Proof. intros ->. reflexivity. Qed.

Lemma generate_overlay_not_launched sb env rows template temp_dir output_path st :
  rows <> [] ->
  chromium_launches env = false ->
  generate_overlay sb env rows template temp_dir output_path st
  = (mkstate (driver st) (last_params st) (last_frame_path st) (files st)
             (log st ++ [Launch]), Raised PlaywrightError).
Proof.
  intros Hrows Hl. unfold generate_overlay.
  assert (Hd : read_csv_data rows <> []) by now apply read_csv_data_nonempty.
  destruct (read_csv_data rows) as [|row0 rest] eqn:Ed; [congruence|].
  cbv zeta. unfold bind at 1.
  cbv [setup_browser emit set_driver raise bind]. rewrite Hl. reflexivity.
Qed.

Lemma generate_overlay_overflow sb env rows template temp_dir output_path st :
  rows <> [] ->
  chromium_launches env = true ->
  total_frames sb (read_csv_data rows) = None ->
  generate_overlay sb env rows template temp_dir output_path st
  = (mkstate true (last_params st) (last_frame_path st) (files st)
             (log st ++ [Launch]), Raised OverflowError).
Proof.
  intros Hrows Hl Ht. unfold generate_overlay.
  assert (Hd : read_csv_data rows <> []) by now apply read_csv_data_nonempty.
  destruct (read_csv_data rows) as [|row0 rest] eqn:Ed; [congruence|].
  cbv zeta. rewrite Ht. unfold bind at 1.
  cbv [setup_browser emit set_driver raise bind]. rewrite Hl. reflexivity.
Qed.

Lemma generate_overlay_launched sb env rows template temp_dir output_path st
      total :
  rows <> [] ->
  chromium_launches env = true ->
  total_frames sb (read_csv_data rows) = Some total ->
  generate_overlay sb env rows template temp_dir output_path st
  = bind (with_temporary_directory (negb (args_keep sb)) temp_dir
            (bind (frame_loop sb env template (read_csv_data rows) temp_dir
                              (frame_numbers total)
                              (0%nat, row_at (read_csv_data rows) 0))
                  (fun _ => encode_video sb env temp_dir output_path)))
         (fun _ => cleanup_browser)
         (mkstate true (last_params st) (last_frame_path st) (files st)
                  (log st ++ [Launch])).
Proof.
  intros Hrows Hl Ht. unfold generate_overlay.
  assert (Hd : read_csv_data rows <> []) by now apply read_csv_data_nonempty.
  destruct (read_csv_data rows) as [|row0 rest] eqn:Ed; [congruence|].
  cbv zeta. rewrite Ht. unfold bind at 1.
  cbv [setup_browser emit set_driver raise bind]. rewrite Hl.
  cbn [files log driver last_params last_frame_path]. reflexivity.
Qed.

Lemma block_event_not_close e : is_block_event e -> not_close e.
Proof. destruct e; simpl; intros H; try contradiction; reflexivity. Qed.

Lemma frame_event_block e : is_frame_event e -> is_block_event e.
Proof. destruct e; simpl; intros H; try contradiction; exact I. Qed.

Lemma extends_block sb env template data temp_dir output_path frames loc :
  extends is_block_event
          (bind (frame_loop sb env template data temp_dir frames loc)
                (fun _ => encode_video sb env temp_dir output_path)).
Proof.
  apply extends_bind.
  - eapply extends_weaken; [|apply extends_frame_loop].
    apply frame_event_block.
  - intros _ st. rewrite encode_video_run. cbn [fst log driver].
    eexists. split; [reflexivity|]. split; [|reflexivity].
    constructor; [exact I | constructor].
Qed.

(** C3 (amended). Browser release: every run of [generate_overlay] that
    returns normally launched the browser first and closed it last, once;
    a run that propagates an error (no rows, the browser does not start,
    the frame count overflows, a frame fails, the encoder fails) never
    closes it.  The temporary directory is removed in exactly the runs
    that entered the [with] block (there are rows, the browser started,
    there is a frame count) without [--keep], returning or raising. *)
Theorem browser_release (sb : ScoreBoard) (env : environment)
        (rows : list dict) (template temp_dir output_path : string)
        (st : state) :
  let run := generate_overlay sb env rows template temp_dir output_path st in
  exists calls,
    log (fst run) = log st ++ calls
    /\ match snd run with
       | Ok _ => exists between,
                   calls = Launch :: between ++ [Close]
                   /\ Forall not_close between
       | Raised _ => Forall not_close calls
       end
    /\ (In (RemoveDir temp_dir) calls
        <-> rows <> [] /\ chromium_launches env = true
            /\ total_frames sb (read_csv_data rows) <> None
            /\ args_keep sb = false).
Proof.
  cbv zeta.
  destruct rows as [|r0 rs] eqn:Er.
  { exists []. cbn. rewrite app_nil_r. split; [reflexivity|].
    split; [constructor|]. split; [intros []|]. intros (H & _). congruence. }
  rewrite <- Er. assert (Hrows : rows <> []) by (rewrite Er; discriminate).
  clear Er r0 rs.
  destruct (chromium_launches env) eqn:Hl.
  2:{ rewrite (generate_overlay_not_launched _ _ _ _ _ _ _ Hrows Hl).
      cbn [fst snd log]. exists [Launch]. split; [reflexivity|].
      split; [repeat constructor|]. split.
      - intros [H | []]. discriminate.
      - intros (_ & H & _). discriminate. }
  destruct (total_frames sb (read_csv_data rows)) as [total|] eqn:Ht.
  2:{ rewrite (generate_overlay_overflow _ _ _ _ _ _ _ Hrows Hl Ht).
      cbn [fst snd log]. exists [Launch]. split; [reflexivity|].
      split; [repeat constructor|]. split.
      - intros [H | []]. discriminate.
      - intros (_ & _ & H & _). congruence. }
  rewrite (generate_overlay_launched _ _ _ _ _ _ _ total Hrows Hl Ht).
  set (st1 := mkstate true _ _ _ _).
  set (block := bind (frame_loop _ _ _ _ _ _ _) _).
  destruct (extends_block sb env template (read_csv_data rows) temp_dir
              output_path (frame_numbers total)
              (0%nat, row_at (read_csv_data rows) 0) st1)
    as (calls & Hlog & Hp & Hd).
  fold block in Hlog, Hd.
  assert (Hnr : ~ In (RemoveDir temp_dir) calls).
  { intros Hin. rewrite Forall_forall in Hp. exact (Hp _ Hin). }
  assert (Hnc : Forall not_close calls)
    by (eapply Forall_impl; [apply block_event_not_close | exact Hp]).
  unfold bind, with_temporary_directory.
  destruct (block st1) as [st2 r]. cbn [fst snd] in Hlog, Hd.
  cbn [driver log st1] in Hlog, Hd.
  destruct (args_keep sb) eqn:Hk; cbn [negb];
    destruct r as [[] | e];
    unfold cleanup_browser, bind, get;
    cbn [driver log files last_params last_frame_path];
    rewrite ?Hd; cbv [emit]; cbn [fst snd log];
    rewrite Hlog, <- ?app_assoc; cbn [app].
  - exists (Launch :: calls ++ [Close]). split; [reflexivity|].
    split; [exists calls; split; [reflexivity | exact Hnc]|].
    split.
    + intros [H | H]; [discriminate|].
      apply in_app_or in H as [H | [H | []]]; [contradiction | discriminate].
    + intros (_ & _ & _ & H). discriminate.
  - exists (Launch :: calls). split; [reflexivity|].
    split; [constructor; [reflexivity | exact Hnc]|].
    split.
    + intros [H | H]; [discriminate | contradiction].
    + intros (_ & _ & _ & H). discriminate.
  - exists (Launch :: (calls ++ [RemoveDir temp_dir]) ++ [Close]).
    split; [now rewrite <- !app_assoc|].
    split.
    + exists (calls ++ [RemoveDir temp_dir]). split; [reflexivity|].
      apply Forall_app. split; [exact Hnc | repeat constructor].
    + split; [|intros _; right; apply in_or_app; left;
                apply in_or_app; right; now left].
      intros _. repeat split; auto. discriminate.
  - exists (Launch :: calls ++ [RemoveDir temp_dir]).
    split; [reflexivity|].
    split.
    + constructor; [reflexivity|].
      apply Forall_app. split; [exact Hnc | repeat constructor].
    + split; [|intros _; right; apply in_or_app; right; now left].
      intros _. repeat split; auto. discriminate.
Qed.

(** C3 as the specification states it fails: the browser fails to render frame 0.
    The run raises; the temporary directory is removed on the way out, the
    browser, launched and still held, is not closed. *)
Lemma browser_left_open_on_error :
  snd (generate_overlay (board 1) env_render_fails table_AB "<b>{{x}}</b>"
                        "/tmp/t" "out.mov" (initial_state no_files))
  = Raised PlaywrightError
  /\ log (fst (generate_overlay (board 1) env_render_fails table_AB
                 "<b>{{x}}</b>" "/tmp/t" "out.mov" (initial_state no_files)))
     = [Launch; Render "<b>A</b>" "/tmp/t/frame_000000.png"; RemoveDir "/tmp/t"]
  /\ driver (fst (generate_overlay (board 1) env_render_fails table_AB
                    "<b>{{x}}</b>" "/tmp/t" "out.mov" (initial_state no_files)))
     = true.
Proof. repeat split; vm_compute; reflexivity. Qed.

(** The same table with collaborators that work: three frames, the second
    a copy of the first, one call of the encoder, the browser closed. *)
Example generate_overlay_run :
  snd (generate_overlay (board 1) env_ok table_AB "<b>{{x}}</b>"
                        "/tmp/t" "out.mov" (initial_state no_files))
  = Ok tt
  /\ log (fst (generate_overlay (board 1) env_ok table_AB "<b>{{x}}</b>"
                 "/tmp/t" "out.mov" (initial_state no_files)))
     = [Launch;
        Render "<b>A</b>" "/tmp/t/frame_000000.png";
        Crop "/tmp/t/frame_000000.png";
        Copy "/tmp/t/frame_000000.png" "/tmp/t/frame_000001.png";
        Render "<b>B</b>" "/tmp/t/frame_000002.png";
        Crop "/tmp/t/frame_000002.png";
        Encode ["ffmpeg"; "-y"; "-framerate"; "1";
                "-i"; "/tmp/t/frame_%06d.png"; "-c:v"; "prores";
                "-preset"; "medium"; "-crf"; "23";
                "-vf"; "pad=ceil(iw/2)*2:ceil(ih/2)*2";
                "-pix_fmt"; "yuva420p"; "-movflags"; "+faststart"; "out.mov"];
        RemoveDir "/tmp/t";
        Close].
Proof. split; vm_compute; reflexivity. Qed.

(** C9. Encoder failure: when the encoder process exits with a status
    other than 0, [encode_video] raises an error that carries the exit
    status, the command line and the captured standard output and standard
    error of the process, after calling the encoder exactly once. *)
Theorem encoder_failure (sb : ScoreBoard) (env : environment)
        (frames_dir output_path : string) (st : state) :
  let cmd := ffmpeg_command sb frames_dir output_path in
  let proc := ffmpeg env cmd in
  returncode proc <> 0%Z ->
  exists st' e,
    encode_video sb env frames_dir output_path st = (st', Raised e)
    /\ e = CalledProcessError (returncode proc) cmd (stdout proc) (stderr proc)
    /\ diagnostic_output e = Some (stderr proc)
    /\ log st' = log st ++ [Encode cmd]
    /\ files st' = files st.
Proof.
  intros cmd proc Hrc.
  assert (E : Z.eqb (returncode proc) 0 = false) by now apply Z.eqb_neq.
  eexists. eexists. split.
  - rewrite encode_video_run. fold cmd. fold proc. rewrite E. reflexivity.
  - repeat split.
Qed.

Lemma encoder_failure_witness :
  exists st' e,
    encode_video (board 1) env_encode_fails "/tmp/t" "out.mov"
                 (initial_state no_files) = (st', Raised e)
    /\ e = CalledProcessError
             (returncode (ffmpeg env_encode_fails
                            (ffmpeg_command (board 1) "/tmp/t" "out.mov")))
             (ffmpeg_command (board 1) "/tmp/t" "out.mov")
             (stdout (ffmpeg env_encode_fails
                        (ffmpeg_command (board 1) "/tmp/t" "out.mov")))
             (stderr (ffmpeg env_encode_fails
                        (ffmpeg_command (board 1) "/tmp/t" "out.mov")))
    /\ diagnostic_output e = Some "Unknown encoder"%string
    /\ log st' = log (initial_state no_files)
                 ++ [Encode (ffmpeg_command (board 1) "/tmp/t" "out.mov")]
    /\ files st' = files (initial_state no_files).
Proof.
  apply (encoder_failure (board 1) env_encode_fails "/tmp/t" "out.mov"
                         (initial_state no_files)).
  discriminate.
Defined.

(** The whole run with the failing encoder: all frames are made, the
    encoder is called once, the error reaches the caller. *)
Example generate_overlay_encoder_fails :
  snd (generate_overlay (board 1) env_encode_fails table_AB "<b>{{x}}</b>"
                        "/tmp/t" "out.mov" (initial_state no_files))
  = Raised (CalledProcessError 1 (ffmpeg_command (board 1) "/tmp/t" "out.mov")
                               "" "Unknown encoder")
  /\ List.length
       (filter is_encode_event
          (log (fst (generate_overlay (board 1) env_encode_fails table_AB
                       "<b>{{x}}</b>" "/tmp/t" "out.mov"
                       (initial_state no_files)))))
     = 1%nat
  /\ existsb is_close_event
       (log (fst (generate_overlay (board 1) env_encode_fails table_AB
                    "<b>{{x}}</b>" "/tmp/t" "out.mov"
                    (initial_state no_files))))
     = false.
Proof. repeat split; vm_compute; reflexivity. Qed.

(** ** The timestamp in the cache key *)

Lemma named_params_dict_set k v d :
  named_params (dict_set k v d)
  = if String.eqb k "timestamp" then named_params d
    else dict_set k v (named_params d).
Proof.
  unfold named_params. induction d as [|[k' v'] d IH]; simpl.
  - now destruct (String.eqb k "timestamp").
  - destruct (String.eqb k' k) eqn:E; simpl.
    + apply String.eqb_eq in E. subst k'.
      destruct (String.eqb k "timestamp"); simpl; [reflexivity|].
      now rewrite String.eqb_refl.
    + rewrite IH.
      destruct (String.eqb k' "timestamp") eqn:E'; simpl;
        destruct (String.eqb k "timestamp"); simpl; rewrite ?E; reflexivity.
Qed.

Lemma named_params_update p g :
  named_params (dict_update p g)
  = dict_update (named_params p) (named_params g).
Proof.
  unfold dict_update. revert p; induction g as [|[k v] g IH]; intros p.
  - reflexivity.
  - simpl fold_left. rewrite IH, named_params_dict_set.
    unfold named_params at 3. simpl filter.
    destruct (String.eqb k "timestamp"); reflexivity.
Qed.

(** The loop of [fill_template] passes over the timestamp entry. *)
Lemma fill_steps_named items t :
  fold_left fill_step items t = fold_left fill_step (named_params items) t.
Proof.
  revert t; induction items as [|[k v] items IH]; intros t; [reflexivity|].
  cbn [fold_left]. rewrite fill_step_eq. unfold named_params. simpl filter.
  fold (named_params items).
  destruct (String.eqb k "timestamp") eqn:E; simpl negb; cbv iota.
  - apply IH.
  - cbn [fold_left]. rewrite fill_step_eq, E. apply IH.
Qed.

(** The document depends on the event through its named parameters only. *)
Lemma fill_template_named t g e1 e2 :
  named_params e1 = named_params e2 ->
  fill_template t g e1 = fill_template t g e2.
Proof.
  intros H. unfold fill_template.
  rewrite (fill_steps_named (dict_update e1 g)),
          (fill_steps_named (dict_update e2 g)).
  now rewrite !named_params_update, H.
Qed.

Lemma timestamp_of_event row f :
  dict_get "timestamp" row = Some (VFloat f) -> timestamp_of row = fval f.
Proof. intros H. unfold timestamp_of. now rewrite H. Qed.

(** Events at different times are different dicts. *)
Lemma dict_eqb_timestamps e1 e2 :
  is_event e1 -> is_event e2 ->
  ~ (timestamp_of e2 == timestamp_of e1)%Q ->
  dict_eqb e2 e1 = false.
Proof.
  intros [f1 H1] [f2 H2] Hne.
  rewrite (timestamp_of_event e1 f1 H1), (timestamp_of_event e2 f2 H2) in Hne.
  unfold dict_eqb. apply andb_false_iff. right.
  destruct (forallb _ e2) eqn:E; [|reflexivity]. exfalso.
  rewrite forallb_forall in E.
  specialize (E _ (dict_get_In _ _ _ H2)). cbn [fst snd] in E.
  rewrite H1 in E. cbn [value_eqb] in E.
  apply Hne. now apply Qeq_bool_iff.
Qed.

(** C10. The cache key includes the timestamp: when the loop moves from an
    event to one with the same named parameters and a different timestamp,
    the document filled for the frame is the one of the previous event, yet
    the two dicts are unequal and the frame is rendered and trimmed again,
    not copied. *)
Theorem timestamp_in_cache_key (sb : ScoreBoard) (env : environment)
        (template : string) (data : list dict) (temp_dir : string)
        (frame_num : nat) (loc : nat * dict) (st : state)
        (previous_event : dict) (raster : image) :
  let loc' := advance data (frame_clock sb frame_num) (fst loc) (snd loc) in
  let current_params := snd loc' in
  let frame_path := frame_path_of temp_dir frame_num in
  let html_content := fill_template template (global_params sb) current_params in
  last_params st = Some previous_event ->
  is_event previous_event -> is_event current_params ->
  ~ (timestamp_of current_params == timestamp_of previous_event)%Q ->
  named_params current_params = named_params previous_event ->
  screenshot env html_content = Some raster ->
  html_content = fill_template template (global_params sb) previous_event
  /\ dict_eqb current_params previous_event = false
  /\ exists st',
      frame_body sb env template data temp_dir frame_num loc st = (st', Ok loc')
      /\ frame_outcome st st' frame_path current_params (trim raster)
                       [Render html_content frame_path; Crop frame_path].
Proof.
  intros loc' current_params frame_path html_content Hl Hp Hc Hts Hnamed Hs.
  assert (Hne := dict_eqb_timestamps previous_event current_params Hp Hc Hts).
  split; [now apply fill_template_named|]. split; [exact Hne|].
  destruct (frame_cache_miss_outcome sb env template data temp_dir frame_num
              loc st raster) as (st' & Hrun & Hout); [| exact Hs | eauto].
  fold loc'. fold current_params. rewrite Hl. cbn [dict_neq_opt].
  now rewrite Hne.
Qed.

(** Frame 2 of [(0.0, x=A), (2.0, x=A)] at one frame per second: the same
    document as frames 0 and 1, rendered again. *)
Lemma timestamp_in_cache_key_witness :
  fill_template "<b>{{x}}</b>" [] (row_at table_AA 1)
  = fill_template "<b>{{x}}</b>" [] (row_at table_AA 0)
  /\ dict_eqb (row_at table_AA 1) (row_at table_AA 0) = false
  /\ exists st',
      frame_body (board 1) env_ok "<b>{{x}}</b>" table_AA "/tmp/t" 2
                 (0%nat, row_at table_AA 0) after_frames_0_1
      = (st', Ok (1%nat, row_at table_AA 1))
      /\ log st' = [Render "<b>A</b>" "/tmp/t/frame_000000.png";
                    Crop "/tmp/t/frame_000000.png";
                    Copy "/tmp/t/frame_000000.png" "/tmp/t/frame_000001.png";
                    Render "<b>A</b>" "/tmp/t/frame_000002.png";
                    Crop "/tmp/t/frame_000002.png"].
Proof.
  destruct (timestamp_in_cache_key (board 1) env_ok "<b>{{x}}</b>" table_AA
              "/tmp/t" 2 (0%nat, row_at table_AA 0) after_frames_0_1
              (row_at table_AA 0)
              (mkimage "RGBA"
                 [map (fun c => mkpixel 0 0 0 (N_of_ascii c))
                      (list_ascii_of_string "<b>A</b>")]))
    as (Hdoc & Hne & st' & Hrun & Hout).
  - reflexivity.
  - eexists; reflexivity.
  - eexists; reflexivity.
  - vm_compute. discriminate.
  - reflexivity.
  - reflexivity.
  - split; [exact Hdoc|]. split; [exact Hne|].
    exists st'. split; [exact Hrun|].
    destruct Hout as (Hlog & _). exact Hlog.
Defined.

(** ** The run returns when the collaborators work *)

Section Returns.

Variable sb : ScoreBoard.
Variable env : environment.
Variable template : string.
Variable data : list dict.
Variable temp_dir : string.

Hypothesis screenshot_total : forall html, screenshot env html <> None.

Lemma frame_body_returns frame_num loc st :
  cache_consistent st ->
  exists st',
    frame_body sb env template data temp_dir frame_num loc st
    = (st', Ok (advance data (frame_clock sb frame_num) (fst loc) (snd loc)))
    /\ cache_consistent st'.
Proof.
  intros Hc.
  set (current_params :=
         snd (advance data (frame_clock sb frame_num) (fst loc) (snd loc))).
  destruct (dict_neq_opt current_params (last_params st)) eqn:Hn.
  - destruct (screenshot env (fill_template template (global_params sb)
                                            current_params)) as [raster|] eqn:Hs;
      [|now apply screenshot_total in Hs].
    destruct (frame_cache_miss_outcome sb env template data temp_dir frame_num
                loc st raster Hn Hs) as (st' & Hrun & Hout).
    exists st'. split; [exact Hrun|].
    eapply frame_outcome_consistent; exact Hout.
  - destruct (last_params st) as [prev|] eqn:Hp; [|discriminate].
    cbn [dict_neq_opt] in Hn. apply negb_false_iff in Hn.
    destruct (frame_cache_hit_outcome sb env template data temp_dir frame_num
                loc st prev Hc Hp Hn)
      as (previous & raster & st' & _ & _ & Hrun & Hout & _).
    exists st'. split; [exact Hrun|].
    eapply frame_outcome_consistent; exact Hout.
Qed.

(** The frame loop makes every frame: it never stops on a missing
    [last_frame_path] or a missing file. *)
Lemma frame_loop_returns frames :
  forall loc st,
    cache_consistent st ->
    exists st' loc',
      frame_loop sb env template data temp_dir frames loc st = (st', Ok loc')
      /\ cache_consistent st'.
Proof.
  induction frames as [|n frames IH]; intros loc st Hc.
  - exists st, loc. now split.
  - destruct (frame_body_returns n loc st Hc) as (st1 & Hrun & Hc1).
    destruct (IH (advance data (frame_clock sb n) (fst loc) (snd loc)) st1 Hc1)
      as (st' & loc' & Hloop & Hc').
    exists st', loc'. split; [|exact Hc'].
    cbn [frame_loop]. unfold bind. now rewrite Hrun.
Qed.

End Returns.

(** With rows to show, a browser that starts and renders every document,
    a frame count and an encoder that exits with status 0,
    [generate_overlay] returns. *)
Lemma generate_overlay_returns sb env rows template temp_dir output_path fs :
  rows <> [] ->
  chromium_launches env = true ->
  total_frames sb (read_csv_data rows) <> None ->
  (forall html, screenshot env html <> None) ->
  (forall cmd, returncode (ffmpeg env cmd) = 0%Z) ->
  snd (generate_overlay sb env rows template temp_dir output_path
                        (initial_state fs)) = Ok tt.
Proof.
  intros Hrows Hlaunch Htotal Hshot Hrc.
  destruct (total_frames sb (read_csv_data rows)) as [total|] eqn:Ht;
    [|congruence].
  rewrite (generate_overlay_launched _ _ _ _ _ _ _ total Hrows Hlaunch Ht).
  cbn [initial_state driver last_params last_frame_path files log].
  set (st1 := mkstate true None None fs _).
  unfold bind, with_temporary_directory.
  destruct (frame_loop_returns sb env template (read_csv_data rows) temp_dir
              Hshot (frame_numbers total)
              (0%nat, row_at (read_csv_data rows) 0) st1 I)
    as (st2 & loc2 & Hloop & _).
  rewrite Hloop, encode_video_run, Hrc. cbn [Z.eqb].
  destruct (negb (args_keep sb));
    cbv [cleanup_browser get bind emit ret];
    cbn [driver]; replace (driver st2) with true; try reflexivity;
    (destruct (extends_frame_loop sb env template (read_csv_data rows) temp_dir
                 (frame_numbers total)
                 (0%nat, row_at (read_csv_data rows) 0) st1) as (c & _ & _ & Hd);
     rewrite Hloop in Hd; exact (eq_sym Hd)).
Qed.

(** ** The clock of the frame loop *)

(** At a positive frame rate the clock times of the frames do not
    decrease, rounding included: the scan is queried in the order its
    contract asks for. *)
Lemma frame_clock_le sb i j :
  (0 < fps sb)%Z -> (i <= j)%nat -> (frame_clock sb i <= frame_clock sb j)%Q.
Proof.
  intros Hfps Hij. unfold frame_clock.
  assert (Hf : (0 < inject_Z (fps sb))%Q)
    by (change 0%Q with (inject_Z 0); now rewrite <- Zlt_Qlt).
  apply round64_mono.
  - apply Qle_shift_div_l; [exact Hf|]. rewrite Qmult_0_l.
    change 0%Q with (inject_Z 0). rewrite <- Zle_Qle. lia.
  - unfold Qdiv. apply Qmult_le_compat_r.
    + rewrite <- Zle_Qle. lia.
    + now apply Qlt_le_weak, Qinv_lt_0_compat.
Qed.

Lemma nth_frame_clock sb n i :
  (i < n)%nat ->
  nth i (map (frame_clock sb) (seq 0 n)) 0%Q = frame_clock sb i.
Proof.
  intros Hi.
  rewrite (nth_indep _ 0%Q (frame_clock sb 0))
    by (rewrite length_map, length_seq; exact Hi).
  rewrite map_nth, seq_nth by exact Hi. reflexivity.
Qed.

Lemma frame_clock_nondecreasing sb n :
  (0 < fps sb)%Z -> nondecreasing (map (frame_clock sb) (seq 0 n)).
Proof.
  intros Hfps i j Hij Hj. rewrite length_map, length_seq in Hj.
  rewrite !nth_frame_clock by lia. now apply frame_clock_le.
Qed.

(** ** Every way an iteration can go *)

Lemma frame_body_case sb env template data temp_dir frame_num loc st :
  let loc' := advance data (frame_clock sb frame_num) (fst loc) (snd loc) in
  let cur := snd loc' in
  frame_step_case env st cur
    (fill_template template (global_params sb) cur)
    (frame_path_of temp_dir frame_num) loc'
    (frame_body sb env template data temp_dir frame_num loc st).
Proof.
  intros loc' cur.
  set (html := fill_template template (global_params sb) cur).
  set (path := frame_path_of temp_dir frame_num).
  destruct (dict_neq_opt cur (last_params st)) eqn:Hn.
  - destruct (screenshot env html) as [raster|] eqn:Hs.
    + rewrite (frame_body_miss sb env template data temp_dir frame_num loc st
                               raster Hn Hs).
      now apply step_rendered.
    + rewrite (frame_body_render_fails sb env template data temp_dir frame_num
                                       loc st Hn Hs).
      now apply step_render_failed.
  - destruct (last_params st) as [prev|] eqn:Hp; [|discriminate].
    assert (He : dict_eqb cur prev = true)
      by (cbn [dict_neq_opt] in Hn; now apply negb_false_iff in Hn).
    destruct (last_frame_path st) as [previous|] eqn:Hl.
    + destruct (files st previous) as [raster|] eqn:Hf.
      * rewrite (frame_body_hit sb env template data temp_dir frame_num loc st
                                prev previous raster Hp He Hl Hf).
        apply step_copied; auto. now rewrite Hp.
      * replace (frame_body sb env template data temp_dir frame_num loc st)
          with (mkstate (driver st) (last_params st) (last_frame_path st)
                        (files st) (log st ++ [Copy previous path]),
                @Raised (nat * dict) (FileNotFoundError previous)).
        -- apply step_no_file; auto. now rewrite Hp.
        -- unfold frame_body. cbv zeta. cbv [bind get].
           fold loc'. fold cur. fold path.
           rewrite Hp. cbn [dict_neq_opt]. rewrite He. cbn [negb]. rewrite Hl.
           cbv [shutil_copy read_file save_file set_files emit get ret raise bind].
           cbn [files log driver last_params last_frame_path].
           now rewrite Hf, Hp, Hl.
    + replace (frame_body sb env template data temp_dir frame_num loc st)
        with (st, @Raised (nat * dict) (AttributeError "last_frame_path")).
      * apply step_no_path; auto. now rewrite Hp.
      * unfold frame_body. cbv zeta. cbv [bind get].
        fold loc'. fold cur.
        rewrite Hp. cbn [dict_neq_opt]. rewrite He. cbn [negb]. rewrite Hl.
        reflexivity.
Qed.

(** ** The cache-hit branch *)

Lemma written_paths_app a b :
  written_paths (a ++ b) = written_paths a ++ written_paths b.
Proof.
  induction a as [|e a IH]; [reflexivity|].
  cbn [app written_paths]. destruct (written_path e); cbn [app]; now rewrite IH.
Qed.

Lemma copies_follow_nil dir : copies_follow dir [].
Proof. intros [|e before] src dst after H; discriminate. Qed.

(** One more call: a copy has to be the copy of the frame before. *)
Lemma copies_follow_snoc dir calls e :
  copies_follow dir calls ->
  match e with
  | Copy src dst =>
      exists n, src = frame_path_of dir n /\ dst = frame_path_of dir (S n)
                /\ In src (written_paths calls)
  | _ => True
  end ->
  copies_follow dir (calls ++ [e]).
Proof.
  intros Hc He before src dst after Heq.
  destruct (exists_last (l := Copy src dst :: after) ltac:(discriminate))
    as (front & tail_ & Hl).
  rewrite Hl, app_assoc in Heq.
  apply app_inj_tail in Heq as [Hcalls He'].
  destruct front as [|x front]; cbn in Hl.
  - injection Hl as Ht Ha. rewrite app_nil_r in Hcalls.
    subst before tail_ e. exact He.
  - injection Hl as Hx Ha. subst x.
    exact (Hc before src dst front Hcalls).
Qed.

Section LoopCopies.

Variable sb : ScoreBoard.
Variable env : environment.
Variable template : string.
Variable data : list dict.
Variable temp_dir : string.

(** Before frame [k]: nothing is remembered before frame 0; afterwards
    [last_frame_path] is the file of frame [k - 1], created in this run. *)
Let before_frame (k : nat) (st : state) : Prop :=
  match k with
  | O => last_params st = None
  | S j => last_frame_path st = Some (frame_path_of temp_dir j)
           /\ In (frame_path_of temp_dir j) (written_paths (log st))
  end.

Lemma frame_loop_copies m :
  forall k loc st,
    before_frame k st ->
    copies_follow temp_dir (log st) ->
    copies_follow temp_dir
      (log (fst (frame_loop sb env template data temp_dir (seq k m) loc st)))
    /\ snd (frame_loop sb env template data temp_dir (seq k m) loc st)
       <> Raised (AttributeError "last_frame_path")
    /\ driver (fst (frame_loop sb env template data temp_dir (seq k m) loc st))
       = driver st.
Proof.
  induction m as [|m IH]; intros k loc st Hb Hc.
  - cbn. repeat split; [exact Hc | discriminate].
  - cbn [seq frame_loop]. unfold bind.
    assert (C := frame_body_case sb env template data temp_dir k loc st).
    cbv zeta in C.
    set (path := frame_path_of temp_dir k) in *.
    inversion C as [raster Hneq Hs Heq | Hneq Hs Heq | Hneq Hl Heq
                    | previous Hneq Hl Hf Heq | previous raster Hneq Hl Hf Heq].
    + (* rendered *)
      match goal with
      | |- context [frame_loop _ _ _ _ _ _ ?l ?s] =>
          destruct (IH (S k) l s) as (I1 & I2 & I3)
      end.
      * cbn [before_frame last_frame_path log]. split; [reflexivity|].
        rewrite written_paths_app. apply in_or_app. right. now left.
      * cbn [log].
        change [Render (fill_template template (global_params sb)
                          (snd (advance data (frame_clock sb k)
                                        (fst loc) (snd loc)))) path;
                Crop path]
          with ([Render (fill_template template (global_params sb)
                           (snd (advance data (frame_clock sb k)
                                         (fst loc) (snd loc)))) path]
                ++ [Crop path]).
        rewrite app_assoc.
        apply copies_follow_snoc; [|exact I].
        apply copies_follow_snoc; [exact Hc | exact I].
      * split; [exact I1|]. split; [exact I2|]. rewrite I3. reflexivity.
    + (* the browser fails *)
      cbn [fst snd log driver]. repeat split; [|discriminate].
      apply copies_follow_snoc; [exact Hc | exact I].
    + (* no remembered path: excluded *)
      exfalso. destruct (last_params st) as [prev|] eqn:Hp; [|discriminate].
      destruct k as [|j]; cbn [before_frame] in Hb; [congruence|].
      destruct Hb as [Hb _]. congruence.
    + (* the copy fails *)
      destruct (last_params st) as [prev|] eqn:Hp; [|discriminate].
      destruct k as [|j]; cbn [before_frame] in Hb; [congruence|].
      destruct Hb as [Hb Hin]. rewrite Hb in Hl. injection Hl as <-.
      cbn [fst snd log driver]. repeat split; [|discriminate].
      apply copies_follow_snoc; [exact Hc|].
      exists j. repeat split. exact Hin.
    + (* copied *)
      destruct (last_params st) as [prev|] eqn:Hp; [|discriminate].
      destruct k as [|j]; cbn [before_frame] in Hb; [congruence|].
      destruct Hb as [Hb Hin]. rewrite Hb in Hl. injection Hl as <-.
      match goal with
      | |- context [frame_loop _ _ _ _ _ _ ?l ?s] =>
          destruct (IH (S (S j)) l s) as (I1 & I2 & I3)
      end.
      * cbn [before_frame last_frame_path log]. split; [reflexivity|].
        rewrite written_paths_app. apply in_or_app. right. now left.
      * cbn [log]. apply copies_follow_snoc; [exact Hc|].
        exists j. repeat split. exact Hin.
      * split; [exact I1|]. split; [exact I2|]. rewrite I3. reflexivity.
Qed.

End LoopCopies.

(** X1. The cache-hit branch of a run on a fresh [ScoreBoard]: line 173 is
    never reached before a frame has been made, so that the read of
    [self.last_frame_path], which [__init__] does not set, never raises
    [AttributeError]; and every [shutil.copy] of the run takes the file of
    the frame before, which the run has created, to the file of the
    frame. *)
Theorem copies_follow_frames (sb : ScoreBoard) (env : environment)
        (rows : list dict) (template temp_dir output_path : string)
        (fs : store) :
  copies_follow temp_dir
    (log (fst (generate_overlay sb env rows template temp_dir output_path
                                (initial_state fs))))
  /\ snd (generate_overlay sb env rows template temp_dir output_path
                           (initial_state fs))
     <> Raised (AttributeError "last_frame_path").
Proof.
  destruct rows as [|r0 rs] eqn:Er.
  { split; [apply copies_follow_nil | discriminate]. }
  rewrite <- Er. assert (Hrows : rows <> []) by (rewrite Er; discriminate).
  clear Er r0 rs.
  assert (Hlaunch : copies_follow temp_dir ([] ++ [Launch]))
    by (apply copies_follow_snoc; [apply copies_follow_nil | exact I]).
  destruct (chromium_launches env) eqn:Hl.
  2:{ rewrite (generate_overlay_not_launched _ _ _ _ _ _ _ Hrows Hl).
      split; [exact Hlaunch | discriminate]. }
  destruct (total_frames sb (read_csv_data rows)) as [total|] eqn:Ht.
  2:{ rewrite (generate_overlay_overflow _ _ _ _ _ _ _ Hrows Hl Ht).
      split; [exact Hlaunch | discriminate]. }
  rewrite (generate_overlay_launched _ _ _ _ _ _ _ total Hrows Hl Ht).
  cbn [initial_state driver last_params last_frame_path files log].
  set (st1 := mkstate true None None fs _).
  destruct (frame_loop_copies sb env template (read_csv_data rows) temp_dir
              (Z.to_nat total) 0 (0%nat, row_at (read_csv_data rows) 0) st1
              eq_refl Hlaunch) as (Hc & Hne & Hd).
  unfold bind, with_temporary_directory. unfold frame_numbers.
  destruct (frame_loop sb env template (read_csv_data rows) temp_dir
              (seq 0 (Z.to_nat total)) (0%nat, row_at (read_csv_data rows) 0)
              st1) as [st2 [loc2 | e]]; cbn [fst snd] in Hc, Hne, Hd.
  - rewrite encode_video_run.
    assert (He : copies_follow temp_dir
                   (log st2 ++ [Encode (ffmpeg_command sb temp_dir output_path)]))
      by (apply copies_follow_snoc; [exact Hc | exact I]).
    destruct (Z.eqb (returncode (ffmpeg env _)) 0);
      destruct (negb (args_keep sb));
      unfold cleanup_browser, bind, get;
      cbn [driver log files last_params last_frame_path];
      rewrite ?Hd; cbn [driver st1]; cbv [emit]; cbn [fst snd log];
      (split; [|discriminate]);
      repeat (apply copies_follow_snoc; [|exact I]); exact Hc.
  - assert (Hne' : @Raised unit e <> Raised (AttributeError "last_frame_path"))
      by (intros [= ->]; now apply Hne).
    destruct (negb (args_keep sb)); cbn [fst snd log];
      (split; [|exact Hne']);
      repeat (apply copies_follow_snoc; [|exact I]); exact Hc.
Qed.

(** ** How often the browser renders *)

Lemma value_eqb_refl v : value_eqb v v = true.
Proof.
  destruct v as [s | f |]; simpl; [apply String.eqb_refl | | reflexivity].
  apply Qeq_bool_iff, Qeq_refl.
Qed.

Lemma dict_get_unique k v d :
  unique_keys d -> In (k, v) d -> dict_get k d = Some v.
Proof.
  unfold unique_keys. induction d as [|[k' v'] d IH]; intros Hu Hin; [destruct Hin|].
  simpl in Hu. apply NoDup_cons_iff in Hu as [Hnin Hu]. simpl.
  destruct Hin as [[= -> ->] | Hin].
  - now rewrite String.eqb_refl.
  - destruct (String.eqb k' k) eqn:E; [|now apply IH].
    apply String.eqb_eq in E. subst k'. exfalso. apply Hnin.
    change k with (fst (k, v)). now apply in_map.
Qed.

(** A dict equals itself. *)
Lemma dict_eqb_refl d : unique_keys d -> dict_eqb d d = true.
Proof.
  intros Hu. unfold dict_eqb. rewrite Nat.eqb_refl. simpl.
  apply forallb_forall. intros [k v] Hin. cbn [fst snd].
  rewrite (dict_get_unique k v d Hu Hin). apply value_eqb_refl.
Qed.

Lemma render_count_app a b :
  render_count (a ++ b) = (render_count a + render_count b)%nat.
Proof. unfold render_count. now rewrite filter_app, length_app. Qed.

Section Renders.

Variable sb : ScoreBoard.
Variable env : environment.
Variable template : string.
Variable data : list dict.
Variable temp_dir : string.

Hypothesis data_unique : Forall unique_keys data.

(** 0 when the cache holds the parameters of row [idx], 1 otherwise: the
    renders the loop may still spend on the row it stands on. *)
Let pending (st : state) (idx : nat) : nat :=
  match last_params st with
  | Some d => if dict_eqb (row_at data idx) d then 0%nat else 1%nat
  | None => 1%nat
  end.

Lemma row_unique idx : (idx < List.length data)%nat -> unique_keys (row_at data idx).
Proof.
  intros H. rewrite Forall_forall in data_unique.
  apply data_unique, nth_In, H.
Qed.

(** Every render is paid for by a step forward in the table, or by the
    first use of the row the loop stands on. *)
Lemma frame_loop_renders frames :
  forall idx st,
    (idx < List.length data)%nat ->
    (render_count
       (log (fst (frame_loop sb env template data temp_dir frames
                             (idx, row_at data idx) st))) + idx
     <= render_count (log st) + (List.length data - 1) + pending st idx)%nat.
Proof.
  induction frames as [|n frames IH]; intros idx st Hidx.
  - cbn [frame_loop ret fst]. lia.
  - cbn [frame_loop]. unfold bind.
    assert (H := frame_body_case sb env template data temp_dir n
                   (idx, row_at data idx) st).
    cbv zeta in H. cbn [fst snd] in H. rewrite advance_pair in H.
    cbn [snd] in H.
    set (idx' := advance_idx data idx (frame_clock sb n)) in *.
    assert (Hge : (idx <= idx')%nat) by apply advance_idx_ge.
    assert (Hlt : (idx' < List.length data)%nat) by now apply advance_idx_lt.
    assert (Hstay : pending st idx = 0%nat -> idx' = idx ->
                    dict_neq_opt (row_at data idx') (last_params st) = false).
    { unfold pending. intros Hp ->.
      destruct (last_params st) as [d|]; [|discriminate]. cbn [dict_neq_opt].
      destruct (dict_eqb (row_at data idx) d); [reflexivity | discriminate]. }
    assert (Hpend : (pending st idx <= 1)%nat).
    { unfold pending. destruct (last_params st) as [d|]; [|lia].
      destruct (dict_eqb (row_at data idx) d); lia. }
    inversion H as [raster Hn Hs Heq | Hn Hs Heq | Hn Hl Heq
                    | previous Hn Hl Hf Heq | previous raster Hn Hl Hf Heq].
    + match goal with
      | |- context [frame_loop _ _ _ _ _ frames (idx', _) ?s] =>
          specialize (IH idx' s Hlt); set (st1 := s) in *
      end.
      assert (Hp1 : pending st1 idx' = 0%nat).
      { unfold pending, st1. cbn [last_params].
        now rewrite (dict_eqb_refl _ (row_unique idx' Hlt)). }
      assert (Hl1 : render_count (log st1) = S (render_count (log st))).
      { unfold st1. cbn [log]. rewrite render_count_app.
        unfold render_count at 2. simpl. lia. }
      rewrite Hp1, Hl1 in IH.
      destruct (Nat.eq_dec idx' idx) as [E | E].
      * destruct (pending st idx) eqn:Hp0; [|lia].
        rewrite (Hstay eq_refl E) in Hn. discriminate.
      * lia.
    + cbn [fst log]. rewrite render_count_app.
      unfold render_count at 2. simpl.
      destruct (Nat.eq_dec idx' idx) as [E | E].
      * destruct (pending st idx) eqn:Hp0; [|lia].
        rewrite (Hstay eq_refl E) in Hn. discriminate.
      * lia.
    + cbn [fst]. lia.
    + cbn [fst log]. rewrite render_count_app.
      unfold render_count at 2. simpl. lia.
    + match goal with
      | |- context [frame_loop _ _ _ _ _ frames (idx', _) ?s] =>
          specialize (IH idx' s Hlt); set (st1 := s) in *
      end.
      assert (Hp1 : pending st1 idx' = 0%nat).
      { unfold pending, st1. cbn [last_params].
        now rewrite (dict_eqb_refl _ (row_unique idx' Hlt)). }
      assert (Hl1 : render_count (log st1) = render_count (log st)).
      { unfold st1. cbn [log]. rewrite render_count_app.
        unfold render_count at 2. simpl. lia. }
      rewrite Hp1, Hl1 in IH. lia.
Qed.

End Renders.

Lemma insert_row_length x l : List.length (insert_row x l) = S (List.length l).
Proof.
  induction l as [|y l IH]; simpl; [reflexivity|].
  destruct (Qle_bool (timestamp_of x) (timestamp_of y)); simpl; [reflexivity|].
  now rewrite IH.
Qed.

Lemma read_csv_data_length rows :
  List.length (read_csv_data rows) = List.length rows.
Proof.
  induction rows as [|r rows IH]; simpl; [reflexivity|].
  now rewrite insert_row_length, IH.
Qed.

Lemma read_csv_data_Forall (P : dict -> Prop) rows :
  Forall P rows -> Forall P (read_csv_data rows).
Proof.
  rewrite !Forall_forall. intros H x Hx. now apply H, read_csv_data_In.
Qed.

(** X2. The browser renders at most once per row of the table, however
    many frames the run has: with rows that are dicts (one entry per key),
    the number of [render_html_to_image] calls of a whole run of
    [generate_overlay] is at most the number of rows, whether the run
    returns or raises. *)
Theorem renders_at_most_rows (sb : ScoreBoard) (env : environment)
        (rows : list dict) (template temp_dir output_path : string)
        (fs : store) :
  Forall unique_keys rows ->
  (render_count
     (log (fst (generate_overlay sb env rows template temp_dir output_path
                                 (initial_state fs))))
   <= List.length rows)%nat.
Proof.
  intros Hu. rewrite <- (read_csv_data_length rows).
  apply (read_csv_data_Forall unique_keys) in Hu.
  unfold generate_overlay.
  destruct (read_csv_data rows) as [|row0 rest] eqn:Ed; [cbn; lia|].
  set (data := row0 :: rest) in *.
  cbv zeta. unfold bind at 1.
  cbv [setup_browser emit set_driver raise bind].
  destruct (chromium_launches env); [|cbn; lia].
  destruct (total_frames sb data) as [total|]; [|cbn; lia].
  cbn [initial_state driver last_params last_frame_path files log].
  set (st1 := mkstate true None None fs _).
  unfold with_temporary_directory.
  assert (Hl := frame_loop_renders sb env template data temp_dir Hu
                  (frame_numbers total) 0%nat st1
                  ltac:(simpl; lia)).
  cbn [last_params st1 log app] in Hl.
  change (render_count [Launch]) with 0%nat in Hl.
  destruct (frame_loop sb env template data temp_dir _ _ st1)
    as [st2 [loc2 | e2]]; cbn [fst] in Hl.
  - rewrite encode_video_run.
    destruct (Z.eqb (returncode (ffmpeg env _)) 0).
    + destruct (negb (args_keep sb));
        cbv [cleanup_browser get bind emit ret]; cbn [driver];
        match goal with
        | |- context [if ?b then _ else _] => destruct b
        end; cbn [fst log]; rewrite ?render_count_app;
        repeat (match goal with
                | |- context [render_count [?e]] =>
                    change (render_count [e]) with 0%nat
                end); simpl in *; lia.
    + destruct (negb (args_keep sb)); cbn [fst log];
        rewrite ?render_count_app;
        repeat (match goal with
                | |- context [render_count [?e]] =>
                    change (render_count [e]) with 0%nat
                end); simpl in *; lia.
  - destruct (negb (args_keep sb)); cbn [fst log];
      rewrite ?render_count_app;
      repeat (match goal with
              | |- context [render_count [?e]] =>
                  change (render_count [e]) with 0%nat
              end); simpl in *; lia.
Qed.

(** Two rows, three frames, two renders. *)
Lemma renders_at_most_rows_witness :
  (render_count
     (log (fst (generate_overlay (board 1) env_ok table_AB "<b>{{x}}</b>"
                                 "/tmp/t" "out.mov" (initial_state no_files))))
   <= List.length table_AB)%nat.
Proof.
  apply (renders_at_most_rows (board 1) env_ok table_AB "<b>{{x}}</b>"
                              "/tmp/t" "out.mov" no_files).
  repeat constructor; simpl; intuition discriminate.
Defined.

(** ** Frame file names *)

Lemma of_uint_leading_zero d : Nat.of_uint (Decimal.D0 d) = Nat.of_uint d.
Proof. reflexivity. Qed.

Lemma frame_number_of_zeros k s :
  frame_number_of (zeros k ++ s) = frame_number_of s.
Proof.
  unfold frame_number_of. induction k as [|k IH]; [reflexivity|].
  cbn [zeros append NilEmpty.uint_of_string].
  destruct (NilEmpty.uint_of_string (zeros k ++ s)) as [d|] eqn:E;
    destruct (NilEmpty.uint_of_string s) as [d'|] eqn:E';
    cbn in *; try discriminate; auto.
Qed.

Lemma frame_number_of_digits d :
  frame_number_of (NilZero.string_of_uint d) = Some (Nat.of_uint d).
Proof.
  unfold frame_number_of.
  destruct d; try reflexivity;
    match goal with
    | |- context [NilZero.string_of_uint ?u] =>
        change (NilZero.string_of_uint u) with (NilEmpty.string_of_uint u)
    end; now rewrite NilEmpty.usu.
Qed.

Lemma frame_number_of_format n : frame_number_of (format_06d n) = Some n.
Proof.
  unfold format_06d. cbv zeta.
  now rewrite frame_number_of_zeros, frame_number_of_digits, DecimalNat.Unsigned.of_to.
Qed.

Lemma format_06d_injective n m : format_06d n = format_06d m -> n = m.
Proof.
  intros H. apply (f_equal frame_number_of) in H.
  rewrite !frame_number_of_format in H. congruence.
Qed.

Lemma append_length a b :
  String.length (a ++ b) = (String.length a + String.length b)%nat.
Proof. induction a as [|x a IH]; simpl; [reflexivity | now rewrite IH]. Qed.

Lemma append_cancel_l a x y : (a ++ x = a ++ y)%string -> x = y.
Proof.
  induction a as [|c a IH]; simpl; [auto|]. intros [= H]. now apply IH.
Qed.

Lemma append_cancel_r s x y : (x ++ s = y ++ s)%string -> x = y.
Proof.
  intros H.
  assert (Hlen : String.length x = String.length y).
  { apply (f_equal String.length) in H. rewrite !append_length in H. lia. }
  revert y H Hlen; induction x as [|c x IH]; intros [|d y] H Hlen;
    simpl in Hlen; try discriminate; [reflexivity|].
  simpl in H. injection H as -> H. f_equal. apply IH; [exact H | lia].
Qed.

Lemma frame_path_of_injective dir n m :
  frame_path_of dir n = frame_path_of dir m -> n = m.
Proof.
  unfold frame_path_of, path_join. intros H.
  apply append_cancel_l in H. apply (append_cancel_l "/") in H.
  apply (append_cancel_l "frame_") in H.
  apply append_cancel_r in H. now apply format_06d_injective.
Qed.

Lemma format_06d_length n :
  (6 <= String.length (format_06d n))%nat.
Proof.
  unfold format_06d. cbv zeta. rewrite append_length.
  assert (Hz : forall k, String.length (zeros k) = k)
    by (induction k as [|k IH]; simpl; [reflexivity | now rewrite IH]).
  rewrite Hz. lia.
Qed.

(** X3. Frame file names: reading the digits of a name back gives the
    frame number, the name has at least six characters, distinct frames
    get distinct paths in the directory and every path lies below it, so
    no frame overwrites another and removing the directory removes them
    all. *)
Theorem frame_paths_distinct (dir : string) (n : nat) :
  frame_number_of (format_06d n) = Some n
  /\ (6 <= String.length (format_06d n))%nat
  /\ under dir (frame_path_of dir n) = true
  /\ forall m, frame_path_of dir n = frame_path_of dir m -> n = m.
Proof.
  split; [apply frame_number_of_format|].
  split; [apply format_06d_length|]. split.
  - unfold under, frame_path_of, path_join.
    rewrite <- append_assoc. apply prefix_append.
  - intros m. apply frame_path_of_injective.
Qed.

(** ** The event of every frame *)

Lemma frame_index_step sb data n :
  frame_index sb data n
  = advance_idx data (resolve_from data 0 (map (frame_clock sb) (seq 0 n)))
                (frame_clock sb n).
Proof.
  unfold frame_index. rewrite seq_S, map_app. cbn [map Nat.add].
  apply resolve_from_snoc.
Qed.

Lemma frame_index_S sb data n :
  frame_index sb data (S n)
  = advance_idx data (frame_index sb data n) (frame_clock sb (S n)).
Proof. rewrite frame_index_step. reflexivity. Qed.

Section LoopValue.

Variable sb : ScoreBoard.
Variable env : environment.
Variable template : string.
Variable data : list dict.
Variable temp_dir : string.

(** The index and parameters the loop carries are those of the scan,
    whatever the collaborators do. *)
Lemma frame_loop_value frames :
  forall idx st st' loc',
    frame_loop sb env template data temp_dir frames (idx, row_at data idx) st
    = (st', Ok loc') ->
    loc' = (resolve_from data idx (map (frame_clock sb) frames),
            row_at data (resolve_from data idx (map (frame_clock sb) frames))).
Proof.
  induction frames as [|n frames IH]; intros idx st st' loc' H.
  - cbn in H. now injection H as _ <-.
  - cbn [frame_loop] in H. unfold bind in H.
    assert (C := frame_body_case sb env template data temp_dir n
                   (idx, row_at data idx) st).
    cbv zeta in C. cbn [fst snd] in C. rewrite advance_pair in C.
    cbn [map]. unfold resolve_from. cbn [fold_left].
    fold (resolve_from data (advance_idx data idx (frame_clock sb n))
                       (map (frame_clock sb) frames)).
    inversion C as [raster Hn Hs Heq | Hn Hs Heq | Hn Hl Heq
                    | previous Hn Hl Hf Heq | previous raster Hn Hl Hf Heq];
      rewrite <- Heq in H; try discriminate; now apply IH in H.
Qed.

End LoopValue.

(** X4. The parameters of every frame: at a positive frame rate, on the
    table [read_csv_data] returns, the frame loop stands after frame
    [frame_num] on the last event whose timestamp is at most the frame's
    clock time [frame_num / fps], or on the first event when none is; a
    loop over frames [0..frame_num] that returns carries exactly that index
    and row. *)
Theorem frame_parameters_active (sb : ScoreBoard) (rows : list dict)
        (frame_num : nat) :
  rows <> [] ->
  (0 < fps sb)%Z ->
  let data := read_csv_data rows in
  active_index data (frame_clock sb frame_num) (frame_index sb data frame_num)
  /\ forall env template temp_dir st st' loc',
      frame_loop sb env template data temp_dir (seq 0 (S frame_num))
                 (0%nat, row_at data 0) st = (st', Ok loc') ->
      loc' = (frame_index sb data frame_num,
              row_at data (frame_index sb data frame_num)).
Proof.
  intros Hrows Hfps data. split.
  - rewrite frame_index_step.
    assert (Hnd : nondecreasing (map (frame_clock sb) (seq 0 frame_num)
                                 ++ [frame_clock sb frame_num])).
    { assert (H := frame_clock_nondecreasing sb (S frame_num) Hfps).
      now rewrite seq_S, map_app in H. }
    destruct (resolve_from_start data _ _ (read_csv_data_nonempty rows Hrows)
                                 (read_csv_data_sorted rows) Hnd)
      as (Hi & t0 & Ht0 & Hinv).
    exact (advance_idx_active data _ t0 _ (read_csv_data_sorted rows) Hi Ht0 Hinv).
  - intros env template temp_dir st st' loc' H.
    now apply frame_loop_value in H.
Qed.

(** At one frame per second on [(0.0, x=A), (2.0, x=B)], frame 2 stands on
    the second event, frame 1 on the first. *)
Lemma frame_parameters_active_witness :
  frame_index (board 1) (read_csv_data table_AB) 2 = 1%nat
  /\ frame_index (board 1) (read_csv_data table_AB) 1 = 0%nat
  /\ active_index (read_csv_data table_AB) (frame_clock (board 1) 2)
                  (frame_index (board 1) (read_csv_data table_AB) 2).
Proof.
  split; [reflexivity|]. split; [reflexivity|].
  apply (frame_parameters_active (board 1) table_AB 2).
  - discriminate.
  - reflexivity.
Defined.

(** ** The temporary directory *)

Lemma under_frame_path dir n : under dir (frame_path_of dir n) = true.
Proof.
  unfold under, frame_path_of, path_join.
  rewrite <- append_assoc. apply prefix_append.
Qed.

Lemma write_file_outside dir n img fs p :
  under dir p = false -> write_file (frame_path_of dir n) img fs p = fs p.
Proof.
  intros Hp. apply write_file_other. intros ->.
  rewrite under_frame_path in Hp. discriminate.
Qed.

Section Confined.

Variable sb : ScoreBoard.
Variable env : environment.
Variable template : string.
Variable data : list dict.
Variable temp_dir : string.

Lemma frame_body_outside frame_num loc st p :
  under temp_dir p = false ->
  files (fst (frame_body sb env template data temp_dir frame_num loc st)) p
  = files st p.
Proof.
  intros Hp.
  assert (C := frame_body_case sb env template data temp_dir frame_num loc st).
  cbv zeta in C.
  inversion C as [raster Hn Hs Heq | Hn Hs Heq | Hn Hl Heq
                  | previous Hn Hl Hf Heq | previous raster Hn Hl Hf Heq];
    cbn [fst files]; try reflexivity.
  - destruct (cropped_image raster); now rewrite !write_file_outside.
  - now rewrite write_file_outside.
Qed.

Lemma frame_loop_outside frames p :
  under temp_dir p = false ->
  forall loc st,
    files (fst (frame_loop sb env template data temp_dir frames loc st)) p
    = files st p.
Proof.
  intros Hp. induction frames as [|n frames IH]; intros loc st; [reflexivity|].
  cbn [frame_loop]. unfold bind.
  assert (Hb := frame_body_outside n loc st p Hp).
  destruct (frame_body sb env template data temp_dir n loc st) as [st1 [loc1 | e]];
    cbn [fst] in *.
  - now rewrite IH.
  - exact Hb.
Qed.

Lemma frames_and_encoding_outside frames output_path loc st p :
  under temp_dir p = false ->
  files (fst (bind (frame_loop sb env template data temp_dir frames loc)
                   (fun _ => encode_video sb env temp_dir output_path) st)) p
  = files st p.
Proof.
  intros Hp. unfold bind.
  assert (Hb := frame_loop_outside frames p Hp loc st).
  destruct (frame_loop sb env template data temp_dir frames loc st)
    as [st1 [loc1 | e]]; cbn [fst] in *; [|exact Hb].
  rewrite encode_video_run. cbn [fst files]. exact Hb.
Qed.

End Confined.

Lemma cleanup_browser_files st : files (fst (cleanup_browser st)) = files st.
Proof.
  unfold cleanup_browser, bind, get. destruct (driver st); reflexivity.
Qed.

Lemma then_cleanup_files {A} (c : M A) st :
  files (fst (bind c (fun _ => cleanup_browser) st)) = files (fst (c st)).
Proof.
  unfold bind. destruct (c st) as [st1 [a | e]]; cbn [fst]; [|reflexivity].
  apply cleanup_browser_files.
Qed.

(** X5. The temporary directory: whatever the collaborators do and however
    the run ends, [generate_overlay] writes no file outside the temporary
    directory; and without [--keep], once the rows are there and the
    browser has started, no file is left below the temporary directory when
    the run is over, whether it returned or raised (a run whose frame
    count overflows raises before the directory is made, and changes no
    file at all). *)
Theorem temporary_directory_confined (sb : ScoreBoard) (env : environment)
        (rows : list dict) (template temp_dir output_path : string)
        (st : state) :
  let st' := fst (generate_overlay sb env rows template temp_dir output_path st)
  in
  (forall p, under temp_dir p = false -> files st' p = files st p)
  /\ (rows <> [] -> chromium_launches env = true -> args_keep sb = false ->
      forall p, under temp_dir p = true ->
        files st' p = match total_frames sb (read_csv_data rows) with
                      | Some _ => None
                      | None => files st p
                      end).
Proof.
  intros st'. subst st'. split.
  - intros p Hp. destruct rows as [|row0 rest] eqn:Er; [reflexivity|].
    rewrite <- Er in *.
    assert (Hrows : rows <> []) by (rewrite Er; discriminate).
    destruct (chromium_launches env) eqn:Hl;
      [|now rewrite (generate_overlay_not_launched _ _ _ _ _ _ _ Hrows Hl)].
    destruct (total_frames sb (read_csv_data rows)) as [total|] eqn:Ht;
      [|now rewrite (generate_overlay_overflow _ _ _ _ _ _ _ Hrows Hl Ht)].
    rewrite (generate_overlay_launched _ _ _ _ _ _ _ total Hrows Hl Ht).
    rewrite then_cleanup_files. unfold with_temporary_directory.
    set (st1 := mkstate true _ _ _ _).
    assert (Hb := frames_and_encoding_outside sb env template
                    (read_csv_data rows) temp_dir (frame_numbers total)
                    output_path (0%nat, row_at (read_csv_data rows) 0) st1 p Hp).
    destruct (bind _ _ st1) as [st2 r]. cbn [fst] in Hb.
    destruct (negb (args_keep sb)); cbn [fst files]; [|exact Hb].
    unfold remove_tree. unfold under in Hp. rewrite Hp. exact Hb.
  - intros Hrows Hl Hk p Hp.
    destruct (total_frames sb (read_csv_data rows)) as [total|] eqn:Et;
      [|now rewrite (generate_overlay_overflow _ _ _ _ _ _ _ Hrows Hl Et)].
    rewrite (generate_overlay_launched _ _ _ _ _ _ _ total Hrows Hl Et).
    rewrite then_cleanup_files. unfold with_temporary_directory.
    destruct (bind _ _ _) as [st2 r]. rewrite Hk. cbn [negb fst files].
    unfold remove_tree. unfold under in Hp. now rewrite Hp.
Qed.

(** A run that fails on frame 0 with a file already in place: the file
    below the temporary directory is gone, the one beside it untouched. *)
Lemma temporary_directory_confined_witness :
  let fs := write_file "/tmp/t/old.png" canvas_clear
              (write_file "/tmp/u.png" canvas_rgb no_files) in
  let st' := fst (generate_overlay (board 1) env_render_fails table_AB
                    "<b>{{x}}</b>" "/tmp/t" "out.mov" (initial_state fs)) in
  files st' "/tmp/u.png" = Some canvas_rgb
  /\ files st' "/tmp/t/old.png" = None.
Proof.
  intros fs st'.
  destruct (temporary_directory_confined (board 1) env_render_fails table_AB
              "<b>{{x}}</b>" "/tmp/t" "out.mov" (initial_state fs)) as [Hout Hin].
  split.
  - exact (Hout "/tmp/u.png"%string eq_refl).
  - etransitivity.
    + apply Hin.
      * discriminate.
      * reflexivity.
      * reflexivity.
      * reflexivity.
    + vm_compute. reflexivity.
Defined.

(** ** [read_csv_data]: the sort of line 80 *)

Lemma insert_row_Permutation x l : Permutation (x :: l) (insert_row x l).
Proof.
  induction l as [|y r IH]; [apply Permutation_refl|].
  cbn [insert_row]. destruct (Qle_bool (timestamp_of x) (timestamp_of y)).
  - apply Permutation_refl.
  - eapply Permutation_trans; [apply perm_swap|]. now apply perm_skip.
Qed.

(** A row never moves across a row of the same timestamp. *)
Lemma insert_row_at_time q x l :
  filter (at_time q) (insert_row x l) = filter (at_time q) (x :: l).
Proof.
  induction l as [|y r IH]; [reflexivity|].
  cbn [insert_row].
  destruct (Qle_bool (timestamp_of x) (timestamp_of y)) eqn:Hle; [reflexivity|].
  cbn [filter]. rewrite IH. cbn [filter].
  destruct (at_time q y) eqn:Hy; [|reflexivity].
  destruct (at_time q x) eqn:Hx; [|reflexivity].
  exfalso. unfold at_time in Hx, Hy.
  apply Qeq_bool_iff in Hx, Hy.
  assert (Hc : Qle_bool (timestamp_of x) (timestamp_of y) = true).
  { apply Qle_bool_iff. rewrite Hx, Hy. apply Qle_refl. }
  congruence.
Qed.

(** X6. [read_csv_data] is a stable sort: it returns the rows of the
    file, each as often as it occurs there, in non-decreasing order of
    timestamp, and the rows of one timestamp in the order of the file. *)
Theorem read_csv_data_stable_sort (rows : list dict) :
  Permutation rows (read_csv_data rows)
  /\ timeline_sorted (read_csv_data rows)
  /\ forall q, filter (at_time q) (read_csv_data rows)
               = filter (at_time q) rows.
Proof.
  split; [|split; [apply read_csv_data_sorted|]].
  - induction rows as [|x rows IH]; [apply Permutation_refl|].
    change (read_csv_data (x :: rows))
      with (insert_row x (read_csv_data rows)).
    eapply Permutation_trans; [|apply insert_row_Permutation].
    now apply perm_skip.
  - intros q. induction rows as [|x rows IH]; [reflexivity|].
    change (read_csv_data (x :: rows))
      with (insert_row x (read_csv_data rows)).
    rewrite insert_row_at_time. cbn [filter]. now rewrite IH.
Qed.

(** ** [ScoreBoard.__init__]: the [--set] options *)

Lemma py_split_nonempty sep s : py_split sep s <> [].
Proof.
  destruct s as [|c s]; cbn [py_split]; [discriminate|].
  destruct (Ascii.eqb c sep); [discriminate|].
  destruct (py_split sep s); discriminate.
Qed.

Lemma py_split_whole sep s :
  contains_char sep s = false -> py_split sep s = [s].
Proof.
  induction s as [|c s IH]; intros H; [reflexivity|].
  cbn [contains_char] in H. apply orb_false_iff in H as [Hc Hs].
  cbn [py_split]. rewrite Hc, (IH Hs). reflexivity.
Qed.

(** The first segment ends at the first separator. *)
Lemma py_split_first sep name rest :
  contains_char sep name = false ->
  py_split sep (name ++ String sep rest) = name :: py_split sep rest.
Proof.
  induction name as [|c name IH]; intros H.
  - cbn [append py_split]. now rewrite Ascii.eqb_refl.
  - cbn [contains_char] in H. apply orb_false_iff in H as [Hc Hs].
    cbn [append py_split]. rewrite Hc, (IH Hs). reflexivity.
Qed.

Lemma contains_char_append sep a b :
  contains_char sep (a ++ b) = contains_char sep a || contains_char sep b.
Proof.
  induction a as [|c a IH]; [reflexivity|].
  cbn [append contains_char]. rewrite IH. apply orb_assoc.
Qed.

Lemma set_global_params_ok params :
  forall acc,
    forallb (contains_char "=") params = true ->
    exists d, set_global_params params acc = Ok d.
Proof.
  induction params as [|p params IH]; intros acc H; [now exists acc|].
  cbn [forallb] in H. apply andb_true_iff in H as [Hp Hr].
  cbn [set_global_params]. rewrite Hp. cbn [negb]. now apply IH.
Qed.

Lemma set_global_params_raises params :
  forall acc,
    forallb (contains_char "=") params = false ->
    set_global_params params acc
    = Raised (Exception "--set value should use the format name=value").
Proof.
  induction params as [|p params IH]; intros acc H; [discriminate|].
  cbn [forallb] in H. cbn [set_global_params].
  destruct (contains_char "=" p); cbn [negb andb] in *; [|reflexivity].
  now apply IH.
Qed.

(** X7. The [--set] options: an option [NAME=VAL], and an option
    [NAME=VAL=MORE] alike, binds [NAME] (the text before the first [=],
    possibly empty) to [VAL] (the text up to the second [=], if there is
    one): what follows a second [=] is dropped.  The constructor returns
    when every option holds a [=] and raises [Exception] with the message
    of line 40 otherwise. *)
Theorem set_option_parsed (name value : string) (more : option string)
        (params : list string) (acc : dict) :
  contains_char "=" name = false ->
  contains_char "=" value = false ->
  set_global_params
    ((name ++ "=" ++ value ++ option_tail more)%string :: params) acc
  = set_global_params params (dict_set name (VStr value) acc)
  /\ (forall args,
        forallb (contains_char "=") (arg_params args) = true ->
        exists sb, ScoreBoard_init args = Ok sb)
  /\ (forall args,
        forallb (contains_char "=") (arg_params args) = false ->
        ScoreBoard_init args
        = Raised (Exception "--set value should use the format name=value")).
Proof.
  intros Hn Hv. split; [|split].
  - cbn [set_global_params].
    change ("=" ++ value ++ option_tail more)%string
      with (String "=" (value ++ option_tail more)).
    rewrite contains_char_append. cbn [contains_char].
    rewrite Ascii.eqb_refl, orb_true_r. cbn [negb orb].
    rewrite (py_split_first "=" name _ Hn). cbn [nth].
    destruct more as [rest|]; cbn [option_tail].
    + change ("=" ++ rest)%string with (String "=" rest).
      rewrite (py_split_first "=" value _ Hv). reflexivity.
    + rewrite append_empty_r, (py_split_whole "=" value Hv). reflexivity.
  - intros args H. unfold ScoreBoard_init.
    destruct (set_global_params_ok (arg_params args) [] H) as (d & ->).
    eexists. reflexivity.
  - intros args H. unfold ScoreBoard_init.
    now rewrite (set_global_params_raises (arg_params args) [] H).
Qed.

(** [--set team=Reds=United --set team=Blues]: the first option binds
    [team] to [Reds], the second replaces it. *)
Lemma set_option_parsed_witness :
  set_global_params ["team=Reds=United"; "team=Blues"] []
  = Ok [("team", VStr "Blues")].
Proof.
  etransitivity.
  - apply (set_option_parsed "team" "Reds" (Some "United"%string)
             ["team=Blues"] []); reflexivity.
  - reflexivity.
Defined.

(** ** creator.py against scoreboard.py *)






(** With different viewports the two do not make the same frame: frame 0
    is two pixels wide for a generator of width 2, three for a viewport of
    width 3. *)
Example creator_viewport_matters :
  files (fst (creator_frame_loop (mkgenerator 2 1 1) world_sized "<b>{{x}}</b>"
                table_AB "/tmp/t" [0%nat] (0%nat, row_at table_AB 0)
                (initial_state no_files)))
        (frame_path_of "/tmp/t" 0)
  <> files (fst (frame_loop (board 1) (at_viewport world_sized 3 1)
                   "<b>{{x}}</b>" table_AB "/tmp/t" [0%nat]
                   (0%nat, row_at table_AB 0) (initial_state no_files)))
           (frame_path_of "/tmp/t" 0).
Proof. vm_compute. discriminate. Qed.

(** ** [read_csv_data]: the conversion of line 76 *)

Lemma dict_keys_set_present k v d :
  dict_get k d <> None -> dict_keys (dict_set k v d) = dict_keys d.
Proof.
  induction d as [|[k' v'] r IH]; intros H; [now cbn in H|].
  cbn [dict_get] in H. cbn [dict_set].
  destruct (String.eqb k' k) eqn:E; [reflexivity|].
  cbn [dict_keys map fst]. f_equal. now apply IH.
Qed.

Section Convert.

Variable py_float : string -> option pyfloat.

Lemma convert_row_ok row row' :
  convert_row py_float row = inr row' -> converted row row'.
Proof.
  unfold convert_row.
  destruct (dict_get "timestamp" row) as [[text | f |] |] eqn:Hg;
    try discriminate.
  - destruct (py_float text) as [f|]; [|discriminate].
    intros [= <-]. split; [|split].
    + apply dict_keys_set_present. congruence.
    + exists f. apply dict_get_set_same.
    + intros k Hk. apply dict_get_set_other. congruence.
  - intros [= <-]. split; [|split].
    + apply dict_keys_set_present. congruence.
    + exists f. apply dict_get_set_same.
    + intros k Hk. apply dict_get_set_other. congruence.
Qed.

Lemma convert_row_fails row e :
  convert_row py_float row = inl e -> conversion_fails py_float row e.
Proof.
  unfold convert_row.
  destruct (dict_get "timestamp" row) as [[text | f |] |] eqn:Hg.
  - destruct (py_float text) as [f|] eqn:Hf; [discriminate|].
    intros [= <-]. now split.
  - discriminate.
  - intros [= <-]. exact Hg.
  - intros [= <-]. now split.
Qed.

End Convert.

(** X9. The conversion of the timestamp column: when [read_csv_data]
    gets through the file, every row keeps its columns in their order and
    its other cells, and holds a float under [timestamp]; when it does not,
    the error is that of the first row, in file order, that has no
    [timestamp] column ([KeyError]), no cell in it ([TypeError] from
    [float(None)]) or a text that [float] rejects ([ValueError]), every
    row before it being fine. *)
Theorem convert_rows_contract (py_float : string -> option pyfloat)
        (raw : list dict) :
  match convert_rows py_float raw with
  | inr rows => Forall2 converted raw rows
  | inl e =>
      exists before row after rows,
        raw = before ++ row :: after
        /\ convert_rows py_float before = inr rows
        /\ conversion_fails py_float row e
  end.
Proof.
  induction raw as [|row raw IH]; [constructor|].
  cbn [convert_rows].
  destruct (convert_row py_float row) as [e | row'] eqn:Hr.
  - exists [], row, raw, []. repeat split. now apply convert_row_fails.
  - destruct (convert_rows py_float raw) as [e | rows].
    + destruct IH as (before & bad & after & rows & -> & Hb & Hf).
      exists (row :: before), bad, after, (row' :: rows).
      split; [reflexivity|]. split; [|exact Hf].
      cbn [convert_rows]. now rewrite Hr, Hb.
    + constructor; [|exact IH]. now apply (convert_row_ok py_float).
Qed.

(** A line that ends before the timestamp column: [float(None)] raises
    [TypeError] on the second row. *)
Example convert_rows_short_line :
  convert_rows float_AB raw_short = inl FloatTypeError.
Proof. reflexivity. Qed.

(** ** A run that succeeds *)

Section Written.

Variable sb : ScoreBoard.
Variable env : environment.
Variable template : string.
Variable data : list dict.
Variable temp_dir : string.

(** An iteration that returns has created the file of its frame and no
    other. *)
Lemma frame_body_written frame_num loc st :
  exists calls,
    log (fst (frame_body sb env template data temp_dir frame_num loc st))
    = log st ++ calls
    /\ Forall is_frame_event calls
    /\ driver (fst (frame_body sb env template data temp_dir frame_num loc st))
       = driver st
    /\ (forall loc',
          snd (frame_body sb env template data temp_dir frame_num loc st)
          = Ok loc' ->
          written_paths calls = [frame_path_of temp_dir frame_num]).
Proof.
  assert (C := frame_body_case sb env template data temp_dir frame_num loc st).
  cbv zeta in C.
  inversion C as [raster Hn Hs Heq | Hn Hs Heq | Hn Hl Heq
                  | previous Hn Hl Hf Heq | previous raster Hn Hl Hf Heq];
    cbn [fst snd log driver].
  1,2,4,5: eexists; split; [reflexivity|]; split; [repeat constructor|];
    split; [reflexivity|]; intros loc0 H0; (reflexivity || discriminate).
  exists []. rewrite app_nil_r. repeat split; auto. discriminate.
Qed.

Lemma frame_loop_written frames :
  forall loc st,
    exists calls,
      log (fst (frame_loop sb env template data temp_dir frames loc st))
      = log st ++ calls
      /\ Forall is_frame_event calls
      /\ driver (fst (frame_loop sb env template data temp_dir frames loc st))
         = driver st
      /\ (forall loc',
            snd (frame_loop sb env template data temp_dir frames loc st)
            = Ok loc' ->
            written_paths calls = map (frame_path_of temp_dir) frames).
Proof.
  induction frames as [|n frames IH]; intros loc st.
  - exists []. cbn. rewrite app_nil_r. auto.
  - cbn [frame_loop]. unfold bind.
    destruct (frame_body_written n loc st) as (c1 & Hl1 & Hp1 & Hd1 & Hw1).
    destruct (frame_body sb env template data temp_dir n loc st)
      as [st1 [loc1 | e]]; cbn [fst snd] in *.
    + destruct (IH loc1 st1) as (c2 & Hl2 & Hp2 & Hd2 & Hw2).
      exists (c1 ++ c2). split; [|split; [|split]].
      * now rewrite Hl2, Hl1, app_assoc.
      * apply Forall_app. now split.
      * congruence.
      * intros loc' Hr. rewrite written_paths_app, (Hw1 loc1 eq_refl),
          (Hw2 loc' Hr). reflexivity.
    + exists c1. repeat split; auto. discriminate.
Qed.

End Written.

Lemma ScoreBoard_init_fields args sb :
  ScoreBoard_init args = Ok sb ->
  fps sb = arg_fps args /\ codec sb = arg_codec args
  /\ args_duration sb = arg_duration args
  /\ args_ffmpeg_extras sb = arg_ffmpeg_extras args
  /\ args_keep sb = arg_keep args
  /\ set_global_params (arg_params args) [] = Ok (global_params sb).
Proof.
  unfold ScoreBoard_init.
  destruct (set_global_params (arg_params args) []) as [d | e]; [|discriminate].
  intros [= <-]. repeat split.
Qed.

(** X10. A run of [main] that returns: the command line was parsed,
    the options accepted, the two files read and every timestamp
    converted; the browser was launched; the frames
    [0 .. total_frames - 1] were created one after the other, each once,
    under the names [frame_%06d.png] of the temporary directory; then the
    encoder ran once on that directory and exited with status 0; then the
    directory was removed, unless [--keep] was given; the browser was
    closed last.  A process that the parser ends (with status 0 after
    [--help]) does none of this. *)
Theorem main_success (py_float : string -> option pyfloat)
        (cmdline : command_line) (env : environment)
        (csv : option (list dict)) (template : option string)
        (temp_dir : string) (st : state) :
  snd (main py_float cmdline env csv template temp_dir st) = Returned ->
  exists args sb raw rows total frame_calls,
    cmdline = Parsed args
    /\ ScoreBoard_init args = Ok sb
    /\ csv = Some raw
    /\ convert_rows py_float raw = inr rows
    /\ template <> None
    /\ total_frames sb (read_csv_data rows) = Some total
    /\ log (fst (main py_float cmdline env csv template temp_dir st))
       = log st ++ [Launch] ++ frame_calls
         ++ [Encode (ffmpeg_command sb temp_dir (output_file args))]
         ++ (if arg_keep args then [] else [RemoveDir temp_dir])
         ++ [Close]
    /\ Forall is_frame_event frame_calls
    /\ written_paths frame_calls
       = map (frame_path_of temp_dir) (frame_numbers total)
    /\ returncode (ffmpeg env (ffmpeg_command sb temp_dir (output_file args)))
       = 0%Z.
Proof.
  unfold main.
  destruct cmdline as [args | status]; [|discriminate].
  destruct (ScoreBoard_init args) as [sb | e] eqn:Hi; [|discriminate].
  destruct csv as [raw|]; [|discriminate].
  destruct (convert_rows py_float raw) as [e | rows] eqn:Hc; [discriminate|].
  destruct rows as [|row0 rest] eqn:Er; [discriminate|]. rewrite <- Er in *.
  assert (Hrows : rows <> []) by (rewrite Er; discriminate).
  clear Er row0 rest.
  destruct template as [text|]; [|discriminate].
  destruct (ScoreBoard_init_fields args sb Hi) as (_ & _ & _ & _ & Hk & _).
  destruct (generate_overlay sb env rows text temp_dir (output_file args) st)
    as [st' r] eqn:Hrun.
  cbn [fst snd]. destruct r as [[] | e]; [|discriminate]. intros _.
  exists args, sb, raw, rows.
  destruct (chromium_launches env) eqn:Hl;
    [|rewrite (generate_overlay_not_launched _ _ _ _ _ _ _ Hrows Hl) in Hrun;
      discriminate].
  destruct (total_frames sb (read_csv_data rows)) as [total|] eqn:Ht;
    [|rewrite (generate_overlay_overflow _ _ _ _ _ _ _ Hrows Hl Ht) in Hrun;
      discriminate].
  rewrite (generate_overlay_launched _ _ _ _ _ _ _ total Hrows Hl Ht) in Hrun.
  unfold bind at 1, with_temporary_directory, bind in Hrun.
  set (st1 := mkstate true _ _ _ _) in Hrun.
  destruct (frame_loop_written sb env text (read_csv_data rows) temp_dir
              (frame_numbers total)
              (0%nat, row_at (read_csv_data rows) 0) st1)
    as (calls & Hlog & Hp & Hd & Hw).
  destruct (frame_loop sb env text (read_csv_data rows) temp_dir _ _ st1)
    as [st2 [loc2 | e]]; cbn [fst snd] in *.
  - rewrite encode_video_run in Hrun. cbv zeta in Hrun.
    destruct (Z.eqb (returncode (ffmpeg env (ffmpeg_command sb temp_dir
                                               (output_file args)))) 0) eqn:Hz.
    + exists total, calls. split; [reflexivity|]. split; [exact Hi|].
      split; [reflexivity|]. split; [exact Hc|].
      split; [discriminate|]. split; [reflexivity|].
      apply Z.eqb_eq in Hz.
      split; [|split; [exact Hp|split; [exact (Hw loc2 eq_refl)|exact Hz]]].
      rewrite <- Hk.
      destruct (args_keep sb); cbn [negb] in Hrun;
        unfold cleanup_browser, bind, get in Hrun;
        cbn [driver log files last_params last_frame_path] in Hrun;
        rewrite Hd in Hrun; cbn [driver st1] in Hrun;
        cbv [emit] in Hrun;
        cbn [driver log files last_params last_frame_path] in Hrun;
        injection Hrun as <-; cbn [log]; rewrite Hlog; cbn [log st1];
        rewrite <- !app_assoc; reflexivity.
    + destruct (negb (args_keep sb)); discriminate.
  - destruct (negb (args_keep sb)); discriminate.
Qed.

(** [scoreboard.py -f 1] on [(0.0, x=A), (2.0, x=B)] with collaborators
    that work: three frames, the encoder, the removal, the browser
    closed. *)
Lemma main_success_witness :
  snd (main float_AB (Parsed args_plain) env_ok (Some raw_AB)
            (Some "<b>{{x}}</b>"%string) "/tmp/t" (initial_state no_files))
  = Returned
  /\ exists frame_calls,
      log (fst (main float_AB (Parsed args_plain) env_ok (Some raw_AB)
                     (Some "<b>{{x}}</b>"%string) "/tmp/t"
                     (initial_state no_files)))
      = [Launch] ++ frame_calls
        ++ [Encode (ffmpeg_command (board 1) "/tmp/t" "out.mov")]
        ++ [RemoveDir "/tmp/t"] ++ [Close]
      /\ written_paths frame_calls
         = ["/tmp/t/frame_000000.png"; "/tmp/t/frame_000001.png";
            "/tmp/t/frame_000002.png"]%string.
Proof.
  assert (H0 : snd (main float_AB (Parsed args_plain) env_ok (Some raw_AB)
                         (Some "<b>{{x}}</b>"%string) "/tmp/t"
                         (initial_state no_files)) = Returned)
    by (vm_compute; reflexivity).
  split; [exact H0|].
  destruct (main_success float_AB (Parsed args_plain) env_ok (Some raw_AB)
              (Some "<b>{{x}}</b>"%string) "/tmp/t" (initial_state no_files)
              H0)
    as (args & sb & raw & rows & total & calls & Ha & Hi & Hr & Hc & _ & Ht
        & Hlog & _ & Hw & _).
  injection Ha as <-. injection Hr as <-.
  assert (Hsb : sb = board 1)
    by (vm_compute in Hi; injection Hi as <-; reflexivity).
  assert (Hrows : rows = table_AB)
    by (vm_compute in Hc; injection Hc as <-; reflexivity).
  subst sb rows.
  assert (Htotal : total = 3%Z)
    by (vm_compute in Ht; injection Ht as <-; reflexivity).
  subst total. exists calls. split; [exact Hlog | exact Hw].
Defined.

(** [scoreboard.py --help]: the parser ends the process with status 0
    and nothing is launched. *)
Example main_help :
  main float_AB (ParserExit 0) env_ok (Some raw_AB)
       (Some "<b>{{x}}</b>"%string) "/tmp/t" (initial_state no_files)
  = (initial_state no_files, Exited 0).
Proof. reflexivity. Qed.

(** ** What the frame files hold *)

(** Equal dicts with the same columns in the same order hold the same
    named parameters. *)
Lemma dict_eqb_named a :
  forall b,
    dict_keys a = dict_keys b ->
    unique_keys a ->
    string_cells a -> string_cells b ->
    (forall k v, In (k, v) a ->
       exists v', dict_get k b = Some v' /\ value_eqb v v' = true) ->
    named_params a = named_params b.
Proof.
  induction a as [|[k v] a IH]; intros b Hk Hu Ha Hb He.
  - destruct b; [reflexivity | discriminate].
  - destruct b as [|[k' v'] b]; [discriminate|].
    cbn [dict_keys map fst] in Hk. injection Hk as <- Hk.
    unfold unique_keys in Hu. cbn [dict_keys map fst] in Hu.
    apply NoDup_cons_iff in Hu as [Hnin Hu].
    assert (Htail : named_params a = named_params b).
    { apply IH; auto.
      - intros k2 v2 Hin. apply (Ha k2 v2). now right.
      - intros k2 v2 Hin. apply (Hb k2 v2). now right.
      - intros k2 v2 Hin.
        destruct (He k2 v2 (or_intror Hin)) as (w & Hg & Hv).
        exists w. split; [|exact Hv].
        cbn [dict_get] in Hg.
        destruct (String.eqb k k2) eqn:E; [|exact Hg].
        apply String.eqb_eq in E. subst k2. exfalso. apply Hnin.
        apply (in_map fst) in Hin. exact Hin. }
    unfold named_params. cbn [filter fst].
    fold (named_params a). fold (named_params b). rewrite Htail.
    destruct (String.eqb k "timestamp") eqn:E; cbn [negb]; [reflexivity|].
    apply String.eqb_neq in E.
    destruct (He k v (or_introl eq_refl)) as (w & Hg & Hv).
    cbn [dict_get] in Hg. rewrite String.eqb_refl in Hg. injection Hg as <-.
    destruct (Ha k v (or_introl eq_refl) E) as (s & ->).
    destruct (Hb k v' (or_introl eq_refl) E) as (s' & ->).
    cbn [value_eqb] in Hv. apply String.eqb_eq in Hv. now subst s'.
Qed.

Lemma dict_eqb_In a b :
  dict_eqb a b = true ->
  forall k v, In (k, v) a ->
    exists v', dict_get k b = Some v' /\ value_eqb v v' = true.
Proof.
  unfold dict_eqb. intros H k v Hin.
  apply andb_true_iff in H as [_ H].
  rewrite forallb_forall in H. specialize (H (k, v) Hin). cbn [fst snd] in H.
  destruct (dict_get k b) as [w|]; [|discriminate]. now exists w.
Qed.

Section Content.

Variable sb : ScoreBoard.
Variable env : environment.
Variable template : string.
Variable data : list dict.
Variable temp_dir : string.

Hypothesis data_unique : forall row, In row data -> unique_keys row.
Hypothesis data_strings : forall row, In row data -> string_cells row.
Hypothesis data_columns : same_columns data.

(** A cache hit stands for the same document. *)
Lemma equal_rows_same_document i j :
  (i < List.length data)%nat -> (j < List.length data)%nat ->
  dict_eqb (row_at data i) (row_at data j) = true ->
  fill_template template (global_params sb) (row_at data i)
  = fill_template template (global_params sb) (row_at data j).
Proof.
  intros Hi Hj He. apply fill_template_named.
  assert (Ii : In (row_at data i) data) by now apply nth_In.
  assert (Ij : In (row_at data j) data) by now apply nth_In.
  apply dict_eqb_named; auto. now apply dict_eqb_In.
Qed.

Lemma frame_shows_write fs n m img :
  n <> m ->
  frame_shows sb env template data temp_dir fs n ->
  frame_shows sb env template data temp_dir
              (write_file (frame_path_of temp_dir m) img fs) n.
Proof.
  intros Hne (raster & Hs & Hf). exists raster. split; [exact Hs|].
  rewrite write_file_other; [exact Hf|].
  intros E. apply frame_path_of_injective in E. contradiction.
Qed.

(** The invariant of the frame loop before frame [k]: the frames made so
    far show their events, and the cache fields are those of frame
    [k - 1]. *)
Lemma frame_loop_shows m :
  forall k idx st st' loc',
    (idx < List.length data)%nat ->
    (forall n, (n < k)%nat ->
               frame_shows sb env template data temp_dir (files st) n) ->
    match k with
    | O => last_params st = None /\ idx = 0%nat
    | S j => last_params st = Some (row_at data idx)
             /\ last_frame_path st = Some (frame_path_of temp_dir j)
             /\ idx = frame_index sb data j
    end ->
    frame_loop sb env template data temp_dir (seq k m) (idx, row_at data idx) st
    = (st', Ok loc') ->
    forall n, (n < k + m)%nat ->
              frame_shows sb env template data temp_dir (files st') n.
Proof.
  induction m as [|m IH]; intros k idx st st' loc' Hidx Hshown Hcache Hrun n Hn.
  - cbn in Hrun. injection Hrun as <- _. apply Hshown. lia.
  - cbn [seq frame_loop] in Hrun. unfold bind in Hrun.
    assert (C := frame_body_case sb env template data temp_dir k
                   (idx, row_at data idx) st).
    cbv zeta in C. cbn [fst snd] in C. rewrite advance_pair in C.
    cbn [fst snd] in C.
    set (idx' := advance_idx data idx (frame_clock sb k)) in *.
    assert (Hidx' : (idx' < List.length data)%nat) by now apply advance_idx_lt.
    assert (Hfi : idx' = frame_index sb data k).
    { destruct k as [|j].
      - destruct Hcache as [_ ->]. now rewrite frame_index_step.
      - destruct Hcache as (_ & _ & E). rewrite frame_index_S, <- E.
        reflexivity. }
    set (path := frame_path_of temp_dir k) in *.
    inversion C as [raster Hneq Hs Heq | Hneq Hs Heq | Hneq Hl Heq
                    | previous Hneq Hl Hf Heq | previous raster Hneq Hl Hf Heq];
      rewrite <- Heq in Hrun; try discriminate.
    + (* rendered *)
      eapply IH with (k := S k) (idx := idx');
        [exact Hidx' | | | exact Hrun | lia].
      * intros n0 Hn0. cbn [files].
        destruct (Nat.eq_dec n0 k) as [-> | Hne].
        -- exists raster. rewrite <- Hfi. split; [exact Hs|].
           fold path. unfold trim.
           destruct (cropped_image raster); apply write_file_same.
        -- assert (Hold : frame_shows sb env template data temp_dir
                                      (files st) n0) by (apply Hshown; lia).
           destruct (cropped_image raster);
             repeat apply frame_shows_write; auto.
      * cbn [last_params last_frame_path]. auto.
    + (* copied *)
      destruct k as [|j].
      { destruct Hcache as [Hnone _]. rewrite Hnone in Hneq. discriminate. }
      destruct Hcache as (Hlast & Hpath & Hj).
      rewrite Hlast in Hneq. cbn [dict_neq_opt] in Hneq.
      apply negb_false_iff in Hneq.
      rewrite Hpath in Hl. injection Hl as <-.
      destruct (Hshown j ltac:(lia)) as (r0 & Hs0 & Hf0).
      rewrite Hf0 in Hf. injection Hf as <-.
      eapply IH with (k := S (S j)) (idx := idx');
        [exact Hidx' | | | exact Hrun | lia].
      * intros n0 Hn0. cbn [files].
        destruct (Nat.eq_dec n0 (S j)) as [-> | Hne].
        -- exists r0. split; [|apply write_file_same].
           rewrite <- Hfi.
           rewrite (equal_rows_same_document idx' idx Hidx' Hidx Hneq).
           rewrite Hj. exact Hs0.
        -- apply frame_shows_write; [exact Hne|]. apply Hshown. lia.
      * cbn [last_params last_frame_path]. auto.
Qed.

End Content.

(** X11. What the frames hold: on rows with one entry per column, the
    same columns in the same order and string cells (what [csv.DictReader]
    yields), when the frame loop started without remembered parameters
    returns, the file of every frame holds the trimmed screenshot of the
    template filled with the event that frame stands on, whether the frame
    was rendered or copied from the one before. *)
Theorem frames_show_events (sb : ScoreBoard) (env : environment)
        (template : string) (rows : list dict) (temp_dir : string)
        (total : nat) (st st' : state) (loc' : nat * dict) :
  rows <> [] ->
  Forall unique_keys rows ->
  Forall string_cells rows ->
  same_columns rows ->
  last_params st = None ->
  frame_loop sb env template (read_csv_data rows) temp_dir (seq 0 total)
             (0%nat, row_at (read_csv_data rows) 0) st = (st', Ok loc') ->
  forall frame_num, (frame_num < total)%nat ->
    frame_shows sb env template (read_csv_data rows) temp_dir (files st')
                frame_num.
Proof.
  intros Hrows Hu Hs Hc Hnone Hrun n Hn.
  rewrite Forall_forall in Hu, Hs.
  apply (frame_loop_shows sb env template (read_csv_data rows) temp_dir)
    with (m := total) (k := 0%nat) (idx := 0%nat) (st := st) (loc' := loc').
  - intros row Hin. apply Hu. now apply read_csv_data_In.
  - intros row Hin. apply Hs. now apply read_csv_data_In.
  - intros a b Ha Hb. apply Hc; now apply read_csv_data_In.
  - assert (Hd := read_csv_data_nonempty rows Hrows).
    destruct (read_csv_data rows); [congruence | cbn; lia].
  - intros n0 Hn0. lia.
  - now split.
  - exact Hrun.
  - exact Hn.
Qed.

(** Three frames of [(0.0, x=A), (2.0, x=B)] at one frame per second:
    frame 1, a copy of frame 0, shows the first event, as frame 0 does. *)
Lemma frames_show_events_witness :
  frame_shows (board 1) env_ok "<b>{{x}}</b>" (read_csv_data table_AB) "/tmp/t"
    (files (fst (frame_loop (board 1) env_ok "<b>{{x}}</b>"
                   (read_csv_data table_AB) "/tmp/t" (seq 0 3)
                   (0%nat, row_at (read_csv_data table_AB) 0)
                   (initial_state no_files))))
    1.
Proof.
  destruct (frame_loop (board 1) env_ok "<b>{{x}}</b>"
              (read_csv_data table_AB) "/tmp/t" (seq 0 3)
              (0%nat, row_at (read_csv_data table_AB) 0)
              (initial_state no_files)) as [st' r] eqn:Hrun.
  assert (Hr : r = Ok (1%nat, row_at (read_csv_data table_AB) 1)).
  { apply (f_equal snd) in Hrun. cbn [snd] in Hrun. rewrite <- Hrun.
    vm_compute. reflexivity. }
  subst r. cbn [fst].
  apply (frames_show_events (board 1) env_ok "<b>{{x}}</b>" table_AB "/tmp/t"
           3 (initial_state no_files) st'
           (1%nat, row_at (read_csv_data table_AB) 1)).
  - discriminate.
  - repeat constructor; simpl; intuition discriminate.
  - apply Forall_forall. intros row Hrow k v Hin Hk. simpl in Hrow.
    destruct Hrow as [<- | [<- | []]]; simpl in Hin;
      destruct Hin as [E | [E | []]]; injection E as <- <-;
      solve [congruence | now eexists].
  - intros a b Ha Hb. simpl in Ha, Hb.
    destruct Ha as [<- | [<- | []]], Hb as [<- | [<- | []]]; reflexivity.
  - reflexivity.
  - exact Hrun.
  - lia.
Defined.

(** ** Trimming a trimmed image *)

Lemma image_ext (a b : image) :
  mode a = mode b ->
  img_height a = img_height b ->
  (forall i, (i < img_height a)%nat ->
     List.length (nth i (pixels a) []) = List.length (nth i (pixels b) [])) ->
  (forall i j, (i < img_height a)%nat ->
     (j < List.length (nth i (pixels a) []))%nat ->
     pixel_at (pixels a) i j = pixel_at (pixels b) i j) ->
  a = b.
Proof.
  destruct a as [ma pa], b as [mb pb]. unfold img_height. cbn [mode pixels].
  intros -> Hh Hl Hp. f_equal.
  apply (nth_ext pa pb [] [] Hh). intros i Hi.
  apply (nth_ext _ _ transparent transparent (Hl i Hi)). intros j Hj.
  exact (Hp i j Hi Hj).
Qed.

Section Cropped.

Variables img out : image.
Variables top bottom left_ right_ : nat.
Hypothesis Hbox : bounding_box img top bottom left_ right_.
Hypothesis Hcrop : is_crop img out top bottom left_ right_.

Lemma crop_height : img_height out = (bottom - top + 1)%nat.
Proof. apply Hcrop. Qed.

Lemma crop_row i :
  (i < img_height out)%nat ->
  List.length (nth i (pixels out) []) = (right_ - left_ + 1)%nat.
Proof. apply Hcrop. Qed.

Lemma crop_width : img_width out = (right_ - left_ + 1)%nat.
Proof.
  assert (Hh := crop_height). assert (Hr := crop_row 0).
  unfold img_width, img_height in *.
  destruct (pixels out) as [|r rs]; cbn [List.length nth] in *; [lia|].
  apply Hr. lia.
Qed.

Lemma crop_well_formed : well_formed out = true.
Proof.
  unfold well_formed. rewrite crop_width, crop_height.
  apply andb_true_iff. split.
  - apply andb_true_iff. split; apply Nat.ltb_lt; lia.
  - apply forallb_forall. intros r Hin.
    apply (In_nth _ _ []) in Hin as (i & Hi & <-).
    apply Nat.eqb_eq. now apply crop_row.
Qed.

Lemma crop_alpha i j :
  (i < img_height out)%nat -> (j < img_width out)%nat ->
  alpha_at out i j = alpha_at img (top + i) (left_ + j).
Proof.
  rewrite crop_height, crop_width. intros Hi Hj.
  destruct Hcrop as (_ & _ & _ & Hp). unfold alpha_at.
  rewrite Hp by lia. reflexivity.
Qed.

(** A pixel of positive alpha of the image, seen in the cut. *)
Lemma crop_keeps_opaque r c :
  (r < img_height img)%nat -> (c < img_width img)%nat ->
  (0 < alpha_at img r c)%N ->
  (r - top < img_height out)%nat /\ (c - left_ < img_width out)%nat
  /\ (0 < alpha_at out (r - top) (c - left_))%N.
Proof.
  intros Hr Hc Hp.
  destruct (box_encloses _ _ _ _ _ Hbox r c Hr Hc Hp) as [Hrr Hcc].
  assert (Hi : (r - top < img_height out)%nat) by (rewrite crop_height; lia).
  assert (Hj : (c - left_ < img_width out)%nat) by (rewrite crop_width; lia).
  split; [exact Hi|]. split; [exact Hj|].
  rewrite (crop_alpha _ _ Hi Hj).
  replace (top + (r - top))%nat with r by lia.
  replace (left_ + (c - left_))%nat with c by lia. exact Hp.
Qed.

(** The bounding box of the cut is the whole cut. *)
Lemma crop_box_full t' b' l' r' :
  bounding_box out t' b' l' r' ->
  t' = 0%nat /\ b' = (bottom - top)%nat
  /\ l' = 0%nat /\ r' = (right_ - left_)%nat.
Proof.
  intros Hb'.
  assert (Hrows := box_rows _ _ _ _ _ Hb').
  assert (Hcols := box_cols _ _ _ _ _ Hb').
  rewrite crop_height in Hrows. rewrite crop_width in Hcols.
  assert (Hbr := box_rows _ _ _ _ _ Hbox).
  assert (Hbc := box_cols _ _ _ _ _ Hbox).
  destruct (box_top _ _ _ _ _ Hbox) as (c1 & Hc1 & Hp1).
  destruct (box_bottom _ _ _ _ _ Hbox) as (c2 & Hc2 & Hp2).
  destruct (box_left _ _ _ _ _ Hbox) as (r3 & Hr3 & Hp3).
  destruct (box_right _ _ _ _ _ Hbox) as (r4 & Hr4 & Hp4).
  destruct (crop_keeps_opaque top c1 ltac:(lia) Hc1 Hp1) as (Hi1 & Hj1 & Ho1).
  destruct (crop_keeps_opaque bottom c2 ltac:(lia) Hc2 Hp2) as (Hi2 & Hj2 & Ho2).
  destruct (crop_keeps_opaque r3 left_ Hr3 ltac:(lia) Hp3) as (Hi3 & Hj3 & Ho3).
  destruct (crop_keeps_opaque r4 right_ Hr4 ltac:(lia) Hp4) as (Hi4 & Hj4 & Ho4).
  destruct (box_encloses _ _ _ _ _ Hb' _ _ Hi1 Hj1 Ho1) as [E1 _].
  destruct (box_encloses _ _ _ _ _ Hb' _ _ Hi2 Hj2 Ho2) as [E2 _].
  destruct (box_encloses _ _ _ _ _ Hb' _ _ Hi3 Hj3 Ho3) as [_ E3].
  destruct (box_encloses _ _ _ _ _ Hb' _ _ Hi4 Hj4 Ho4) as [_ E4].
  lia.
Qed.

Lemma crop_has_opaque : has_opaque out.
Proof.
  assert (Hbr := box_rows _ _ _ _ _ Hbox).
  destruct (box_top _ _ _ _ _ Hbox) as (c1 & Hc1 & Hp1).
  destruct (crop_keeps_opaque top c1 ltac:(lia) Hc1 Hp1) as (Hi1 & Hj1 & Ho1).
  now exists (top - top)%nat, (c1 - left_)%nat.
Qed.

End Cropped.

(** X12. Trimming is idempotent and never enlarges: the image
    [crop_transparent_borders] leaves is again an image (positive width and
    height, rows of one length), no taller and no wider than the one it
    was given, and trimming it once more changes nothing. *)
Theorem trim_idempotent (img : image) :
  well_formed img = true ->
  well_formed (trim img) = true
  /\ (img_height (trim img) <= img_height img)%nat
  /\ (img_width (trim img) <= img_width img)%nat
  /\ trim (trim img) = trim img.
Proof.
  intros Hwf.
  destruct (trim_meets_contract img Hwf) as (Hother & Hclear & Hopaque).
  assert (Hsame : trim img = img ->
            well_formed (trim img) = true
            /\ (img_height (trim img) <= img_height img)%nat
            /\ (img_width (trim img) <= img_width img)%nat
            /\ trim (trim img) = trim img).
  { intros E. rewrite E. repeat split; auto. }
  destruct (String.eqb (mode img) "RGBA") eqn:Em.
  2:{ apply Hsame, Hother. now apply String.eqb_neq. }
  apply String.eqb_eq in Em.
  destruct (transparent_or_opaque img Hwf) as [Ht | Ho];
    [now apply Hsame, Hclear|].
  destruct (Hopaque Em Ho) as (top & bottom & left_ & right_ & Hbox & Hcrop).
  set (out := trim img) in *.
  assert (Hwf' := crop_well_formed img out top bottom left_ right_ Hcrop).
  assert (Hh := crop_height img out top bottom left_ right_ Hcrop).
  assert (Hw := crop_width img out top bottom left_ right_ Hcrop).
  assert (Hbr := box_rows _ _ _ _ _ Hbox).
  assert (Hbc := box_cols _ _ _ _ _ Hbox).
  split; [exact Hwf'|]. split; [lia|]. split; [lia|].
  assert (Hm' : mode out = "RGBA"%string)
    by (destruct Hcrop as (-> & _); exact Em).
  destruct (trim_meets_contract out Hwf') as (_ & _ & Hopaque').
  destruct (Hopaque' Hm'
              (crop_has_opaque img out top bottom left_ right_ Hbox Hcrop))
    as (t' & b' & l' & r' & Hbox' & Hcrop').
  destruct (crop_box_full img out top bottom left_ right_ Hbox Hcrop
                          t' b' l' r' Hbox') as (-> & -> & -> & ->).
  destruct Hcrop' as (Hmode & Hheight & Hrow & Hpix).
  apply image_ext.
  - exact Hmode.
  - rewrite Hheight, Hh. lia.
  - intros i Hi. rewrite (Hrow i Hi).
    rewrite (crop_row img out top bottom left_ right_ Hcrop i); [lia|].
    rewrite Hh. rewrite Hheight in Hi. lia.
  - intros i j Hi Hj. rewrite (Hrow i Hi) in Hj. rewrite Hheight in Hi.
    rewrite Hpix by lia. reflexivity.
Qed.

(** The one-pixel canvas: trimmed to its pixel, and trimmed again the
    same. *)
Lemma trim_idempotent_witness :
  trim (trim canvas_one_pixel) = trim canvas_one_pixel
  /\ well_formed (trim canvas_one_pixel) = true.
Proof.
  destruct (trim_idempotent canvas_one_pixel eq_refl) as (Hwf & _ & _ & Hi).
  split; [exact Hi | exact Hwf].
Defined.

(** ** The last frame *)

Lemma frame_index_active sb rows n :
  rows <> [] ->
  (0 < fps sb)%Z ->
  active_index (read_csv_data rows) (frame_clock sb n)
               (frame_index sb (read_csv_data rows) n).
Proof.
  intros Hrows Hfps. rewrite frame_index_step.
  assert (Hnd : nondecreasing (map (frame_clock sb) (seq 0 n)
                               ++ [frame_clock sb n])).
  { assert (H := frame_clock_nondecreasing sb (S n) Hfps).
    now rewrite seq_S, map_app in H. }
  destruct (resolve_from_start (read_csv_data rows) _ _
              (read_csv_data_nonempty rows Hrows)
              (read_csv_data_sorted rows) Hnd)
    as (Hi & t0 & Ht0 & Hinv).
  exact (advance_idx_active (read_csv_data rows) _ t0 _
           (read_csv_data_sorted rows) Hi Ht0 Hinv).
Qed.

(** The float sum [t + 1.0] times the frame rate is at least two frames
    beyond [t * fps], rounding included. *)
Lemma default_duration_margin (t : Q) (rate : Z) :
  (0 <= t)%Q ->
  (2 <= rate)%Z ->
  ((t + 1) * inject_Z rate < inject_Z (2 ^ 52))%Q ->
  (inject_Z (Qfloor (t * inject_Z rate) + 2)
   <= round64 (t + 1) * inject_Z rate)%Q
  /\ (round64 (t + 1) * inject_Z rate < inject_Z (2 ^ 53))%Q.
Proof.
  intros Ht Hr Hb.
  set (F := inject_Z rate) in *.
  assert (HF : (2 <= F)%Q)
    by (unfold F; change 2%Q with (inject_Z 2); now rewrite <- Zle_Qle).
  set (k := Qfloor (t * F)).
  assert (Hk1 : (inject_Z k <= t * F)%Q) by apply Qfloor_le.
  assert (Hk0 : (0 <= k)%Z).
  { change 0%Z with (Qfloor 0). apply Qfloor_resp_le. nra. }
  assert (Hk2 : (inject_Z k < inject_Z (2 ^ 52))%Q) by nra.
  rewrite <- Zlt_Qlt in Hk2.
  assert (Hq : (-1074 < quantum (t + 1))%Z).
  { assert (H := quantum_normal (t + 1) ltac:(lra)). lia. }
  destruct (round64_error (t + 1) ltac:(lra) Hq) as [E1 E2].
  set (S := round64 (t + 1)) in *.
  assert (He : pow2 (-53) == 1 # 9007199254740992) by reflexivity.
  assert (H52 : inject_Z (2 ^ 52) == 4503599627370496) by reflexivity.
  assert (H53 : inject_Z (2 ^ 53) == 9007199254740992) by reflexivity.
  rewrite He in E1, E2. rewrite H52 in Hb. rewrite H53.
  assert (Hk3 : (inject_Z k < 4503599627370496)%Q)
    by (rewrite <- H52, <- Zlt_Qlt; exact Hk2).
  split.
  - rewrite inject_Z_plus. change (inject_Z 2) with 2%Q.
    destruct (Z.eq_dec rate 2) as [E | Hne].
    + (* at two frames a second the bound is a double *)
      assert (EF : F == 2) by (unfold F; now rewrite E).
      assert (Hy := round64_exact (k + 2) (-1) ltac:(lia) ltac:(lia)).
      assert (Hm : round64 (inject_Z (k + 2) * pow2 (-1)) <= S).
      { apply round64_mono.
        - apply Qmult_le_0_compat; [|discriminate].
          change 0%Q with (inject_Z 0). rewrite <- Zle_Qle. lia.
        - rewrite inject_Z_plus. change (inject_Z 2) with 2%Q.
          change (pow2 (-1)) with (1 # 2). rewrite EF in Hk1. lra. }
      rewrite Hy in Hm. rewrite inject_Z_plus in Hm.
      change (inject_Z 2) with 2%Q in Hm. change (pow2 (-1)) with (1 # 2) in Hm.
      rewrite EF. lra.
    + assert (H3 : 3 <= F).
      { unfold F. change 3%Q with (inject_Z 3). rewrite <- Zle_Qle. lia. }
      assert (G1 : (t + 1) * (1 - (1 # 9007199254740992)) * F <= S * F)
        by (apply Qmult_le_compat_r; [exact E1 | lra]).
      nra.
  - assert (G2 : S * F <= (t + 1) * (1 + (1 # 9007199254740992)) * F)
      by (apply Qmult_le_compat_r; [exact E2 | lra]).
    nra.
Qed.

(** X13. The last frame: when [--duration] is not given, the timestamps
    are doubles that are not negative, the frame rate is at least 2 and the
    last timestamp plus one, times the frame rate, stays below 2^52, there
    are frames, the clock of the last one has reached the greatest
    timestamp, and the last frame stands on the last row of the sorted
    table: the second the code adds after the last change is enough for
    that change to be shown, rounding included. *)
Theorem last_frame_shows_last_event (sb : ScoreBoard) (rows : list dict) :
  rows <> [] ->
  (2 <= fps sb)%Z ->
  args_duration sb = None ->
  Forall (fun row => (0 <= timestamp_of row)%Q
                     /\ is_double (timestamp_of row)) rows ->
  ((timestamp_of (last (read_csv_data rows) []) + 1) * inject_Z (fps sb)
   < inject_Z (2 ^ 52))%Q ->
  let data := read_csv_data rows in
  exists total,
    total_frames sb data = Some total
    /\ (0 < total)%Z
    /\ (timestamp_of (last data [])
        <= frame_clock sb (Z.to_nat total - 1))%Q
    /\ frame_index sb data (Z.to_nat total - 1) = (List.length data - 1)%nat.
Proof.
  intros Hrows Hf Hd Hts Hb data.
  assert (Hne : data <> []) by now apply read_csv_data_nonempty.
  assert (Hlen : (0 < List.length data)%nat)
    by (destruct data; [congruence | cbn; lia]).
  assert (Hlast : (0 <= timestamp_of (last data []))%Q
                  /\ is_double (timestamp_of (last data []))).
  { rewrite Forall_forall in Hts. apply Hts. apply read_csv_data_In.
    fold data. rewrite (last_is_nth data Hne). apply nth_In. lia. }
  destruct Hlast as [Ht0 Htd]. fold data in Hb.
  set (t := timestamp_of (last data [])) in *.
  destruct (default_duration_margin t (fps sb) Ht0 Hf Hb) as [Hm1 Hm2].
  assert (Hdur : duration_of sb data = round64 (t + 1))
    by (unfold duration_of; now rewrite Hd).
  set (F := inject_Z (fps sb)) in *.
  assert (HF : (2 <= F)%Q)
    by (unfold F; change 2%Q with (inject_Z 2); now rewrite <- Zle_Qle).
  assert (Hr53 : (fps sb <= 2 ^ 53)%Z).
  { assert (H : F < inject_Z (2 ^ 52)) by (unfold F in *; nra).
    unfold F in H. rewrite <- Zlt_Qlt in H. lia. }
  assert (HS0 : (0 <= round64 (t + 1))%Q) by (apply round64_nonneg; lra).
  destruct (frame_count_bounds (round64 (t + 1)) (fps sb)
              ltac:(lia) HS0 Hm2) as (total & Hc & _ & Hlow & _).
  fold F in Hlow.
  exists total. unfold total_frames. rewrite Hdur.
  split; [exact Hc|].
  set (k := Qfloor (t * F)) in *.
  assert (Hk0 : (0 <= k)%Z).
  { change 0%Z with (Qfloor 0). apply Qfloor_resp_le. nra. }
  assert (Hk : (k + 2 <= total)%Z).
  { eapply Z.le_trans; [|exact Hlow].
    rewrite <- (Qfloor_Z (k + 2)). now apply Qfloor_resp_le. }
  split; [lia|].
  assert (Hclock : (t <= frame_clock sb (Z.to_nat total - 1))%Q).
  { unfold frame_clock. fold F.
    replace (Z.of_nat (Z.to_nat total - 1)) with (total - 1)%Z by lia.
    unfold is_double in Htd. rewrite <- Htd at 1.
    apply round64_mono; [exact Ht0|].
    apply Qle_shift_div_l; [lra|].
    assert (Hlt := Qlt_floor (t * F)). fold k in Hlt.
    assert (Hz : inject_Z (k + 1) <= inject_Z (total - 1))
      by (rewrite <- Zle_Qle; lia).
    lra. }
  split; [exact Hclock|].
  destruct (frame_index_active sb rows (Z.to_nat total - 1) Hrows ltac:(lia))
    as (Hi & Hafter & _).
  fold data in Hi, Hafter.
  destruct (Nat.eq_dec (frame_index sb data (Z.to_nat total - 1))
                       (List.length data - 1)) as [E | Hneq]; [exact E|].
  exfalso.
  assert (Hj := Hafter (List.length data - 1)%nat ltac:(lia) ltac:(lia)).
  rewrite <- (last_is_nth data Hne) in Hj. fold t in Hj.
  apply (Qlt_irrefl (frame_clock sb (Z.to_nat total - 1))).
  eapply Qlt_le_trans; [exact Hj | exact Hclock].
Qed.

(** [(0.0, x=A), (2.0, x=B)] at five frames a second: 15 frames, the last
    one at 2.8 s on the second row. *)
Lemma last_frame_shows_last_event_witness :
  exists total,
    total_frames (board 5) (read_csv_data table_AB) = Some total
    /\ (0 < total)%Z
    /\ (timestamp_of (last (read_csv_data table_AB) [])
        <= frame_clock (board 5) (Z.to_nat total - 1))%Q
    /\ frame_index (board 5) (read_csv_data table_AB) (Z.to_nat total - 1)
       = (List.length (read_csv_data table_AB) - 1)%nat.
Proof.
  apply (last_frame_shows_last_event (board 5) table_AB).
  - discriminate.
  - vm_compute. discriminate.
  - reflexivity.
  - repeat constructor; vm_compute; (discriminate || reflexivity).
  - vm_compute. reflexivity.
Defined.

Example last_frame_at_five_fps :
  total_frames (board 5) (read_csv_data table_AB) = Some 15%Z
  /\ frame_index (board 5) (read_csv_data table_AB) 14 = 1%nat.
Proof. split; vm_compute; reflexivity. Qed.

(** At one frame a second the added second is not enough: a change at
    0.5 s gives one frame, at 0 s, which shows the first row. *)
Example last_event_missed_at_one_fps :
  let rows := [ [("timestamp", float_of 0 "0.0"); ("x", VStr "A")];
                [("timestamp", float_of (1 # 2) "0.5"); ("x", VStr "B")] ] in
  total_frames (board 1) (read_csv_data rows) = Some 1%Z
  /\ frame_index (board 1) (read_csv_data rows) 0 = 0%nat.
Proof. split; vm_compute; reflexivity. Qed.

(** ** A run without frames *)

Lemma py_int_zero q : (q == 0)%Q -> py_int q = 0%Z.
Proof.
  destruct q as [n d]. unfold Qeq, py_int. cbn [Qnum Qden]. intros H.
  assert (n = 0%Z) by lia. subst n. reflexivity.
Qed.

Lemma frame_count_rate_zero duration : frame_count duration 0 = Some 0%Z.
Proof.
  unfold frame_count.
  assert (E : int_to_float 0 = Some 0%Q) by (vm_compute; reflexivity).
  rewrite E. unfold to_double.
  assert (R : round64 (duration * 0) = 0%Q)
    by (apply round64_zero; ring).
  rewrite R. reflexivity.
Qed.

(** X14. No frames: at a frame rate of 0 the frame count is 0, so that
    the division of line 155 is never reached; and whenever the frame count
    is not positive, a run whose browser starts makes no frame and still
    calls the encoder, once, on the empty directory, closing the browser
    if the encoder exits with status 0. *)
Theorem no_frames_run (sb : ScoreBoard) (env : environment)
        (rows : list dict) (template temp_dir output_path : string)
        (st : state) :
  (fps sb = 0%Z -> total_frames sb (read_csv_data rows) = Some 0%Z)
  /\ (rows <> [] ->
      chromium_launches env = true ->
      forall total,
        total_frames sb (read_csv_data rows) = Some total ->
        (total <= 0)%Z ->
        let cmd := ffmpeg_command sb temp_dir output_path in
        log (fst (generate_overlay sb env rows template temp_dir output_path
                                   st))
        = log st ++ [Launch; Encode cmd]
          ++ (if args_keep sb then [] else [RemoveDir temp_dir])
          ++ (if Z.eqb (returncode (ffmpeg env cmd)) 0 then [Close] else [])).
Proof.
  split.
  - intros Hf. unfold total_frames. rewrite Hf. apply frame_count_rate_zero.
  - intros Hrows Hl total Ht Hn cmd.
    rewrite (generate_overlay_launched _ _ _ _ _ _ _ total Hrows Hl Ht).
    unfold frame_numbers.
    replace (Z.to_nat total) with 0%nat by lia.
    cbn [seq frame_loop].
    unfold bind at 1, with_temporary_directory, bind, ret.
    rewrite encode_video_run. cbv zeta. fold cmd.
    cbn [log driver files last_params last_frame_path].
    destruct (Z.eqb (returncode (ffmpeg env cmd)) 0), (args_keep sb);
      cbn [negb fst snd]; unfold cleanup_browser, bind, get;
      cbn [log driver files last_params last_frame_path]; cbv [emit];
      cbn [fst log driver files last_params last_frame_path];
      rewrite <- ?app_assoc; reflexivity.
Qed.

(** A frame rate of 0: the browser is launched, the encoder called, the
    directory removed and the browser closed; nothing is rendered. *)
Lemma no_frames_run_witness :
  log (fst (generate_overlay (board 0) env_ok table_AB "<b>{{x}}</b>"
              "/tmp/t" "out.mov" (initial_state no_files)))
  = [Launch; Encode (ffmpeg_command (board 0) "/tmp/t" "out.mov");
     RemoveDir "/tmp/t"; Close].
Proof.
  destruct (no_frames_run (board 0) env_ok table_AB "<b>{{x}}</b>"
              "/tmp/t" "out.mov" (initial_state no_files)) as [_ H].
  apply (H ltac:(discriminate) eq_refl 0%Z).
  - vm_compute. reflexivity.
  - lia.
Defined.

(** ** The [while] loop of the scan *)

Lemma scan_S fuel data t idx cur :
  scan (S fuel) data t idx cur
  = if (idx <? List.length data - 1)%nat
       && Qle_bool (timestamp_of (row_at data (idx + 1))) t
    then scan fuel data t (idx + 1) (row_at data (idx + 1))
    else (idx, cur).
Proof. reflexivity. Qed.

Lemma scan_fuel_S data t fuel :
  forall idx cur,
    (List.length data - 1 - idx <= fuel)%nat ->
    scan (S fuel) data t idx cur = scan fuel data t idx cur.
Proof.
  induction fuel as [|fuel IH]; intros idx cur Hf.
  - cbn [scan].
    replace (idx <? List.length data - 1)%nat with false; [reflexivity|].
    symmetry. apply Nat.ltb_ge. lia.
  - rewrite (scan_S (S fuel) data t idx cur), (scan_S fuel data t idx cur).
    destruct ((idx <? List.length data - 1)%nat
              && Qle_bool (timestamp_of (row_at data (idx + 1))) t);
      [|reflexivity].
    apply IH. lia.
Qed.

Lemma scan_fuel_add data t idx cur fuel k :
  (List.length data - 1 - idx <= fuel)%nat ->
  scan (k + fuel) data t idx cur = scan fuel data t idx cur.
Proof.
  intros Hf. induction k as [|k IH]; [reflexivity|].
  cbn [Nat.add]. rewrite scan_fuel_S by lia. exact IH.
Qed.

(** X15. The [while] loop of lines 158-161 terminates: from index [idx]
    it runs at most [len(data) - 1 - idx] times, so that any larger number
    of iterations allowed gives the result of the loop, and when it stops
    its guard is false. *)
Theorem scan_terminates (data : list dict) (t : Q) (idx : nat) (cur : dict)
        (fuel : nat) :
  (List.length data - 1 - idx <= fuel)%nat ->
  scan fuel data t idx cur = advance data t idx cur
  /\ (let i := fst (advance data t idx cur) in
      (i <? List.length data - 1)%nat
      && Qle_bool (timestamp_of (row_at data (i + 1))) t) = false.
Proof.
  intros Hf. unfold advance. split.
  - set (bound := (List.length data - 1 - idx)%nat) in *.
    assert (E : forall f, (bound <= f)%nat ->
                  scan f data t idx cur = scan bound data t idx cur).
    { intros f Hle. replace f with ((f - bound) + bound)%nat by lia.
      apply scan_fuel_add. unfold bound. lia. }
    rewrite (E fuel Hf). symmetry. apply E. unfold bound. lia.
  - apply scan_exit. lia.
Qed.

(** On [(0.0, x=A), (2.0, x=B)] one iteration is enough from index 0. *)
Lemma scan_terminates_witness :
  scan 1 table_AB 5 0 (row_at table_AB 0)
  = advance table_AB 5 0 (row_at table_AB 0).
Proof.
  apply (scan_terminates table_AB 5 0 (row_at table_AB 0) 1).
  cbn. lia.
Defined.

(** ** The frames a run with [--keep] leaves *)

(** X16. With [--keep], on rows with one entry per column, the same
    columns in the same order and string cells, a run of
    [generate_overlay] that returns leaves in the temporary directory, for
    every frame number below the frame count, the trimmed screenshot of the
    template filled with the event active at that frame. *)
Theorem kept_frames_show_events (sb : ScoreBoard) (env : environment)
        (rows : list dict) (template temp_dir output_path : string)
        (fs : store) (total : Z) :
  Forall unique_keys rows ->
  Forall string_cells rows ->
  same_columns rows ->
  args_keep sb = true ->
  total_frames sb (read_csv_data rows) = Some total ->
  snd (generate_overlay sb env rows template temp_dir output_path
                        (initial_state fs)) = Ok tt ->
  forall frame_num,
    In frame_num (frame_numbers total) ->
    frame_shows sb env template (read_csv_data rows) temp_dir
      (files (fst (generate_overlay sb env rows template temp_dir output_path
                                    (initial_state fs))))
      frame_num.
Proof.
  intros Hu Hs Hc Hk Ht Hok n Hn.
  rewrite Forall_forall in Hu, Hs.
  assert (Hrows : rows <> []).
  { intros E. rewrite (generate_overlay_no_rows _ _ _ _ _ _ _ E) in Hok.
    discriminate. }
  destruct (chromium_launches env) eqn:Hl.
  2:{ rewrite (generate_overlay_not_launched _ _ _ _ _ _ _ Hrows Hl) in Hok.
      discriminate. }
  rewrite (generate_overlay_launched _ _ _ _ _ _ _ total Hrows Hl Ht)
    in Hok |- *.
  rewrite then_cleanup_files.
  unfold bind at 1 in Hok. unfold with_temporary_directory in Hok |- *.
  rewrite Hk in Hok |- *. cbn [negb] in Hok |- *.
  unfold bind in Hok |- *.
  set (st1 := mkstate true _ _ _ _) in *.
  unfold frame_numbers in Hok, Hn |- *.
  destruct (frame_loop sb env template (read_csv_data rows) temp_dir
              (seq 0 (Z.to_nat total))
              (0%nat, row_at (read_csv_data rows) 0) st1)
    as [st2 [loc2 | e]] eqn:Hloop; [|discriminate].
  rewrite encode_video_run in Hok |- *. cbn [fst files].
  apply in_seq in Hn.
  apply (frame_loop_shows sb env template (read_csv_data rows) temp_dir)
    with (m := Z.to_nat total)
         (k := 0%nat) (idx := 0%nat) (st := st1) (loc' := loc2).
  - intros row Hin. apply Hu. now apply read_csv_data_In.
  - intros row Hin. apply Hs. now apply read_csv_data_In.
  - intros a b Ha Hb. apply Hc; now apply read_csv_data_In.
  - assert (Hd := read_csv_data_nonempty rows Hrows).
    destruct (read_csv_data rows); [congruence | cbn; lia].
  - intros n0 Hn0. lia.
  - now split.
  - exact Hloop.
  - lia.
Qed.

(** [--keep] on [(0.0, x=A), (2.0, x=B)] at one frame per second: frame 2
    is left with the screenshot of the second event. *)
Lemma kept_frames_show_events_witness :
  frame_shows (mkScoreBoard 1920 1080 1 "prores" [] None [] true) env_ok
    "<b>{{x}}</b>" (read_csv_data table_AB) "/tmp/t"
    (files (fst (generate_overlay
                   (mkScoreBoard 1920 1080 1 "prores" [] None [] true) env_ok
                   table_AB "<b>{{x}}</b>" "/tmp/t" "out.mov"
                   (initial_state no_files))))
    2.
Proof.
  apply (kept_frames_show_events
           (mkScoreBoard 1920 1080 1 "prores" [] None [] true) env_ok
           table_AB "<b>{{x}}</b>" "/tmp/t" "out.mov" no_files 3).
  - repeat constructor; simpl; intuition discriminate.
  - apply Forall_forall. intros row Hrow k v Hin Hk. simpl in Hrow.
    destruct Hrow as [<- | [<- | []]]; simpl in Hin;
      destruct Hin as [E | [E | []]]; injection E as <- <-;
      solve [congruence | now eexists].
  - intros a b Ha Hb. simpl in Ha, Hb.
    destruct Ha as [<- | [<- | []]], Hb as [<- | [<- | []]]; reflexivity.
  - reflexivity.
  - vm_compute. reflexivity.
  - vm_compute. reflexivity.
  - right. right. left. reflexivity.
Defined.
